(** * Finding recovery, fuzzy matching and metrics of the Score evaluation scripts

    A shallow embedding of
    - [compare], [compute_metrics] and [load_ground_truth] of
      [compare_with_ground_truth.py],
    - [generate_metrics_by_bug_type] of [Benchmark analysis/generate_metrics_csv.py]
      and [analyze_csvs] of [Benchmark analysis/analyze_results_stats.py],
    - [coerce_line_number], [extract_json_from_text], [extract_context_from_code],
      [map_llm_to_subtypes] and [map_llm_to_severity] of [evaluation_helpers.py],
    - the deduplication of [multi_pass_analysis] and the loop of
      [evaluate_contracts] over the findings of [llm_evaluator_llama3.py], and
      the deduplication of [multi_pass_analysis] of [llm_evaluator_deepseek.py],
    - [merge_bug_logs] of [merge_bug_logs.py],
    together with the properties of these functions. What a function reads
    from a file or receives from a model is an argument of its embedding.

    Python [int] is [Z]; a [float] is a binary64 number (module [Float]); a
    [str] is the list of its code points (module [Text]), except for the
    artifact and category names of the match engine and of the breakdown,
    which are only compared and are kept as [string]s (their UTF-8 bytes,
    whose equality and order are those of the code points); a [dict] used as a
    map is a [gmap], a [set] is a [gset], a parsed JSON object is an
    association list in insertion order, and a sequence that is iterated is a
    [list] in iteration order. An operation that can raise returns an
    [option], [None] standing for the exception. *)

From Stdlib Require Import ZArith QArith Qround Qabs Qpower List String Ascii Lia Lqa.
From stdpp Require Import gmap strings list sorting.

#[local] Set Warnings "-clear-no-such-hyp,-register-all".

Local Open Scope string_scope.
Local Open Scope Z_scope.
Local Open Scope list_scope.

(** ** The match engine: [compare] *)

Module Match.

(** A ground-truth entry and a finding are both a triple
    [(contract, bug_type, line)]. *)
Definition entry : Type := string * string * Z.

(** The dictionaries appended to [tp]. *)
Record tp_record : Type := mk_tp {
  tp_contract : string;
  tp_bug_type : string;
  llm_line : Z;
  truth_line : Z;
  diff : Z
}.

(** The dictionaries appended to [fp] and to [fn]. *)
Record line_record : Type := mk_line {
  contract : string;
  bug_type : string;
  line : Z
}.

(** The dictionary [{"TP": tp, "FP": fp, "FN": fn}] returned by [compare]. *)
Record comparison : Type := mk_comparison {
  TP : list tp_record;
  FP : list line_record;
  FN : list line_record
}.

#[global] Instance tp_record_eq_dec : EqDecision tp_record.
Proof. solve_decision. Defined.
#[global] Instance line_record_eq_dec : EqDecision line_record.
Proof. solve_decision. Defined.

(** [gt_by_key[(c, b)].append(l)] on a [defaultdict(list)]. *)
Definition append_line (gt_by_key : gmap (string * string) (list Z)) (e : entry)
    : gmap (string * string) (list Z) :=
  let '(c, b, l) := e in
  <[(c, b) := default [] (gt_by_key !! (c, b)) ++ [l]]> gt_by_key.

(** The first loop of [compare]: ground truth grouped by [(contract, bug_type)],
    each bucket in the iteration order of [ground_truth]. *)
Definition group_by_key (ground_truth : list entry) : gmap (string * string) (list Z) :=
  foldl append_line ∅ ground_truth.

(** [gt_by_key.get((contract, bug_type), [])]. *)
Definition bucket (gt_by_key : gmap (string * string) (list Z)) (c b : string) : list Z :=
  default [] (gt_by_key !! (c, b)).

(** The inner [for truth_ln in ...] loop: the first line of the bucket within
    the tolerance, where the loop breaks; [None] when it runs to its end
    ([found_match] stays [False]). *)
Fixpoint first_within (ln line_tolerance : Z) (lines : list Z) : option Z :=
  match lines with
  | [] => None
  | truth_ln :: rest =>
      if Z.abs (truth_ln - ln) <=? line_tolerance then Some truth_ln
      else first_within ln line_tolerance rest
  end.

(** The variables the main loop updates. *)
Record loop_state : Type := mk_state {
  gt_matched : gset entry;
  tp : list tp_record;
  fp : list line_record
}.

Definition initial_state : loop_state :=
  {| gt_matched := ∅; tp := []; fp := [] |}.

(** One iteration of [for contract, bug_type, ln in llm_findings]. *)
Definition check_finding (gt_by_key : gmap (string * string) (list Z))
    (line_tolerance : Z) (st : loop_state) (finding : entry) : loop_state :=
  let '(c, b, ln) := finding in
  match first_within ln line_tolerance (bucket gt_by_key c b) with
  | Some truth_ln =>
      {| gt_matched := gt_matched st ∪ {[ (c, b, truth_ln) ]};
         tp := tp st ++ [mk_tp c b ln truth_ln (ln - truth_ln)];
         fp := fp st |}
  | None =>
      {| gt_matched := gt_matched st;
         tp := tp st;
         fp := fp st ++ [mk_line c b ln] |}
  end.

Definition entry_record (e : entry) : line_record :=
  let '(c, b, l) := e in mk_line c b l.

(** [compare(llm_findings, ground_truth, line_tolerance)]. [ground_truth] is
    the sequence in which the loops iterate over the ground truth (for the
    [set] that [load_ground_truth] builds, a sequence without duplicates). *)
Definition compare (llm_findings ground_truth : list entry) (line_tolerance : Z)
    : comparison :=
  let gt_by_key := group_by_key ground_truth in
  let st := foldl (check_finding gt_by_key line_tolerance) initial_state llm_findings in
  let fn := entry_record <$> filter (λ e, e ∉ gt_matched st) ground_truth in
  {| TP := tp st; FP := fp st; FN := fn |}.

(** *** Views of the loops used to state the properties *)

(** The lines of the ground-truth entries whose key is exactly [(c, b)], in
    iteration order. *)
Definition lines_of (ground_truth : list entry) (c b : string) : list Z :=
  omap (λ e : entry, if decide (e.1 = (c, b)) then Some e.2 else None) ground_truth.

(** What one iteration of the main loop records for a finding. *)
Inductive outcome : Type :=
  | Matched (r : tp_record)
  | Unmatched (r : line_record).

Definition outcome_of (gt_by_key : gmap (string * string) (list Z))
    (line_tolerance : Z) (finding : entry) : outcome :=
  let '(c, b, ln) := finding in
  match first_within ln line_tolerance (bucket gt_by_key c b) with
  | Some truth_ln => Matched (mk_tp c b ln truth_ln (ln - truth_ln))
  | None => Unmatched (mk_line c b ln)
  end.

Definition matched (o : outcome) : option tp_record :=
  match o with Matched r => Some r | Unmatched _ => None end.

Definition unmatched (o : outcome) : option line_record :=
  match o with Matched _ => None | Unmatched r => Some r end.

(** The finding and the ground-truth entry that a TP record pairs. *)
Definition finding_of (r : tp_record) : entry :=
  (tp_contract r, tp_bug_type r, llm_line r).

Definition truth_of (r : tp_record) : entry :=
  (tp_contract r, tp_bug_type r, truth_line r).

(** The state of the main loop after the findings [done]. *)
Definition state_after (ground_truth : list entry) (line_tolerance : Z)
    (done : list entry) : loop_state :=
  foldl (check_finding (group_by_key ground_truth) line_tolerance) initial_state done.

(** A ground-truth entry is matched when some TP record pairs it with a
    finding. *)
Definition matched_as_tp (res : comparison) (e : entry) : Prop :=
  ∃ r, r ∈ TP res ∧ truth_of r = e.

(** No ground-truth entry is paired with two findings. *)
Definition truth_matched_at_most_once (res : comparison) : Prop :=
  ∀ (i j : nat) r1 r2,
    TP res !! i = Some r1 → TP res !! j = Some r2 →
    truth_of r1 = truth_of r2 → i = j.

(** Every ground-truth entry is either matched or a false negative, not both. *)
Definition truth_partitioned (res : comparison) (ground_truth : list entry) : Prop :=
  ∀ e, e ∈ ground_truth →
    (matched_as_tp res e ∧ entry_record e ∉ FN res) ∨
    (¬ matched_as_tp res e ∧ entry_record e ∈ FN res).

(** Every finding is recorded once, as a TP that names one truth line or as
    an FP. *)
Definition findings_partitioned (res : comparison) (llm_findings ground_truth : list entry)
    (line_tolerance : Z) : Prop :=
  let outcomes := outcome_of (group_by_key ground_truth) line_tolerance <$> llm_findings in
  TP res = omap matched outcomes ∧ FP res = omap unmatched outcomes.

(** Ground-truth entries of one key lie more than [2 * t] lines apart. *)
Definition well_separated (ground_truth : list entry) (t : Z) : Prop :=
  ∀ c b l1 l2, (c, b, l1) ∈ ground_truth → (c, b, l2) ∈ ground_truth →
    l1 ≠ l2 → 2 * t < Z.abs (l1 - l2).

(** The iteration of the main loop on [finding] appends a TP record. *)
Definition recorded_as_tp (ground_truth : list entry) (line_tolerance : Z)
    (st : loop_state) (finding : entry) : Prop :=
  length (tp (check_finding (group_by_key ground_truth) line_tolerance st finding))
  = S (length (tp st)).

(** The partition invariant together with one-to-one matching: the counts of
    TP and FP add up to the findings, every truth entry is matched or a false
    negative, no truth entry is matched twice, and every finding is recorded
    once. *)
Definition one_to_one_partition (llm_findings ground_truth : list entry)
    (line_tolerance : Z) : Prop :=
  let res := compare llm_findings ground_truth line_tolerance in
  (length (TP res) + length (FP res))%nat = length llm_findings ∧
  truth_partitioned res ground_truth ∧
  truth_matched_at_most_once res ∧
  findings_partitioned res llm_findings ground_truth line_tolerance.

(** Going from tolerance [t1] to [t2] loses no TP and adds no FN. *)
Definition tolerance_monotone (llm_findings ground_truth : list entry) (t1 t2 : Z) : Prop :=
  (length (TP (compare llm_findings ground_truth t1))
   ≤ length (TP (compare llm_findings ground_truth t2)))%nat ∧
  (length (FN (compare llm_findings ground_truth t2))
   ≤ length (FN (compare llm_findings ground_truth t1)))%nat.

(** With tolerance 0 a finding is recorded as TP exactly when its tuple is a
    ground-truth entry that no earlier finding has matched. *)
Definition exact_unconsumed_matching (llm_findings ground_truth : list entry) : Prop :=
  ∀ (i : nat) finding, llm_findings !! i = Some finding →
    let st := state_after ground_truth 0 (take i llm_findings) in
    recorded_as_tp ground_truth 0 st finding
    ↔ finding ∈ ground_truth ∧ finding ∉ gt_matched st.

(** The records of a finding that is matched exactly and of one that is not. *)
Definition exact_tp (ground_truth : list entry) (finding : entry) : option tp_record :=
  if decide (finding ∈ ground_truth)
  then Some (mk_tp finding.1.1 finding.1.2 finding.2 finding.2 0)
  else None.

Definition exact_fp (ground_truth : list entry) (finding : entry) : option line_record :=
  if decide (finding ∈ ground_truth) then None else Some (entry_record finding).

End Match.

(** ** Python floats

    A Python [float] is an IEEE 754 binary64 number. A finite double is
    represented by its exact rational value, in lowest terms (the sign of a
    zero is not kept); every operation computes the exact rational result and
    rounds it to the nearest double, ties to even. *)

Module Float.

(** The values of a [float]. *)
Inductive float : Type :=
  | Finite (q : Q)
  | Infinite (negative : bool)
  | NaN.

(** The integer [e] with [2^e <= x < 2^(e+1)], for [x > 0]. *)
Definition floor_log2 (x : Q) : Z :=
  let e := Z.log2 (Qnum x) - Z.log2 (Zpos (Qden x)) in
  if Qle_bool (2 ^ e) x then e else e - 1.

(** The integer nearest to [x], ties to the even one. *)
Definition round_half_even (x : Q) : Z :=
  let f := Qfloor x in
  match (x - inject_Z f ?= 1 # 2)%Q with
  | Lt => f
  | Gt => f + 1
  | Eq => if Z.even f then f else f + 1
  end.

(** The exponent of the unit in the last place of the double nearest to
    [x > 0]: 53 significant bits, and no exponent below that of the subnormal
    numbers. *)
Definition ulp_exponent (x : Q) : Z := Z.max (floor_log2 x - 52) (-1074).

(** The multiple of the unit in the last place nearest to [x > 0]. *)
Definition round_positive (x : Q) : Q :=
  let s := ulp_exponent x in
  (inject_Z (round_half_even (x / 2 ^ s)) * 2 ^ s)%Q.

(** The double nearest to the rational [x]; beyond the largest finite double
    the result is an infinity. *)
Definition of_Q (x : Q) : float :=
  if Qeq_bool x 0 then Finite 0
  else
    let y := round_positive (Qabs x) in
    let negative := Qle_bool x 0 in
    if Qle_bool (2 ^ 1024) y then Infinite negative
    else Finite (Qred (if negative then - y else y)).

(** [a + b], [a * b] and [a / b] on floats, and [a / b] and [round(a, ndigits)]
    as Python defines them: a zero divisor and a result too large for a float
    raise ([None]). *)
Definition add (a b : float) : float :=
  match a, b with
  | NaN, _ | _, NaN => NaN
  | Infinite s, Infinite s' => if Bool.eqb s s' then Infinite s else NaN
  | Infinite s, Finite _ | Finite _, Infinite s => Infinite s
  | Finite x, Finite y => of_Q (x + y)
  end.

Definition mul (a b : float) : float :=
  match a, b with
  | NaN, _ | _, NaN => NaN
  | Infinite s, Infinite s' => Infinite (xorb s s')
  | Infinite s, Finite y | Finite y, Infinite s =>
      if Qeq_bool y 0 then NaN else Infinite (xorb s (Qle_bool y 0))
  | Finite x, Finite y => of_Q (x * y)
  end.

Definition div (a b : float) : option float :=
  match b with
  | NaN => Some NaN
  | Infinite _ => Some (match a with Finite _ => Finite 0 | _ => NaN end)
  | Finite y =>
      if Qeq_bool y 0 then None
      else Some (match a with
                 | Finite x => of_Q (x / y)
                 | Infinite s => Infinite (xorb s (Qle_bool y 0))
                 | NaN => NaN
                 end)
  end.

(** [a > 0]. *)
Definition gt_zero (a : float) : bool :=
  match a with
  | Finite x => negb (Qle_bool x 0)
  | Infinite negative => negb negative
  | NaN => false
  end.

Definition finite (a : float) : option float :=
  match a with Finite _ => Some a | _ => None end.

(** True division of two [int]s: the quotient correctly rounded. *)
Definition int_true_div (a b : Z) : option float :=
  if b =? 0 then None else finite (of_Q (inject_Z a / inject_Z b)).

(** [round(a, ndigits)]: the decimal with [ndigits] places nearest to the
    exact value of [a] (ties to even), converted back to a double. *)
Definition round_ndigits (a : float) (ndigits : Z) : option float :=
  match a with
  | Finite x =>
      finite (of_Q (inject_Z (round_half_even (x * 10 ^ ndigits)) / 10 ^ ndigits))
  | _ => Some a
  end.

(** The non-negative rationals [k * 2^s] with a 53-bit [k] and [s >= -1074]:
    the values of the non-negative finite doubles, were the exponent unbounded
    above. *)
Definition representable (d : Q) : Prop :=
  exists k s : Z, (d == inject_Z k * 2 ^ s)%Q /\ 0 <= k < 2 ^ 53 /\ -1074 <= s.
End Float.

Import Float.

(** ** The metrics calculator: [compute_metrics] *)

Module Metrics.
Local Open Scope Z_scope.

Record metrics : Type := mk_metrics {
  precision : float;
  recall : float;
  f1_score : float
}.

(** The three values [compute_metrics] computes before it rounds them. *)
Definition metrics_formulas (tp_count fp_count fn_count : Z) : option metrics :=
  precision ←
    (if 0 <? tp_count + fp_count
     then int_true_div tp_count (tp_count + fp_count)
     else Some (Finite 0));
  recall ←
    (if 0 <? tp_count + fn_count
     then int_true_div tp_count (tp_count + fn_count)
     else Some (Finite 0));
  f1 ←
    (if gt_zero (add precision recall)
     then div (mul (Finite 2) (mul precision recall)) (add precision recall)
     else Some (Finite 0));
  Some (mk_metrics precision recall f1).

(** The [return] statement: each value rounded to four decimals. *)
Definition round_metrics (m : metrics) : option metrics :=
  precision ← round_ndigits (precision m) 4;
  recall ← round_ndigits (recall m) 4;
  f1 ← round_ndigits (f1_score m) 4;
  Some (mk_metrics precision recall f1).

(** [compute_metrics(tp_count, fp_count, fn_count)]; [None] when an operation
    raises. *)
Definition compute_metrics (tp_count fp_count fn_count : Z) : option metrics :=
  metrics_formulas tp_count fp_count fn_count ≫= round_metrics.

(** A float lies in the interval [[0.0, 1.0]]. *)
Definition in_unit_interval (a : float) : Prop :=
  match a with Finite x => (0 <= x <= 1)%Q | _ => False end.


(** [compute_metrics] returns the three formulas' values themselves, all in
    [[0.0, 1.0]] and all [0.0] when the three counts are 0. *)
Definition returns_formulas (tp_count fp_count fn_count : Z) : Prop :=
  ∃ m, compute_metrics tp_count fp_count fn_count = Some m ∧
       metrics_formulas tp_count fp_count fn_count = Some m ∧
       in_unit_interval (precision m) ∧ in_unit_interval (recall m) ∧
       in_unit_interval (f1_score m) ∧
       (tp_count = 0 → fp_count = 0 → fn_count = 0 →
        m = mk_metrics (Finite 0) (Finite 0) (Finite 0)).

End Metrics.

(** ** The per-category breakdown: [generate_metrics_by_bug_type] *)

Module Breakdown.

Import Match.

(** The entry [{'TP': 0, 'FP': 0, 'FN': 0}] of a bug type. *)
Record counts : Type := mk_counts {
  count_TP : Z;
  count_FP : Z;
  count_FN : Z
}.

(** The default factory of the [defaultdict]. *)
Definition no_counts : counts := mk_counts 0 0 0.

(** [bug_types[k]['TP'] += 1], and the same for ['FP'] and ['FN']. *)
Definition add_TP (bug_types : gmap string counts) (k : string) : gmap string counts :=
  let c := default no_counts (bug_types !! k) in
  <[k := mk_counts (count_TP c + 1) (count_FP c) (count_FN c)]> bug_types.

Definition add_FP (bug_types : gmap string counts) (k : string) : gmap string counts :=
  let c := default no_counts (bug_types !! k) in
  <[k := mk_counts (count_TP c) (count_FP c + 1) (count_FN c)]> bug_types.

Definition add_FN (bug_types : gmap string counts) (k : string) : gmap string counts :=
  let c := default no_counts (bug_types !! k) in
  <[k := mk_counts (count_TP c) (count_FP c) (count_FN c + 1)]> bug_types.

(** The shape of the three updates: the entry of [k], created on first use,
    is replaced by [upd] of itself. *)
Definition bump (upd : counts → counts) (m : gmap string counts) (k : string)
    : gmap string counts :=
  <[k := upd (default no_counts (m !! k))]> m.

(** The three grouping loops. *)
Definition group_counts (tp_list : list tp_record) (fp_list fn_list : list line_record)
    : gmap string counts :=
  let bug_types := foldl (λ m tp, add_TP m (tp_bug_type tp)) ∅ tp_list in
  let bug_types := foldl (λ m fp, add_FP m (bug_type fp)) bug_types fp_list in
  foldl (λ m fn, add_FN m (bug_type fn)) bug_types fn_list.

(** The order of Python strings: lexicographic on code points. *)
Definition str_le (s1 s2 : string) : Prop := String.leb s1 s2 = true.

#[global] Instance str_le_dec : RelDecision str_le.
Proof. intros s1 s2. unfold str_le. apply _. Defined.

(** [sorted(bug_types.keys())]. *)
Definition sorted_keys (bug_types : gmap string counts) : list string :=
  merge_sort str_le (map_to_list bug_types).*1.

(** A line of the CSV file. *)
Record row : Type := mk_row {
  Bug_Type : string;
  row_TP : Z;
  row_FP : Z;
  row_TN : Z;
  row_FN : Z;
  Precision : float;
  Recall : float;
  F1_Score : float
}.

(** The dictionary appended to [metrics] for the counts [tp], [fp], [fn]: the
    three conditional expressions and the rounding; the function has this
    code twice, for a bug type and for the totals. *)
Definition make_row (name : string) (tp fp fn : Z) : option row :=
  precision ← (if 0 <? tp + fp then int_true_div tp (tp + fp) else Some (Finite 0));
  recall ← (if 0 <? tp + fn then int_true_div tp (tp + fn) else Some (Finite 0));
  f1 ←
    (if gt_zero (add precision recall)
     then div (mul (Finite 2) (mul precision recall)) (add precision recall)
     else Some (Finite 0));
  p ← round_ndigits precision 4;
  r ← round_ndigits recall 4;
  f ← round_ndigits f1 4;
  Some (mk_row name tp fp 0 fn p r f).

(** [sum(...)] of integers. *)
Definition sum (l : list Z) : Z := foldl Z.add 0 l.

(** [generate_metrics_by_bug_type], on the three lists of
    [comparison_data['details']]; the value is the list [metrics] it returns
    (and writes to the CSV file), [None] if an operation raises. *)
Definition generate_metrics_by_bug_type (tp_list : list tp_record)
    (fp_list fn_list : list line_record) : option (list row) :=
  let bug_types := group_counts tp_list fp_list fn_list in
  metrics ←
    mapM (λ k, let c := default no_counts (bug_types !! k) in
               make_row k (count_TP c) (count_FP c) (count_FN c))
         (sorted_keys bug_types);
  let total_tp := sum (row_TP <$> metrics) in
  let total_fp := sum (row_FP <$> metrics) in
  let total_fn := sum (row_FN <$> metrics) in
  overall ← make_row "Overall" total_tp total_fp total_fn;
  Some (metrics ++ [overall]).

(** The number of records of [l] whose bug type is [k]. *)
Definition tally {A} (key : A → string) (k : string) (l : list A) : Z :=
  Z.of_nat (length (filter (λ x, key x = k) l)).

(** The scores of a row. *)
Definition row_scores (r : row) : Metrics.metrics :=
  Metrics.mk_metrics (Precision r) (Recall r) (F1_Score r).

(** Every row of the breakdown, 'Overall' included, holds the three formulas'
    values themselves for its counts. *)
Definition rows_hold_formulas (tp_list : list tp_record)
    (fp_list fn_list : list line_record) : Prop :=
  ∃ rows, generate_metrics_by_bug_type tp_list fp_list fn_list = Some rows ∧
          ∀ r, r ∈ rows →
               Metrics.metrics_formulas (row_TP r) (row_FP r) (row_FN r)
               = Some (row_scores r).

End Breakdown.

(** ** Python strings *)

Module Text.

(** A [str] is its sequence of code points. *)
Definition str : Type := list N.

(** The [str] of a string literal of ASCII characters. *)
Definition py (s : string) : str := N_of_ascii <$> list_ascii_of_string s.

(** [len(s)]. *)
Definition len (s : str) : Z := Z.of_nat (length s).

(** [c.isspace()]. *)
Definition isspace (c : N) : bool :=
  ((9 <=? c) && (c <=? 13) || (28 <=? c) && (c <=? 32) || (c =? 133) || (c =? 160)
   || (c =? 5760) || (8192 <=? c) && (c <=? 8202) || (c =? 8232) || (c =? 8233)
   || (c =? 8239) || (c =? 8287) || (c =? 12288))%N.

(** The characters at which [splitlines] breaks a line. *)
Definition is_linebreak (c : N) : bool :=
  ((10 <=? c) && (c <=? 13) || (28 <=? c) && (c <=? 30) || (c =? 133)
   || (c =? 8232) || (c =? 8233))%N.

(** [s.lstrip()], [s.rstrip()] and [s.strip()], for the characters [p]. *)
Fixpoint lstrip_of (p : N → bool) (s : str) : str :=
  match s with
  | c :: rest => if p c then lstrip_of p rest else s
  | [] => []
  end.

Definition rstrip_of (p : N → bool) (s : str) : str :=
  reverse (lstrip_of p (reverse s)).

Definition lstrip (s : str) : str := lstrip_of isspace s.
Definition rstrip (s : str) : str := rstrip_of isspace s.
Definition strip (s : str) : str := rstrip (lstrip s).

(** [s.rstrip(chars)]. *)
Definition rstrip_chars (chars : str) (s : str) : str :=
  rstrip_of (λ c, bool_decide (c ∈ chars)) s.

(** [s.splitlines()]: [cur] is the line read so far, last character first. *)
Fixpoint splitlines_from (cur : str) (s : str) : list str :=
  match s with
  | [] => match cur with [] => [] | _ => [reverse cur] end
  | c :: rest =>
      if is_linebreak c then
        reverse cur ::
          match rest with
          | c' :: rest' =>
              if ((c =? 13) && (c' =? 10))%N then splitlines_from [] rest'
              else splitlines_from [] rest
          | [] => splitlines_from [] rest
          end
      else splitlines_from (c :: cur) rest
  end.

Definition splitlines (s : str) : list str := splitlines_from [] s.

(** [s.startswith(sub)] and [s.endswith(sub)]. *)
Fixpoint startswith (sub s : str) : bool :=
  match sub, s with
  | [], _ => true
  | _ :: _, [] => false
  | a :: sub', b :: s' => (a =? b)%N && startswith sub' s'
  end.

Definition endswith (sub s : str) : bool := startswith (reverse sub) (reverse s).

(** A slice index brought into [0 .. len(s)], as slicing and [find] do. *)
Definition clip (s : str) (i : Z) : nat :=
  Z.to_nat (Z.min (len s) (if i <? 0 then Z.max 0 (i + len s) else i)).

(** [s[a:b]], [s[a:]]. *)
Definition slice (s : str) (a b : Z) : str :=
  drop (clip s a) (take (clip s b) s).

Definition slice_from (s : str) (a : Z) : str := drop (clip s a) s.

(** The lowest index [>= i] at which [sub] occurs in [s], where [s] is the
    text from index [i] on and [room] counts the characters of [s] that an
    occurrence may use. *)
Fixpoint find_in (sub s : str) (i : Z) (room : nat) : Z :=
  if (length sub <=? room)%nat && startswith sub s then i
  else match s, room with
       | _ :: rest, S room' => find_in sub rest (i + 1) room'
       | _, _ => -1
       end.

(** [s.find(sub, start, end)] and [s.find(sub, start)], [s.find(sub)]. *)
Definition find_between (sub s : str) (start stop : Z) : Z :=
  let a := clip s start in
  let b := clip s stop in
  if (if start <? 0 then false else len s <? start) || (b <? a)%nat then -1
  else find_in sub (drop a s) (Z.of_nat a) (b - a)%nat.

Definition find_from (sub s : str) (start : Z) : Z := find_between sub s start (len s).
Definition find (sub s : str) : Z := find_from sub s 0.

(** The highest index at which [sub] occurs, by the same scan. *)
Fixpoint rfind_in (sub s : str) (i : Z) (room : nat) (last : Z) : Z :=
  let last' := if (length sub <=? room)%nat && startswith sub s then i else last in
  match s, room with
  | _ :: rest, S room' => rfind_in sub rest (i + 1) room' last'
  | _, _ => last'
  end.

(** [s.rfind(sub, start, end)] and [s.rfind(sub)]. *)
Definition rfind_between (sub s : str) (start stop : Z) : Z :=
  let a := clip s start in
  let b := clip s stop in
  if (if start <? 0 then false else len s <? start) || (b <? a)%nat then -1
  else rfind_in sub (drop a s) (Z.of_nat a) (b - a)%nat (-1).

Definition rfind (sub s : str) : Z := rfind_between sub s 0 (len s).

(** [sub in s]. *)
Definition contains (sub s : str) : bool := negb (find sub s =? -1).

(** [s.replace(old, new)] for a non-empty [old]: [skip] counts the characters
    of an occurrence of [old] still to drop. *)
Fixpoint replace_from (old new : str) (skip : nat) (s : str) : str :=
  match s with
  | [] => []
  | c :: rest =>
      match skip with
      | S skip' => replace_from old new skip' rest
      | O =>
          if startswith old s then new ++ replace_from old new (length old - 1) rest
          else c :: replace_from old new 0 rest
      end
  end.

Definition replace (old new s : str) : str := replace_from old new 0 s.

(** [''.join(parts)]. *)
Definition join (parts : list str) : str := concat parts.

End Text.

Import Text.

(** ** JSON values and [json.loads] *)

Module Json.

(** The Python values that [json.loads] builds: [None], [bool], [int],
    [float], [str], [list] and [dict] (keys in insertion order). *)
Inductive json : Type :=
  | JNull
  | JBool (b : bool)
  | JInt (n : Z)
  | JFloat (f : float)
  | JString (s : str)
  | JArray (items : list json)
  | JObject (fields : list (str * json)).

(** [d[k] = v] on a [dict]: a present key keeps its place and takes the new
    value, a new key goes last. *)
Fixpoint dict_set (k : str) (v : json) (d : list (str * json)) : list (str * json) :=
  match d with
  | [] => [(k, v)]
  | (k', v') :: d' =>
      if decide (k' = k) then (k, v) :: d' else (k', v') :: dict_set k v d'
  end.

(** [d.get(k)]. *)
Fixpoint dict_get (k : str) (d : list (str * json)) : option json :=
  match d with
  | [] => None
  | (k', v) :: d' => if decide (k' = k) then Some v else dict_get k d'
  end.

(** JSON whitespace: space, tab, line feed, carriage return. *)
Definition is_ws (c : N) : bool :=
  ((c =? 32) || (c =? 9) || (c =? 10) || (c =? 13))%N.

Definition skip_ws (s : str) : str := lstrip_of is_ws s.

(** What follows the character [c] at the head of [s], when [s] starts
    with it. *)
Definition expect (c : N) (s : str) : option str :=
  match s with
  | x :: rest => if (x =? c)%N then Some rest else None
  | [] => None
  end.

Definition is_digit (c : N) : bool := ((48 <=? c) && (c <=? 57))%N.

(** The longest prefix of decimal digits and what follows it. *)
Fixpoint take_digits (s : str) : str * str :=
  match s with
  | c :: rest =>
      if is_digit c then let '(ds, r) := take_digits rest in (c :: ds, r)
      else ([], s)
  | [] => ([], [])
  end.

(** The number that a sequence of decimal digits denotes. *)
Definition digits_value (ds : str) : Z :=
  foldl (λ acc c, 10 * acc + (Z.of_N c - 48)) 0 ds.

Definition hex_value (c : N) : option N :=
  (if (48 <=? c) && (c <=? 57) then Some (c - 48)
   else if (97 <=? c) && (c <=? 102) then Some (c - 87)
   else if (65 <=? c) && (c <=? 70) then Some (c - 55)
   else None)%N.

(** The four hexadecimal digits of a [\uXXXX] escape. *)
Definition hex4 (s : str) : option (N * str) :=
  match s with
  | a :: b :: c :: d :: rest =>
      a ← hex_value a; b ← hex_value b; c ← hex_value c; d ← hex_value d;
      Some (((a * 16 + b) * 16 + c) * 16 + d, rest)%N
  | _ => None
  end.

(** The character of a one-letter escape. *)
Definition simple_escape (c : N) : option N :=
  (if c =? 34 then Some 34 else if c =? 92 then Some 92 else if c =? 47 then Some 47
   else if c =? 98 then Some 8 else if c =? 102 then Some 12
   else if c =? 110 then Some 10 else if c =? 114 then Some 13
   else if c =? 116 then Some 9 else None)%N.

(** The scanner of string literals (strict mode), from the character after
    the opening quote: the decoded string and the text after the closing
    quote. [acc] holds the decoded characters, last first; [fuel] bounds the
    number of characters and escapes still to read. *)
Fixpoint scanstring (fuel : nat) (acc : str) (s : str) : option (str * str) :=
  match fuel with
  | O => None
  | S fuel =>
      match s with
      | [] => None
      | c :: rest =>
          if (c =? 34)%N then Some (reverse acc, rest)
          else if (c <=? 31)%N then None
          else if (c =? 92)%N then
            match rest with
            | [] => None
            | e :: rest' =>
                if (e =? 117)%N then
                  '(u, r) ← hex4 rest';
                  if ((55296 <=? u) && (u <=? 56319))%N then
                    match expect 92 r ≫= expect 117 with
                    | Some r' =>
                        '(u2, r2) ← hex4 r';
                        if ((56320 <=? u2) && (u2 <=? 57343))%N
                        then scanstring fuel
                               (65536 + ((u - 55296) * 1024 + (u2 - 56320)) :: acc)%N r2
                        else scanstring fuel (u :: acc) r
                    | None => scanstring fuel (u :: acc) r
                    end
                  else scanstring fuel (u :: acc) r
                else
                  x ← simple_escape e; scanstring fuel (x :: acc) rest'
            end
          else scanstring fuel (c :: acc) rest
      end
  end.

(** An optional fraction [.digits]. *)
Definition match_frac (s : str) : option (str * str) :=
  rest ← expect 46 s;
  match take_digits rest with
  | ([], _) => None
  | (ds, r) => Some (ds, r)
  end.

(** An optional exponent [e], [e+] or [e-] followed by digits. *)
Definition match_exp (s : str) : option (Z * str) :=
  rest ← (match expect 101 s with Some r => Some r | None => expect 69 s end);
  let '(negative, rest') :=
    match expect 45 rest, expect 43 rest with
    | Some r, _ => (true, r)
    | None, Some r => (false, r)
    | None, None => (false, rest)
    end in
  match take_digits rest' with
  | ([], _) => None
  | (ds, r) => Some (if negative then - digits_value ds else digits_value ds, r)
  end.

(** The value of the decimal numeral with integer digits [ds], fraction
    digits [fs] and exponent [e]. *)
Definition decimal_value (negative : bool) (ds fs : str) (e : Z) : Q :=
  let m := inject_Z (digits_value (ds ++ fs)) in
  let q := (m * 10 ^ (e - Z.of_nat (length fs)))%Q in
  if negative then (- q)%Q else q.

(** A JSON number: an [int], or a [float] when it has a fraction or an
    exponent. *)
Definition match_number (s : str) : option (json * str) :=
  let '(negative, s1) :=
    match expect 45 s with Some r => (true, r) | None => (false, s) end in
  match take_digits s1 with
  | ([], _) => None
  | (d :: ds, r) =>
      (* a leading zero stands alone *)
      let '(ds, r) := if (d =? 48)%N then ([], drop 1 s1) else (ds, r) in
      let int_digits := d :: ds in
      let '(fs, r1) := match match_frac r with Some x => x | None => ([], r) end in
      let '(e, r2, has_exp) :=
        match match_exp r1 with Some (e, r2) => (e, r2, true) | None => (0, r1, false) end in
      match fs, has_exp with
      | [], false =>
          Some (JInt (if negative then - digits_value int_digits
                      else digits_value int_digits), r2)
      | _, _ => Some (JFloat (of_Q (decimal_value negative int_digits fs e)), r2)
      end
  end.

(** [s] minus the prefix [lit], when it starts with it. *)
Definition after (lit : string) (s : str) : option str :=
  if startswith (py lit) s then Some (drop (length (py lit)) s) else None.

(** The results of the recursive scanner. *)
Inductive scan (A : Type) : Type :=
  | Scanned (a : A) (rest : str)
  | Malformed
  | Exhausted.
Arguments Scanned {A} a rest.
Arguments Malformed {A}.
Arguments Exhausted {A}.

Definition of_option {A} (o : option (A * str)) : scan A :=
  match o with Some (a, r) => Scanned a r | None => Malformed end.

(** [scan_once]: the JSON value at the head of [s]; [scan_members]: the
    members of an object, from the quote that opens a key, added to the
    dictionary [d]; [scan_items]: the items of an array, from the first
    character of an item, added to [acc] (last first). *)
Fixpoint scan_once (fuel : nat) (s : str) : scan json :=
  match fuel with
  | O => Exhausted
  | S fuel =>
      match s with
      | [] => Malformed
      | c :: rest =>
          if (c =? 34)%N then
            of_option ('(v, r) ← scanstring (length rest) [] rest; Some (JString v, r))
          else if (c =? 123)%N then
            match expect 125 (skip_ws rest) with
            | Some r => Scanned (JObject []) r
            | None => scan_members fuel [] (skip_ws rest)
            end
          else if (c =? 91)%N then
            match expect 93 (skip_ws rest) with
            | Some r => Scanned (JArray []) r
            | None => scan_items fuel [] (skip_ws rest)
            end
          else
            match after "null" s, after "true" s, after "false" s,
                  after "NaN" s, after "Infinity" s, after "-Infinity" s with
            | Some r, _, _, _, _, _ => Scanned JNull r
            | _, Some r, _, _, _, _ => Scanned (JBool true) r
            | _, _, Some r, _, _, _ => Scanned (JBool false) r
            | _, _, _, Some r, _, _ => Scanned (JFloat NaN) r
            | _, _, _, _, Some r, _ => Scanned (JFloat (Infinite false)) r
            | _, _, _, _, _, Some r => Scanned (JFloat (Infinite true)) r
            | _, _, _, _, _, _ => of_option (match_number s)
            end
      end
  end
with scan_members (fuel : nat) (d : list (str * json)) (s : str) : scan json :=
  match fuel with
  | O => Exhausted
  | S fuel =>
      match expect 34 s with
      | None => Malformed
      | Some rest =>
          match scanstring (length rest) [] rest with
          | None => Malformed
          | Some (key, r) =>
              match expect 58 (skip_ws r) with
              | None => Malformed
              | Some r1 =>
                  match scan_once fuel (skip_ws r1) with
                  | Scanned v r2 =>
                      let d' := dict_set key v d in
                      match expect 125 (skip_ws r2), expect 44 (skip_ws r2) with
                      | Some r3, _ => Scanned (JObject d') r3
                      | None, Some r3 => scan_members fuel d' (skip_ws r3)
                      | None, None => Malformed
                      end
                  | Malformed => Malformed
                  | Exhausted => Exhausted
                  end
              end
          end
      end
  end
with scan_items (fuel : nat) (acc : list json) (s : str) : scan json :=
  match fuel with
  | O => Exhausted
  | S fuel =>
      match scan_once fuel s with
      | Scanned v r =>
          match expect 93 (skip_ws r), expect 44 (skip_ws r) with
          | Some r1, _ => Scanned (JArray (reverse (v :: acc))) r1
          | None, Some r1 => scan_items fuel (v :: acc) (skip_ws r1)
          | None, None => Malformed
          end
      | Malformed => Malformed
      | Exhausted => Exhausted
      end
  end.

(** [json.loads(s)] for a [str]: the value of the document, [None] when the
    decoder raises on the text itself. The two limits of the interpreter are
    outside this model: a text nested deeper than the recursion limit and an
    integer literal longer than the digit limit of [int] (4300 digits by
    default) make [json.loads] raise, where [loads] returns the value. *)
Definition loads (s : str) : option json :=
  if startswith [65279%N] s then None
  else
    match scan_once (2 * length s + 2) (skip_ws s) with
    | Scanned v r => match skip_ws r with [] => Some v | _ => None end
    | _ => None
    end.

(** What the scanner returns with enough fuel: not [Exhausted], and a rest
    shorter than the text. *)
Definition progresses (s : str) (res : scan json) : Prop :=
  res ≠ Exhausted ∧ ∀ v r, res = Scanned v r → (length r < length s)%nat.

End Json.

Import Json.

(** ** [evaluation_helpers.py] *)

Module Helpers.

Section Coercion.

(** The decimal digit value of a code point from 127 on
    ([unicodedata.decimal]), if it has one. *)
Variable todecimal : N → option N.

(** The text that [float] parses: code points from 127 on are replaced, a
    space by [' '], a decimal digit by its ASCII digit, and the first other
    one ends the text with ['?']. *)
Fixpoint to_ascii (s : str) : str :=
  match s with
  | [] => []
  | c :: rest =>
      if (c <? 127)%N then c :: to_ascii rest
      else if isspace c then 32%N :: to_ascii rest
      else match todecimal c with
           | Some d => (48 + d)%N :: to_ascii rest
           | None => [63%N]
           end
  end.

(** ASCII white space. *)
Definition is_ascii_space (c : N) : bool := ((9 <=? c) && (c <=? 13) || (c =? 32))%N.

(** Underscores are allowed between two digits only; they are dropped.
    [prev] is the character before [s]. *)
Fixpoint drop_underscores (prev : N) (s : str) : option str :=
  match s with
  | [] => if (prev =? 95)%N then None else Some []
  | c :: rest =>
      if (c =? 95)%N then
        if is_digit prev then drop_underscores c rest else None
      else if (prev =? 95)%N && negb (is_digit c) then None
      else r ← drop_underscores c rest; Some (c :: r)
  end.

(** [s.lower()] on ASCII letters. *)
Definition lower (s : str) : str :=
  (λ c, if (65 <=? c) && (c <=? 90) then c + 32 else c)%N <$> s.

(** The exponent of a decimal numeral: what is left must be [e] or [E], an
    optional sign and digits, or nothing. *)
Definition float_exponent (s : str) : option Z :=
  match s with
  | [] => Some 0
  | _ => match match_exp s with Some (e, []) => Some e | _ => None end
  end.

(** A decimal numeral without sign: digits, an optional point, digits and an
    optional exponent, with a digit before or after the point. *)
Definition unsigned_decimal (negative : bool) (s : str) : option float :=
  let '(ds, r) := take_digits s in
  let '(fs, r1) :=
    match expect 46 r with
    | Some r' => take_digits r'
    | None => ([], r)
    end in
  match ds ++ fs with
  | [] => None
  | _ => e ← float_exponent r1; Some (of_Q (decimal_value negative ds fs e))
  end.

(** [float(s)] for a [str]; [None] when it raises [ValueError]. *)
Definition float_of_str (s : str) : option float :=
  let s := to_ascii s in
  let s := rstrip_of is_ascii_space (lstrip_of is_ascii_space s) in
  if bool_decide (0%N ∈ s) then None
  else
    s ← (if bool_decide (95%N ∈ s) then drop_underscores 0 s else Some s);
    let '(negative, body) :=
      match expect 45 s, expect 43 s with
      | Some r, _ => (true, r)
      | None, Some r => (false, r)
      | None, None => (false, s)
      end in
    let word := lower body in
    if bool_decide (word = py "inf") || bool_decide (word = py "infinity")
    then Some (Infinite negative)
    else if bool_decide (word = py "nan") then Some NaN
    else unsigned_decimal negative body.

(** [int(f)] for a [float]: truncation toward zero; [None] when it raises
    (an infinity or a NaN). *)
Definition int_of_float (f : float) : option Z :=
  match f with
  | Finite q => Some (Z.quot (Qnum q) (Z.pos (Qden q)))
  | _ => None
  end.

(** [int(value)] for a value that is not a [str]; [None] when it raises. *)
Definition int_of_value (value : json) : option Z :=
  match value with
  | JBool b => Some (if b then 1 else 0)
  | JInt n => Some n
  | JFloat f => int_of_float f
  | _ => None
  end.

(** [coerce_line_number(value)]; the result [None] is Python's [None]. *)
Definition coerce_line_number (value : json) : option Z :=
  match value with
  | JNull => None
  | _ =>
      let converted :=
        match value with
        | JString s =>
            let v := strip s in
            match v with
            | [] => None
            | _ => float_of_str v ≫= int_of_float
            end
        | _ => int_of_value value
        end in
      match converted with
      | Some v => if v <=? 0 then None else Some v
      | None => None
      end
  end.

End Coercion.

Section Recovery.

(** [_demjson.decode], when [demjson3] could be imported; it gives [None]
    when it raises. *)
Variable demjson_decode : option (str → option json).

(** [text.encode('utf-8').decode('unicode_escape')]; [None] when it raises. *)
Variable unicode_escape : str → option str.

(** The quotation mark. *)
Definition quote : N := 34%N.

(** The text [s] between quotation marks. *)
Definition quoted (s : string) : str := quote :: py s ++ [quote].

(** The [try: return _demjson.decode(candidate)] of the fallbacks, run when
    [_demjson] is set. *)
Definition tolerant (candidate : str) : option json :=
  decode ← demjson_decode; decode candidate.

(** [json.loads(candidate)] and, when it raises, the tolerant parser. *)
Definition strict_then_tolerant (candidate : str) : option json :=
  match loads candidate with
  | Some v => Some v
  | None => tolerant candidate
  end.

(** The first [try] of the loop over the lines: the ['response'] string of a
    line that is a JSON object. *)
Definition response_field (line : str) : option str :=
  if startswith (py "{") line then
    match loads line with
    | Some (JObject d) =>
        match dict_get (py "response") d with
        | Some (JString r) => Some r
        | _ => None
        end
    | _ => None
    end
  else None.

(** The second [try]: the text after the colon that follows ["response"],
    without surrounding commas and quotes. *)
Definition response_guess (line : str) : option str :=
  if contains (quoted "response") line then
    let idx := find (quoted "response") line in
    let colon := find_from (py ":") line idx in
    if colon =? -1 then None
    else
      let frag := lstrip (strip (slice_from line (colon + 1))) in
      let frag := rstrip_chars (py ",") frag in
      let frag :=
        if startswith [quote] frag && endswith [quote] frag && (2 <=? len frag)
        then slice frag 1 (-1) else frag in
      Some frag
  else None.

(** What one iteration of the loop appends to [assembled]. *)
Definition response_fragment (line : str) : option str :=
  let line := strip line in
  match line with
  | [] => None
  | _ =>
      match response_field line with
      | Some r => Some r
      | None => response_guess line
      end
  end.

(** The text after the reassembly of the streamed fragments. *)
Definition reassemble (text : str) : str :=
  match omap response_fragment (splitlines text) with
  | [] => text
  | assembled => join assembled
  end.

(** The normalisation of escaped angle brackets. *)
Definition unescape_markers (text : str) : str :=
  if contains (py "\u003c") text || contains (py "\u003e") text then
    match unicode_escape text with
    | Some t => t
    | None => replace (py "\u003e") (py ">") (replace (py "\u003c") (py "<") text)
    end
  else text.

(** [re.search(r'<<JSON_START>>(.*?)<<JSON_END>>', text, re.S)]: group 1 of
    the leftmost match, the text between the first start marker and the first
    end marker after it. *)
Definition marker_group (text : str) : option str :=
  let p := find (py "<<JSON_START>>") text in
  if p =? -1 then None
  else
    let from := p + len (py "<<JSON_START>>") in
    let q := find_from (py "<<JSON_END>>") text from in
    if q =? -1 then None else Some (slice text from q).

(** Strategy 2: the candidate between the markers. *)
Definition from_markers (text : str) : option json :=
  group ← marker_group text; strict_then_tolerant (strip group).

(** The fallback on the words [JSON_START] and [JSON_END]. *)
Definition from_keywords (text : str) : option json :=
  if contains (py "JSON_START") text && contains (py "JSON_END") text then
    let idx := find (py "JSON_START") text in
    let brace_idx := find_from (py "{") text idx in
    let end_brace_idx := rfind (py "JSON_END") text in
    if negb (brace_idx =? -1) && negb (end_brace_idx =? -1) && (brace_idx <? end_brace_idx)
    then
      let candidate :=
        slice text brace_idx (rfind_between (py "}") text idx end_brace_idx + 1) in
      strict_then_tolerant candidate
    else None
  else None.

(** The index of the brace that closes the one at the head of the scan:
    [i] is the index of the head of [s], [depth] the depth before it. *)
Fixpoint closing_brace (depth : Z) (i : Z) (s : str) : option Z :=
  match s with
  | [] => None
  | c :: rest =>
      if (c =? 123)%N then closing_brace (depth + 1) (i + 1) rest
      else if (c =? 125)%N then
        if depth - 1 =? 0 then Some i else closing_brace (depth - 1) (i + 1) rest
      else closing_brace depth (i + 1) rest
  end.

(** Strategy 3: the first balanced [{ ... }]. *)
Definition from_braces (text : str) : option json :=
  let start := find (py "{") text in
  if start =? -1 then None
  else
    i ← closing_brace 0 start (slice_from text start);
    strict_then_tolerant (slice text start (i + 1)).

(** The strategies after the reassembly, on the text [text]: the first one
    that returns gives the result. *)
Definition recover_from (text : str) : json :=
  match loads text with
  | Some v => v
  | None =>
      match from_markers text with
      | Some v => v
      | None =>
          match from_keywords text with
          | Some v => v
          | None =>
              match from_braces text with
              | Some v => v
              | None =>
                  match tolerant text with
                  | Some v => v
                  | None => JObject []
                  end
              end
          end
      end
  end.

(** [extract_json_from_text(text)], for any argument. *)
Definition extract_json_from_text (text : json) : json :=
  match text with
  | JString [] => JObject []
  | JString s => recover_from (unescape_markers (reassemble s))
  | _ => JObject []
  end.

End Recovery.

(** A mapping. *)
Definition is_mapping (v : json) : Prop :=
  match v with JObject _ => True | _ => False end.


End Helpers.

(** ** The context of a line: [extract_context_from_code] *)

Module Context.

(** [len(l)] of a [list], and a slice index brought into [0 .. len(l)]. *)
Definition list_len {A} (l : list A) : Z := Z.of_nat (length l).

Definition list_clip {A} (l : list A) (i : Z) : nat :=
  Z.to_nat (Z.min (list_len l) (if i <? 0 then Z.max 0 (i + list_len l) else i)).

(** [l[a:b]] on a [list]. *)
Definition list_slice {A} (l : list A) (a b : Z) : list A :=
  drop (list_clip l a) (take (list_clip l b) l).

(** [extract_context_from_code(code, line_number, before, after)]: the pair
    [(ctx_before, ctx_after)]. *)
Definition extract_context_from_code (code : str) (line_number before after : Z)
    : list str * list str :=
  let lines := splitlines code in
  let idx := Z.max 0 (line_number - 1) in
  let start := Z.max 0 (idx - before) in
  let end_ := Z.min (list_len lines) (idx + after + 1) in
  let ctx_before := rstrip <$> list_slice lines start idx in
  let ctx_after := rstrip <$> list_slice lines (idx + 1) end_ in
  (ctx_before, ctx_after).

End Context.

(** ** The tables of bug types: [map_llm_to_subtypes], [map_llm_to_severity] *)

Module Mapping.

(** [d.get(k, default)] on a [dict] whose keys are [str]. *)
Fixpoint get (d : list (str * str)) (k : str) (default : str) : str :=
  match d with
  | [] => default
  | (k', v) :: d' => if decide (k' = k) then v else get d' k default
  end.

(** [map_llm_to_subtypes(llm_bug_type)]. *)
Definition map_llm_to_subtypes (llm_bug_type : str) : str :=
  let mapping :=
    [ (py "Re-entrancy", py "DAO");
      (py "Timestamp-Dependency", py "Timestamp-Dependency");
      (py "Unchecked-Send", py "Unchecked-Send");
      (py "Unhandled-Exceptions", py "Unhandled-Exceptions");
      (py "TOD", py "TOD");
      (py "Overflow-Underflow", py "Overflow-Underflow");
      (py "tx.origin", py "tx.origin") ] in
  get mapping llm_bug_type llm_bug_type.

(** [map_llm_to_severity(llm_bug_type)]. *)
Definition map_llm_to_severity (llm_bug_type : str) : str :=
  let severity_map :=
    [ (py "Re-entrancy", py "Violation");
      (py "Unchecked-Send", py "Violation");
      (py "Unhandled-Exceptions", py "Warning");
      (py "Timestamp-Dependency", py "Warning");
      (py "TOD", py "Warning");
      (py "Overflow-Underflow", py "Warning");
      (py "tx.origin", py "Warning") ] in
  get severity_map llm_bug_type (py "Warning").

End Mapping.

(** ** The deduplication of findings in [multi_pass_analysis]
    ([llm_evaluator_llama3.py]) *)

Module Dedup.

Import Helpers.

Section Dedup.

(** The parameter of [coerce_line_number]. *)
Variable todecimal : N → option N.

(** [finding.get(key)] and [finding.get(key, default)] on the fields of a
    [dict]. *)
Definition get (fields : list (str * json)) (key : str) : json :=
  default JNull (dict_get key fields).

Definition get_default (fields : list (str * json)) (key : str) (d : json) : json :=
  default d (dict_get key fields).

(** [conf_order.get(conf, 0)] for [conf_order = {'high': 3, 'medium': 2,
    'low': 1}]; a [list] or a [dict] cannot be hashed, and the lookup raises
    ([None]). *)
Definition conf_order (conf : json) : option Z :=
  match conf with
  | JString s =>
      Some (if decide (s = py "high") then 3
            else if decide (s = py "medium") then 2
            else if decide (s = py "low") then 1
            else 0)
  | JArray _ | JObject _ => None
  | _ => Some 0
  end.

(** [line_num in deduplicated] and [deduplicated[line_num]]: the dictionary
    is the list of its items in insertion order. *)
Fixpoint lookup_line (deduplicated : list (Z * list (str * json))) (line_num : Z)
    : option (list (str * json)) :=
  match deduplicated with
  | [] => None
  | (k, v) :: rest => if decide (k = line_num) then Some v else lookup_line rest line_num
  end.

(** [deduplicated[line_num] = finding] for a key that is present: the item
    keeps its place. *)
Fixpoint replace_line (deduplicated : list (Z * list (str * json))) (line_num : Z)
    (finding : list (str * json)) : list (Z * list (str * json)) :=
  match deduplicated with
  | [] => []
  | (k, v) :: rest =>
      if decide (k = line_num) then (k, finding) :: rest
      else (k, v) :: replace_line rest line_num finding
  end.

(** One iteration of [for finding in all_findings]; [None] when it raises. *)
Definition dedup_step (deduplicated : list (Z * list (str * json))) (finding : json)
    : option (list (Z * list (str * json))) :=
  match finding with
  | JObject fields =>
      match coerce_line_number todecimal (get fields (py "line_number")) with
      | None => Some deduplicated
      | Some line_num =>
          if line_num <=? 0 then Some deduplicated
          else
            match lookup_line deduplicated line_num with
            | Some existing =>
                let existing_conf :=
                  get_default existing (py "confidence") (JString (py "low")) in
                let new_conf :=
                  get_default fields (py "confidence") (JString (py "low")) in
                new_rank ← conf_order new_conf;
                existing_rank ← conf_order existing_conf;
                Some (if existing_rank <? new_rank
                      then replace_line deduplicated line_num fields
                      else deduplicated)
            | None => Some (deduplicated ++ [(line_num, fields)])
            end
      end
  | _ => Some deduplicated
  end.

(** The loop, from the dictionary [deduplicated]. *)
Fixpoint dedup_loop (deduplicated : list (Z * list (str * json)))
    (all_findings : list json) : option (list (Z * list (str * json))) :=
  match all_findings with
  | [] => Some deduplicated
  | finding :: rest =>
      deduplicated ← dedup_step deduplicated finding; dedup_loop deduplicated rest
  end.

(** The end of [multi_pass_analysis]: [final_findings] for the findings
    [all_findings] gathered by the passes. *)
Definition deduplicate (all_findings : list json) : option (list json) :=
  match dedup_loop [] all_findings with
  | Some deduplicated => Some ((λ item, JObject item.2) <$> deduplicated)
  | None => None
  end.

(** *** Views used to state the properties *)

(** The line number under which the loop files a finding, if any. *)
Definition line_of (finding : json) : option Z :=
  match finding with
  | JObject fields => coerce_line_number todecimal (get fields (py "line_number"))
  | _ => None
  end.

(** The rank of the confidence of a finding. *)
Definition rank_of (finding : json) : option Z :=
  match finding with
  | JObject fields =>
      conf_order (get_default fields (py "confidence") (JString (py "low")))
  | _ => None
  end.

(** Both ranks are defined and that of [g] is below (at most) that of [f]. *)
Definition ranked_below (g f : json) : Prop :=
  ∃ rg rf, rank_of g = Some rg ∧ rank_of f = Some rf ∧ rg < rf.

Definition ranked_at_most (g f : json) : Prop :=
  ∃ rg rf, rank_of g = Some rg ∧ rank_of f = Some rf ∧ rg ≤ rf.

(** The distinct elements of [l], each at its first place. *)
Definition first_occurrences (l : list Z) : list Z :=
  reverse (remove_dups (reverse l)).

(** [f] is the best finding of line [n] among [seen]: it is filed under [n],
    every finding of that line before it ranks below it and every one after
    it ranks at most as high. *)
Definition best_of (seen : list json) (n : Z) (f : json) : Prop :=
  ∃ l1 l2, seen = l1 ++ f :: l2 ∧ line_of f = Some n ∧
    (∀ g, g ∈ l1 → line_of g = Some n → ranked_below g f) ∧
    (∀ g, g ∈ l2 → line_of g = Some n → ranked_at_most g f).

End Dedup.

End Dedup.

(** ** Views of the text used to state the properties of the recovery *)

Module Braces.

(** The number of opening braces of [s] minus the number of its closing
    braces: the [depth] of [extract_json_from_text] after the text [s]. *)
Definition balance (s : str) : Z :=
  foldr (λ c depth, (if (c =? 123)%N then 1 else if (c =? 125)%N then -1 else 0) + depth)
        0 s.

End Braces.

(** ** Loading the ground truth: [load_ground_truth] *)

Module Loader.

Section Loader.

(** [int(s)] for a [str]; [None] when it raises [ValueError]. *)
Variable int_of_str : str → option Z.

(** A row of [csv.DictReader]: the cell of each column of the header, [None]
    for a column that the line does not reach. *)
Definition csv_row : Type := gmap str (option str).

(** [row.get(key, default)]. *)
Definition row_get (row : csv_row) (key : string) (default : str) : option str :=
  match row !! py key with
  | Some cell => cell
  | None => Some default
  end.

(** A ground-truth entry with the names as [str]. *)
Definition gt_entry : Type := str * str * Z.

(** The body of the loop over the rows: the tuple appended to [gt], if any;
    the outer [None] is the [AttributeError] of [None.strip()]. *)
Definition load_row (row : csv_row) : option (option gt_entry) :=
  contract ← row_get row "contract" [];
  let contract := strip contract in
  let line :=
    match row_get row "line" (py "0") with
    | Some cell => default 0 (int_of_str cell)
    | None => 0
    end in
  bug_type ← row_get row "bug_type" [];
  let bug_type := strip bug_type in
  Some (if bool_decide (contract ≠ []) && bool_decide (bug_type ≠ []) && (0 <? line)
        then Some (contract, bug_type, line) else None).

(** [load_ground_truth], on the rows that the reader yields: the set
    returned, [None] when a row raises. *)
Definition load_ground_truth (rows : list csv_row) : option (gset gt_entry) :=
  gt ← mapM load_row rows;
  Some (list_to_set (omap id gt)).

End Loader.

End Loader.

(** ** The findings written for a contract: the loop of [evaluate_contracts]
    ([llm_evaluator_llama3.py]) *)

Module Enrich.

Import Helpers.

Section Enrich.

(** The parameter of [coerce_line_number]. *)
Variable todecimal : N → option N.

(** The dictionary appended to [enriched_findings]. *)
Record enriched_finding : Type := mk_enriched {
  f_bug_type : str;
  f_sub_type : str;
  f_severity : str;
  f_line_number : Z;
  f_code_snippet : str;
  f_confidence : json;
  f_context_before : list str;
  f_context_after : list str
}.

(** One iteration of [for finding in findings]: the dictionary appended, if
    any; the outer [None] is the [AttributeError] of [strip] on a code
    snippet that is no [str], which ends the work on the contract. *)
Definition enrich_finding (code bug_type : str) (finding : json)
    : option (option enriched_finding) :=
  match finding with
  | JObject fields =>
      match coerce_line_number todecimal (Dedup.get fields (py "line_number")) with
      | None => Some None
      | Some line_num =>
          if line_num <=? 0 then Some None
          else
            match Dedup.get_default fields (py "code_snippet") (JString []) with
            | JString snippet =>
                let code_snippet := strip snippet in
                let confidence :=
                  Dedup.get_default fields (py "confidence") (JString (py "low")) in
                let sub_type := Mapping.map_llm_to_subtypes bug_type in
                let severity := Mapping.map_llm_to_severity bug_type in
                let ctx := Context.extract_context_from_code code line_num 2 2 in
                Some (Some (mk_enriched bug_type sub_type severity line_num code_snippet
                              confidence ctx.1 ctx.2))
            | _ => None
            end
      end
  | _ => Some None
  end.

(** The loop: [enriched_findings], [None] when an iteration raises. *)
Definition enrich (code bug_type : str) (findings : list json)
    : option (list enriched_finding) :=
  items ← mapM (enrich_finding code bug_type) findings;
  Some (omap id items).

(** [multi_pass_analysis] from the findings gathered, followed by the loop. *)
Definition deduplicate_and_enrich (code bug_type : str) (all_findings : list json)
    : option (list enriched_finding) :=
  Dedup.deduplicate todecimal all_findings ≫= enrich code bug_type.

End Enrich.

End Enrich.

(** ** Merging the bug logs: [merge_bug_logs] *)

Module Merge.

Section Merge.

(** [int(s)] for a [str]; [None] when it raises [ValueError]. *)
Variable int_of_str : str → option Z.

(** The dictionary appended to [all_entries]. *)
Record bug_entry : Type := mk_entry {
  e_bug_id : Z;
  e_contract : str;
  e_line : Z;
  e_bug_type : str;
  e_approach : str
}.

Definition bug_types : list str :=
  [ py "Re-entrancy"; py "Timestamp-Dependency"; py "Unchecked-Send";
    py "Unhandled-Exceptions"; py "TOD"; py "Overflow-Underflow"; py "tx.origin" ].

(** The variables that the loops update: [all_entries] and [bug_id]. *)
Definition merge_state : Type := list bug_entry * Z.

(** The name of the contract of a log file, from the base name of the file. *)
Definition contract_name_of (basename : str) : str :=
  let contract_num := replace (py ".csv") [] (replace (py "BugLog_") [] basename) in
  py "buggy_" ++ contract_num ++ py ".sol".

(** One iteration of [for row in reader]; [None] when [strip] is called on a
    missing cell and raises. *)
Definition merge_row (bug_type contract_name : str) (st : merge_state)
    (row : Loader.csv_row) : option merge_state :=
  bug_type_from_csv ← Loader.row_get row "bug type" [];
  let bug_type_from_csv := strip bug_type_from_csv in
  let bug_type_clean := replace (py "+AC0-") (py "-") bug_type_from_csv in
  let bug_type_clean :=
    if decide (bug_type_clean ≠ bug_type) then bug_type else bug_type_clean in
  line_num ← Loader.row_get row "loc" [];
  let line_num := strip line_num in
  approach ← Loader.row_get row "approach" (py "code snippet injection");
  let approach := strip approach in
  Some (match line_num with
        | [] => st
        | _ =>
            match int_of_str line_num with
            | Some n =>
                (st.1 ++ [mk_entry st.2 contract_name n bug_type_clean approach], st.2 + 1)
            | None => st
            end
        end).

(** The loop over the rows of a file, inside the [try]: an exception ends
    it, and what was appended stays. *)
Fixpoint merge_rows (bug_type contract_name : str) (st : merge_state)
    (rows : list Loader.csv_row) : merge_state :=
  match rows with
  | [] => st
  | row :: rest =>
      match merge_row bug_type contract_name st row with
      | Some st' => merge_rows bug_type contract_name st' rest
      | None => st
      end
  end.

(** A log file: its base name and the rows that the reader yields, [None]
    when the file cannot be read. *)
Definition log_file : Type := str * option (list Loader.csv_row).

(** One iteration of [for csv_file in sorted(csv_files)]. *)
Definition merge_file (bug_type : str) (st : merge_state) (file : log_file) : merge_state :=
  match file.2 with
  | Some rows => merge_rows bug_type (contract_name_of file.1) st rows
  | None => st
  end.

(** [merge_bug_logs]: the entries written to the merged file. [dirs] gives
    the log files of the directory of a bug type in sorted order, [None] when
    there is no such directory. *)
Definition merge_bug_logs (dirs : str → option (list log_file)) : list bug_entry :=
  (foldl (λ st bug_type,
            match dirs bug_type with
            | Some csv_files => foldl (merge_file bug_type) st csv_files
            | None => st
            end)
         ([], 1) bug_types).1.

(** The numbering of the entries: [bug_id] is the next number, and the
    entries are numbered from 1 in the order of the list. *)
Definition numbered (st : merge_state) : Prop :=
  st.2 = Z.of_nat (length st.1) + 1 ∧
  ∀ (i : nat) e, st.1 !! i = Some e → e_bug_id e = Z.of_nat i + 1.

End Merge.

End Merge.

(** ** The deduplication of findings in [multi_pass_analysis]
    ([llm_evaluator_deepseek.py]) *)

Module DeepSeek.

(** The keys of the dictionary [unique_findings]: the values of
    ['line_number'] that are true and can be hashed, up to the equality of
    Python. Numbers are equal by value, whatever their type ([True], [1] and
    [1.0] are one key); [NaN], which [json] decodes to one shared object, is
    found again by identity. *)
Inductive key : Type :=
  | KStr (s : str)
  | KNum (q : Q)
  | KInf (negative : bool)
  | KNaN.

#[global] Instance Q_eq_dec : EqDecision Q.
Proof. solve_decision. Defined.

#[global] Instance key_eq_dec : EqDecision key.
Proof. solve_decision. Defined.

(** The test [if line and line not in unique_findings], as far as the value
    [line] goes: [Some None] when [line] is false, [Some (Some k)] when it is
    true and is the key [k], [None] when it is true and cannot be hashed (a
    non-empty [list] or [dict]), which raises. *)
Definition key_of (line : json) : option (option key) :=
  match line with
  | JNull => Some None
  | JBool b => Some (if b then Some (KNum (Qred 1)) else None)
  | JInt n => Some (if n =? 0 then None else Some (KNum (Qred (inject_Z n))))
  | JFloat (Finite q) => Some (if Qeq_bool q 0 then None else Some (KNum (Qred q)))
  | JFloat (Infinite negative) => Some (Some (KInf negative))
  | JFloat NaN => Some (Some KNaN)
  | JString s => Some (match s with [] => None | _ => Some (KStr s) end)
  | JArray items => match items with [] => Some None | _ => None end
  | JObject fields => match fields with [] => Some None | _ => None end
  end.

(** One iteration of [for finding in all_findings]; [None] when it raises:
    a finding that is no dictionary has no [get]. *)
Definition unique_step (unique_findings : list (key * list (str * json)))
    (finding : json) : option (list (key * list (str * json))) :=
  match finding with
  | JObject fields =>
      line ← key_of (Dedup.get fields (py "line_number"));
      Some (match line with
            | Some k =>
                if decide (k ∈ unique_findings.*1) then unique_findings
                else unique_findings ++ [(k, fields)]
            | None => unique_findings
            end)
  | _ => None
  end.

Fixpoint unique_loop (unique_findings : list (key * list (str * json)))
    (all_findings : list json) : option (list (key * list (str * json))) :=
  match all_findings with
  | [] => Some unique_findings
  | finding :: rest =>
      unique_findings ← unique_step unique_findings finding;
      unique_loop unique_findings rest
  end.

(** The end of [multi_pass_analysis]: the list returned for the findings
    [all_findings] gathered by the passes. *)
Definition deduplicate (all_findings : list json) : option (list json) :=
  match unique_loop [] all_findings with
  | Some unique_findings => Some ((λ item, JObject item.2) <$> unique_findings)
  | None => None
  end.

(** *** Views used to state the properties *)

(** The key under which the loop files a finding, if any. *)
Definition filed_under (finding : json) : option key :=
  match finding with
  | JObject fields => default None (key_of (Dedup.get fields (py "line_number")))
  | _ => None
  end.

(** A finding that makes the loop raise. *)
Definition offending (finding : json) : Prop :=
  match finding with
  | JObject fields => key_of (Dedup.get fields (py "line_number")) = None
  | _ => True
  end.

(** The distinct elements of [l], each at its first place. *)
Definition first_keys (l : list key) : list key :=
  reverse (remove_dups (reverse l)).

End DeepSeek.

(** ** The statistics of the summary files: [analyze_csvs]
    ([Benchmark analysis/analyze_results_stats.py]) *)

Module Stats.

Section Stats.

(** [int(s)] for a [str]; [None] when it raises [ValueError]. *)
Variable int_of_str : str → option Z.

(** The dictionaries ['FN'] and ['FP'] of a tool, each a [defaultdict(int)]
    keyed by the values of the column 'BugType': a [str], or [None] for a
    line that does not reach the column. *)
Definition tool_stats : Type := gmap (option str) Z * gmap (option str) Z.

Inductive kind : Type := FN | FP.

Definition side (k : kind) (e : tool_stats) : gmap (option str) Z :=
  match k with FN => e.1 | FP => e.2 end.

Definition with_side (k : kind) (e : tool_stats) (c : gmap (option str) Z) : tool_stats :=
  match k with FN => (c, e.2) | FP => (e.1, c) end.

Definition tools : list str :=
  [ py "Oyente"; py "Smartcheck"; py "Mythril"; py "Manticore"; py "Securify";
    py "Slither"; py "DeepSeek"; py "Llama3"; py "llama3" ].

(** The key ['Total']. *)
Definition total : option str := Some (py "Total").

(** [int(row.get(column, 0))]: [Some (Some n)] is the count, [Some None] the
    [ValueError] of a text that is no integer, [None] the [TypeError] of a
    missing cell. *)
Definition count_cell (row : Loader.csv_row) (column : string) : option (option Z) :=
  match row !! py column with
  | None => Some (Some 0)
  | Some (Some cell) => Some (int_of_str cell)
  | Some None => None
  end.

(** [stats[tool][k][key] = v] on the [defaultdict] of the tools. *)
Definition set_count (stats : gmap str tool_stats) (tool : str) (k : kind)
    (key : option str) (v : Z) : gmap str tool_stats :=
  let e := default (∅, ∅) (stats !! tool) in
  <[tool := with_side k e (<[key := v]> (side k e))]> stats.

(** [stats[tool][k][key]] on the [defaultdict]s, for a tool that is present. *)
Definition get_count (stats : gmap str tool_stats) (tool : str) (k : kind)
    (key : option str) : Z :=
  default 0 (side k (default (∅, ∅) (stats !! tool)) !! key).

(** One iteration of [for row in reader]; [None] when the exception is not a
    [ValueError] and ends the work on the file. *)
Definition count_row (tool : str) (k : kind) (column : string)
    (stats : gmap str tool_stats) (row : Loader.csv_row) : option (gmap str tool_stats) :=
  let bug_type := Loader.row_get row "BugType" (py "Unknown") in
  count ← count_cell row column;
  Some (match count with
        | Some count =>
            let stats := set_count stats tool k bug_type count in
            set_count stats tool k total (get_count stats tool k total + count)
        | None => stats
        end).

Fixpoint count_rows (tool : str) (k : kind) (column : string)
    (stats : gmap str tool_stats) (rows : list Loader.csv_row) : gmap str tool_stats :=
  match rows with
  | [] => stats
  | row :: rest =>
      match count_row tool k column stats row with
      | Some stats' => count_rows tool k column stats' rest
      | None => stats
      end
  end.

(** One of the two loops over the tools: [files] gives the rows of the
    summary file of a tool, [None] when there is no file or it cannot be
    opened. *)
Definition analyze_kind (k : kind) (column : string)
    (files : str → option (list Loader.csv_row)) (stats : gmap str tool_stats)
    : gmap str tool_stats :=
  foldl (λ stats tool,
           match files tool with
           | Some rows => count_rows tool k column stats rows
           | None => stats
           end)
        stats tools.

(** [analyze_csvs]: the dictionary [stats] returned. *)
Definition analyze_csvs (fn_files fp_files : str → option (list Loader.csv_row))
    : gmap str tool_stats :=
  let stats := analyze_kind FN "FalseNegatives" fn_files ∅ in
  analyze_kind FP "FalsePositives" fp_files stats.

(** *** Views used to state the properties *)

(** The bug types and counts of the rows that are counted: the rows before
    the first one that ends the work on the file, without those whose count
    is no integer. *)
Fixpoint counted (column : string) (rows : list Loader.csv_row) : list (option str * Z) :=
  match rows with
  | [] => []
  | row :: rest =>
      match count_cell row column with
      | Some (Some count) =>
          (Loader.row_get row "BugType" (py "Unknown"), count) :: counted column rest
      | Some None => counted column rest
      | None => []
      end
  end.

(** What counting a row does to the dictionary of a tool and a kind. *)
Definition add_count (c : gmap (option str) Z) (p : option str * Z)
    : gmap (option str) Z :=
  let c := <[p.1 := p.2]> c in
  <[total := default 0 (c !! total) + p.2]> c.

End Stats.

End Stats.

(** * Properties *)

Import Match.

(** ** The match engine *)

Section MatchLemmas.

Implicit Types (ground_truth llm_findings : list entry) (st : loop_state).
Implicit Types (gt_by_key : gmap (string * string) (list Z)).

Lemma bucket_foldl ground_truth gt_by_key c b :
  bucket (foldl append_line gt_by_key ground_truth) c b
  = bucket gt_by_key c b ++ lines_of ground_truth c b.
Proof.
  revert gt_by_key.
  induction ground_truth as [|[[c' b'] l] ground_truth IH]; intros gt_by_key; simpl.
  - by rewrite app_nil_r.
  - rewrite IH. unfold bucket, lines_of; simpl.
    destruct (decide ((c', b') = (c, b))) as [Heq|Hne].
    + inversion Heq; subst. rewrite lookup_insert_eq. simpl.
      by rewrite <- app_assoc.
    + by rewrite lookup_insert_ne.
Qed.

(** A bucket holds exactly the lines of the entries with its key. *)
Lemma bucket_group_by_key ground_truth c b :
  bucket (group_by_key ground_truth) c b = lines_of ground_truth c b.
Proof. unfold group_by_key. by rewrite bucket_foldl. Qed.

Lemma elem_of_lines_of ground_truth c b l :
  l ∈ lines_of ground_truth c b ↔ (c, b, l) ∈ ground_truth.
Proof.
  unfold lines_of. rewrite list_elem_of_omap. split.
  - intros ([[c' b'] l'] & Hin & Hsome). simpl in Hsome.
    case_decide as Heq; [|done]. by simplify_eq.
  - intros Hin. exists (c, b, l). split; [done|]. simpl.
    by rewrite decide_True.
Qed.

Lemma first_within_Some ln t lines truth_ln :
  first_within ln t lines = Some truth_ln →
  truth_ln ∈ lines ∧ Z.abs (truth_ln - ln) ≤ t.
Proof.
  induction lines as [|x lines IH]; simpl; [done|].
  destruct (Z.leb_spec (Z.abs (x - ln)) t) as [Hle|Hgt].
  - intros [= <-]. split; [left|done].
  - intros Hrec. destruct (IH Hrec). split; [by right|done].
Qed.

Lemma first_within_None ln t lines :
  first_within ln t lines = None ↔ ∀ l, l ∈ lines → t < Z.abs (l - ln).
Proof.
  induction lines as [|x lines IH]; simpl.
  - split; [|done]. intros _ l Hl%elem_of_nil. done.
  - destruct (Z.leb_spec (Z.abs (x - ln)) t) as [Hle|Hgt].
    + split; [done|]. intros Hall. specialize (Hall x (list_elem_of_here _ _)). lia.
    + rewrite IH. split.
      * intros Hall l [->|Hl]%elem_of_cons; auto.
      * intros Hall l Hl. apply Hall. by right.
Qed.

Lemma first_within_is_Some ln t lines l :
  l ∈ lines → Z.abs (l - ln) ≤ t → is_Some (first_within ln t lines).
Proof.
  intros Hl Hle. destruct (first_within ln t lines) eqn:E; [by eexists|].
  rewrite first_within_None in E. specialize (E l Hl). lia.
Qed.

(** The main loop, from any state: the records are appended in the order of
    the findings and the matched truth entries are added to [gt_matched]. *)
Lemma foldl_check_finding gt_by_key t llm_findings st :
  let st' := foldl (check_finding gt_by_key t) st llm_findings in
  let outcomes := outcome_of gt_by_key t <$> llm_findings in
  tp st' = tp st ++ omap matched outcomes ∧
  fp st' = fp st ++ omap unmatched outcomes ∧
  gt_matched st' = gt_matched st ∪ list_to_set (truth_of <$> omap matched outcomes).
Proof.
  induction llm_findings as [|finding llm_findings IH] using rev_ind; simpl.
  - rewrite !app_nil_r. split_and!; [done..|set_solver].
  - destruct finding as [[c b] ln].
    rewrite foldl_snoc, fmap_app, !omap_app. destruct IH as (Htp & Hfp & Hm).
    unfold check_finding at 1 3 5. simpl.
    destruct (first_within ln t (bucket gt_by_key c b)) as [truth_ln|]; simpl.
    + rewrite Htp, Hfp, Hm, fmap_app, <- !app_assoc, app_nil_r.
      split_and!; [done..|]. simpl. unfold truth_of at 3; simpl.
      rewrite list_to_set_app_L. set_solver.
    + rewrite Htp, Hfp, Hm, <- !app_assoc, !app_nil_r. done.
Qed.

Lemma compare_outcomes llm_findings ground_truth t :
  findings_partitioned (compare llm_findings ground_truth t) llm_findings ground_truth t.
Proof.
  unfold findings_partitioned, compare; simpl.
  destruct (foldl_check_finding (group_by_key ground_truth) t llm_findings initial_state)
    as (Htp & Hfp & _).
  by rewrite Htp, Hfp.
Qed.

Lemma compare_gt_matched llm_findings ground_truth t e :
  e ∈ gt_matched (state_after ground_truth t llm_findings)
  ↔ matched_as_tp (compare llm_findings ground_truth t) e.
Proof.
  unfold matched_as_tp, compare, state_after; simpl.
  destruct (foldl_check_finding (group_by_key ground_truth) t llm_findings initial_state)
    as (Htp & _ & Hm).
  rewrite Hm, Htp. simpl. rewrite elem_of_union, elem_of_list_to_set, list_elem_of_fmap.
  split.
  - intros [Hemp|(r & -> & Hr)]; [set_solver|]. by exists r.
  - intros (r & Hr & <-). right. by exists r.
Qed.

Lemma length_outcomes (outcomes : list outcome) :
  (length (omap matched outcomes) + length (omap unmatched outcomes))%nat
  = length outcomes.
Proof.
  induction outcomes as [|[r|r] outcomes IH]; csimpl; lia.
Qed.

Lemma entry_record_inj : Inj (=) (=) entry_record.
Proof. intros [[c b] l] [[c' b'] l']; simpl. by intros [= -> -> ->]. Qed.

End MatchLemmas.

Section MatchTheorems.

Implicit Types (ground_truth llm_findings : list entry) (st : loop_state).

Lemma compare_counts llm_findings ground_truth t :
  let res := compare llm_findings ground_truth t in
  (length (TP res) + length (FP res))%nat = length llm_findings.
Proof.
  intros res. destruct (compare_outcomes llm_findings ground_truth t) as [Htp Hfp].
  fold res in Htp, Hfp. by rewrite Htp, Hfp, length_outcomes, length_fmap.
Qed.

Lemma elem_of_FN llm_findings ground_truth t e :
  entry_record e ∈ FN (compare llm_findings ground_truth t)
  ↔ e ∈ ground_truth ∧ ¬ matched_as_tp (compare llm_findings ground_truth t) e.
Proof.
  rewrite <- compare_gt_matched. unfold compare; simpl.
  rewrite (list_elem_of_fmap_inj entry_record (Inj0 := entry_record_inj)).
  rewrite list_elem_of_filter. unfold state_after. tauto.
Qed.

Lemma compare_truth_partitioned llm_findings ground_truth t :
  truth_partitioned (compare llm_findings ground_truth t) ground_truth.
Proof.
  intros e He. rewrite elem_of_FN.
  destruct (decide (e ∈ gt_matched (state_after ground_truth t llm_findings))) as [Hm|Hm];
    rewrite compare_gt_matched in Hm; tauto.
Qed.

(** A TP record comes from a finding of the input and from a ground-truth
    entry with the finding's own key, within the tolerance. *)
Lemma elem_of_TP llm_findings ground_truth t r :
  r ∈ TP (compare llm_findings ground_truth t) ↔
  finding_of r ∈ llm_findings ∧
  first_within (llm_line r) t (lines_of ground_truth (tp_contract r) (tp_bug_type r))
    = Some (truth_line r) ∧
  diff r = llm_line r - truth_line r.
Proof.
  destruct (compare_outcomes llm_findings ground_truth t) as [-> _].
  rewrite list_elem_of_omap. setoid_rewrite list_elem_of_fmap. split.
  - intros (o & ([[c b] ln] & -> & Hin) & Hm). revert Hm. simpl.
    rewrite bucket_group_by_key.
    destruct (first_within ln t (lines_of ground_truth c b)) as [tl|] eqn:E; [|done].
    simpl. intros [= <-]. simpl. by rewrite E.
  - destruct r as [c b ln tl d]. unfold finding_of; simpl. intros (Hin & Hfw & ->).
    exists (Matched (mk_tp c b ln tl (ln - tl))). split; [|done].
    exists (c, b, ln). split; [|done]. simpl. by rewrite bucket_group_by_key, Hfw.
Qed.

End MatchTheorems.

(** Counterexample to C1 as stated: with ground truth [{(C1, Re-entrancy, 10)}],
    findings at lines 10 and 11 and tolerance 2, both findings are recorded as
    TP against the single truth entry at line 10, so the matching is not
    one-to-one. *)
Lemma compare_truth_matched_twice :
  NoDup [("C1", "Re-entrancy", 10)] ∧ 0 ≤ 2 ∧
  ¬ one_to_one_partition
      [("C1", "Re-entrancy", 10); ("C1", "Re-entrancy", 11)]
      [("C1", "Re-entrancy", 10)] 2.
Proof.
  split_and!; [by apply NoDup_singleton|lia|].
  intros (_ & _ & Honce & _).
  assert (0 = 1)%nat as Habs; [|discriminate Habs].
  apply (Honce 0%nat 1%nat
           (mk_tp "C1" "Re-entrancy" 10 10 0) (mk_tp "C1" "Re-entrancy" 11 10 1));
    by vm_compute.
Qed.

(** C1 (amended): for every call to [compare] on a ground-truth set, the number
    of TP records plus the number of FP records equals the number of findings;
    every ground-truth entry is either matched by some TP record or listed
    (once) in FN, never both and never neither, and FN lists nothing else;
    every finding is recorded exactly once, as a TP record that names one truth
    line or as an FP record. (A truth entry may be matched by several
    findings: the loop keeps no consumed marker.) *)
Theorem compare_partition llm_findings ground_truth line_tolerance :
  NoDup ground_truth →
  let res := compare llm_findings ground_truth line_tolerance in
  (length (TP res) + length (FP res))%nat = length llm_findings ∧
  truth_partitioned res ground_truth ∧
  NoDup (FN res) ∧
  (∀ r, r ∈ FN res → ∃ e, e ∈ ground_truth ∧ r = entry_record e) ∧
  findings_partitioned res llm_findings ground_truth line_tolerance.
Proof.
  intros Hset res. split_and!.
  - apply compare_counts.
  - apply compare_truth_partitioned.
  - unfold res, compare; simpl.
    apply (NoDup_fmap_2 entry_record (Inj0 := entry_record_inj)).
    by apply NoDup_filter.
  - unfold res, compare; simpl. intros r (e & -> & He)%list_elem_of_fmap.
    apply list_elem_of_filter in He as [_ He]. by exists e.
  - apply compare_outcomes.
Qed.

Lemma compare_partition_witness :
  let res := compare [("C1", "TOD", 5); ("C2", "TOD", 9)]
                     [("C1", "TOD", 5); ("C1", "TOD", 6)] 1 in
  (length (TP res) + length (FP res))%nat = 2%nat ∧
  truth_partitioned res [("C1", "TOD", 5); ("C1", "TOD", 6)] ∧
  NoDup (FN res).
Proof.
  assert (NoDup [("C1", "TOD", 5); ("C1", "TOD", 6)]) as Hset
    by compute_done.
  destruct (compare_partition [("C1", "TOD", 5); ("C2", "TOD", 9)] _ 1 Hset)
    as (H1 & H2 & H3 & _).
  exact (conj H1 (conj H2 H3)).
Defined.

(** Counterexample to C3 as stated: with ground truth lines 1 and 3 of one
    key and findings at lines 1 and 3, tolerance 0 leaves no FN, while
    tolerance 2 matches both findings with the truth line that comes first in
    the bucket and leaves the other one as an FN, whichever of the two orders
    the ground-truth set is iterated in. *)
Lemma compare_fn_grows_with_tolerance :
  NoDup [("C", "B", 1); ("C", "B", 3)] ∧ 0 ≤ 2 ∧
  ¬ tolerance_monotone [("C", "B", 1); ("C", "B", 3)] [("C", "B", 1); ("C", "B", 3)] 0 2 ∧
  ¬ tolerance_monotone [("C", "B", 1); ("C", "B", 3)] [("C", "B", 3); ("C", "B", 1)] 0 2.
Proof.
  split_and!; [compute_done|lia|..]; intros [_ Hfn]; vm_compute in Hfn; lia.
Qed.

Section ToleranceMonotonicity.

Implicit Types (ground_truth llm_findings : list entry).

Lemma length_omap_mono {A B C} (f : A → option B) (g : A → option C) (l : list A) :
  (∀ x, x ∈ l → is_Some (f x) → is_Some (g x)) →
  (length (omap f l) ≤ length (omap g l))%nat.
Proof.
  induction l as [|x l IH]; intros Himp; csimpl; [done|].
  assert (length (omap f l) ≤ length (omap g l))%nat as Hrec.
  { apply IH. intros y Hy. apply Himp. by right. }
  destruct (f x) as [fx|] eqn:Ef.
  - destruct (Himp x (list_elem_of_here _ _)) as [gx ->]; [by rewrite Ef|].
    simpl. lia.
  - destruct (g x); simpl; lia.
Qed.

Lemma omap_fmap {A B C} (f : B → option C) (g : A → B) (l : list A) :
  omap f (g <$> l) = omap (λ x, f (g x)) l.
Proof. induction l as [|x l IH]; csimpl; [done|]. by rewrite IH. Qed.

Lemma length_filter_mono {A} (P Q : A → Prop)
    `{∀ x, Decision (P x)} `{∀ x, Decision (Q x)} (l : list A) :
  (∀ x, x ∈ l → P x → Q x) →
  (length (filter P l) ≤ length (filter Q l))%nat.
Proof.
  induction l as [|x l IH]; intros Himp; [done|].
  assert (length (filter P l) ≤ length (filter Q l))%nat as Hrec.
  { apply IH. intros y Hy. apply Himp. by right. }
  rewrite !filter_cons.
  destruct (decide (P x)) as [HP|HP].
  - rewrite decide_True by (apply Himp; [left|done]). simpl. lia.
  - destruct (decide (Q x)); simpl; lia.
Qed.

Lemma first_within_mono ln t1 t2 lines :
  t1 ≤ t2 → is_Some (first_within ln t1 lines) → is_Some (first_within ln t2 lines).
Proof.
  intros Hle [l Hl]. apply first_within_Some in Hl as [Hin Habs].
  apply (first_within_is_Some _ _ _ l); [done|lia].
Qed.

Lemma matched_mono ground_truth t1 t2 finding :
  t1 ≤ t2 →
  is_Some (matched (outcome_of (group_by_key ground_truth) t1 finding)) →
  is_Some (matched (outcome_of (group_by_key ground_truth) t2 finding)).
Proof.
  intros Hle. destruct finding as [[c b] ln]. simpl.
  pose proof (first_within_mono ln t1 t2 (bucket (group_by_key ground_truth) c b) Hle) as Hm.
  destruct (first_within ln t1 _); simpl; [|by intros [? ?]].
  intros _. destruct Hm as [l ->]; [by eexists|]. by eexists.
Qed.

Lemma TP_length_mono llm_findings ground_truth t1 t2 :
  t1 ≤ t2 →
  (length (TP (compare llm_findings ground_truth t1))
   ≤ length (TP (compare llm_findings ground_truth t2)))%nat.
Proof.
  intros Hle.
  destruct (compare_outcomes llm_findings ground_truth t1) as [-> _].
  destruct (compare_outcomes llm_findings ground_truth t2) as [-> _].
  rewrite !omap_fmap. apply length_omap_mono.
  intros finding _. by apply matched_mono.
Qed.

(** When the truth lines of a key are far apart, a truth entry matched at the
    smaller tolerance is matched, by the same finding, at the larger one. *)
Lemma matched_as_tp_mono llm_findings ground_truth t1 t2 e :
  t1 ≤ t2 → well_separated ground_truth t2 →
  matched_as_tp (compare llm_findings ground_truth t1) e →
  matched_as_tp (compare llm_findings ground_truth t2) e.
Proof.
  intros Hle Hsep (r & Hr & <-).
  apply elem_of_TP in Hr as (Hin & Hfw & Hdiff).
  destruct (first_within_Some _ _ _ _ Hfw) as [Hl Habs].
  destruct (first_within_is_Some (llm_line r) t2 _ _ Hl ltac:(lia)) as [l' Hfw'].
  destruct (first_within_Some _ _ _ _ Hfw') as [Hl' Habs'].
  apply elem_of_lines_of in Hl, Hl'.
  assert (l' = truth_line r) as ->.
  { destruct (decide (l' = truth_line r)) as [|Hne]; [done|].
    pose proof (Hsep _ _ _ _ Hl' Hl Hne). lia. }
  exists (mk_tp (tp_contract r) (tp_bug_type r) (llm_line r) (truth_line r)
            (llm_line r - truth_line r)).
  split; [|done]. apply elem_of_TP. by split_and!.
Qed.

Lemma FN_length_mono llm_findings ground_truth t1 t2 :
  t1 ≤ t2 → well_separated ground_truth t2 →
  (length (FN (compare llm_findings ground_truth t2))
   ≤ length (FN (compare llm_findings ground_truth t1)))%nat.
Proof.
  intros Hle Hsep. unfold compare; simpl. rewrite !length_fmap.
  apply length_filter_mono. intros e _ Hn2 Hin1. apply Hn2.
  fold (state_after ground_truth t1 llm_findings) in Hin1.
  fold (state_after ground_truth t2 llm_findings).
  rewrite compare_gt_matched in *. by apply (matched_as_tp_mono _ _ t1 t2).
Qed.

End ToleranceMonotonicity.

(** C3 (amended): for fixed findings and ground truth and tolerances
    [t1 <= t2], [compare] with [t2] produces at least as many TP records and at
    most as many FP records as with [t1]; it produces at most as many FN
    records when the ground-truth lines of each (artifact, category) key lie
    more than [2 * t2] apart. *)
Theorem compare_tolerance_monotone llm_findings ground_truth t1 t2 :
  t1 ≤ t2 →
  (length (TP (compare llm_findings ground_truth t1))
   ≤ length (TP (compare llm_findings ground_truth t2)))%nat ∧
  (length (FP (compare llm_findings ground_truth t2))
   ≤ length (FP (compare llm_findings ground_truth t1)))%nat ∧
  (well_separated ground_truth t2 →
   (length (FN (compare llm_findings ground_truth t2))
    ≤ length (FN (compare llm_findings ground_truth t1)))%nat).
Proof.
  intros Hle.
  pose proof (TP_length_mono llm_findings ground_truth t1 t2 Hle) as Htp.
  pose proof (compare_counts llm_findings ground_truth t1) as H1.
  pose proof (compare_counts llm_findings ground_truth t2) as H2.
  cbv zeta in H1, H2. split_and!; [done|lia|].
  intros Hsep. by apply FN_length_mono.
Qed.

Lemma compare_tolerance_monotone_witness :
  let llm_findings := [("C", "B", 12); ("C", "B", 18)] in
  let ground_truth := [("C", "B", 10); ("C", "B", 20)] in
  (length (TP (compare llm_findings ground_truth 1))
   ≤ length (TP (compare llm_findings ground_truth 2)))%nat ∧
  (length (FN (compare llm_findings ground_truth 2))
   ≤ length (FN (compare llm_findings ground_truth 1)))%nat.
Proof.
  intros llm_findings ground_truth.
  destruct (compare_tolerance_monotone llm_findings ground_truth 1 2 ltac:(lia))
    as (Htp & _ & Hfn).
  split; [exact Htp|]. apply Hfn.
  intros c b l1 l2 H1 H2 Hne.
  apply list_elem_of_In in H1, H2. simpl in H1, H2.
  destruct H1 as [[= <- <- <-]|[[= <- <- <-]|[]]];
    destruct H2 as [[= <-]|[[= <-]|[]]]; lia.
Defined.

Section ZeroTolerance.

Implicit Types (ground_truth llm_findings : list entry).

(** With tolerance 0 the inner loop stops at the finding's own line, when the
    bucket holds it. *)
Lemma first_within_zero ln lines :
  first_within ln 0 lines = if decide (ln ∈ lines) then Some ln else None.
Proof.
  destruct (first_within ln 0 lines) as [l|] eqn:E.
  - apply first_within_Some in E as [Hin Habs].
    assert (l = ln) as -> by lia. by rewrite decide_True.
  - rewrite first_within_None in E. rewrite decide_False; [done|].
    intros Hin. specialize (E ln Hin). lia.
Qed.

Lemma outcome_of_zero ground_truth finding :
  matched (outcome_of (group_by_key ground_truth) 0 finding) = exact_tp ground_truth finding ∧
  unmatched (outcome_of (group_by_key ground_truth) 0 finding) = exact_fp ground_truth finding.
Proof.
  destruct finding as [[c b] ln]. unfold exact_tp, exact_fp. simpl.
  rewrite bucket_group_by_key, first_within_zero.
  destruct (decide (ln ∈ lines_of ground_truth c b)) as [Hin|Hin];
    rewrite elem_of_lines_of in Hin.
  - rewrite !decide_True by done. simpl. by rewrite Z.sub_diag.
  - by rewrite !decide_False by done.
Qed.

Lemma recorded_as_tp_zero ground_truth st finding :
  recorded_as_tp ground_truth 0 st finding ↔ finding ∈ ground_truth.
Proof.
  destruct finding as [[c b] ln]. unfold recorded_as_tp. simpl.
  rewrite bucket_group_by_key, first_within_zero.
  destruct (decide (ln ∈ lines_of ground_truth c b)) as [Hin|Hin];
    rewrite elem_of_lines_of in Hin; simpl.
  - rewrite length_app. simpl. split; [done|lia].
  - split; [lia|done].
Qed.

End ZeroTolerance.

(** Counterexample to C4 as stated: with ground truth [{(C1, TOD, 5)}] and the
    finding [(C1, TOD, 5)] reported twice, the second finding is recorded as
    TP although the only truth entry equal to it has already been matched by
    the first. *)
Lemma compare_zero_tolerance_rematches :
  NoDup [("C1", "TOD", 5)] ∧
  ¬ exact_unconsumed_matching [("C1", "TOD", 5); ("C1", "TOD", 5)] [("C1", "TOD", 5)].
Proof.
  split; [compute_done|]. intros Hclaim.
  destruct (Hclaim 1%nat ("C1", "TOD", 5) eq_refl) as [Hiff _].
  destruct Hiff as [_ Hfresh]; [by vm_compute|].
  apply Hfresh. by vm_compute.
Qed.

(** C4 (amended): when [compare] is called with tolerance 0, a finding is
    recorded as TP (with its own line as the truth line and offset 0) if and
    only if its exact (artifact, category, position) tuple equals some
    ground-truth entry, whether or not an earlier finding has already matched
    that entry; otherwise it is recorded as FP. *)
Theorem compare_zero_tolerance llm_findings ground_truth :
  let res := compare llm_findings ground_truth 0 in
  TP res = omap (exact_tp ground_truth) llm_findings ∧
  FP res = omap (exact_fp ground_truth) llm_findings ∧
  ∀ st finding, recorded_as_tp ground_truth 0 st finding ↔ finding ∈ ground_truth.
Proof.
  intros res. destruct (compare_outcomes llm_findings ground_truth 0) as [Htp Hfp].
  fold res in Htp, Hfp. rewrite Htp, Hfp, !omap_fmap. split_and!.
  - apply list_omap_ext. apply Forall2_same_length_lookup. split; [done|].
    intros i x y Hx Hy. simplify_eq. apply outcome_of_zero.
  - apply list_omap_ext. apply Forall2_same_length_lookup. split; [done|].
    intros i x y Hx Hy. simplify_eq. apply outcome_of_zero.
  - apply recorded_as_tp_zero.
Qed.

(** C7: scenario A. One truth entry at line 10, one finding at line 11 and
    tolerance 2 give exactly one TP record with offset +1, no FP and no FN. *)
Theorem compare_scenario_A :
  compare [("C1", "Re-entrancy", 11)] [("C1", "Re-entrancy", 10)] 2
  = {| TP := [ {| tp_contract := "C1"; tp_bug_type := "Re-entrancy";
                  llm_line := 11; truth_line := 10; diff := 1 |} ];
       FP := [];
       FN := [] |}.
Proof. by vm_compute. Qed.

(** C9: for every candidate sequence, ground truth and tolerance, each TP
    record of [compare] pairs a finding of the input with a ground-truth entry
    whose artifact and category strings are exactly the finding's own (and
    whose line is within the tolerance); a finding whose key occurs in no
    ground-truth entry is recorded as FP, and no TP record carries its key. *)
Theorem compare_same_key llm_findings ground_truth line_tolerance :
  (∀ r, r ∈ TP (compare llm_findings ground_truth line_tolerance) →
     finding_of r ∈ llm_findings ∧ truth_of r ∈ ground_truth ∧
     Z.abs (truth_line r - llm_line r) ≤ line_tolerance ∧
     diff r = llm_line r - truth_line r) ∧
  (∀ c b ln, (c, b, ln) ∈ llm_findings →
     (∀ l, (c, b, l) ∉ ground_truth) →
     mk_line c b ln ∈ FP (compare llm_findings ground_truth line_tolerance) ∧
     ∀ r, r ∈ TP (compare llm_findings ground_truth line_tolerance) →
       (tp_contract r, tp_bug_type r) ≠ (c, b)).
Proof.
  assert (∀ r, r ∈ TP (compare llm_findings ground_truth line_tolerance) →
     finding_of r ∈ llm_findings ∧ truth_of r ∈ ground_truth ∧
     Z.abs (truth_line r - llm_line r) ≤ line_tolerance ∧
     diff r = llm_line r - truth_line r) as Htp.
  { intros r (Hin & Hfw & Hdiff)%elem_of_TP.
    apply first_within_Some in Hfw as [Hl Habs].
    apply elem_of_lines_of in Hl. done. }
  split; [done|]. intros c b ln Hin Hkey. split.
  - destruct (compare_outcomes llm_findings ground_truth line_tolerance) as [_ ->].
    apply list_elem_of_omap.
    exists (outcome_of (group_by_key ground_truth) line_tolerance (c, b, ln)).
    split; [by apply list_elem_of_fmap_2|]. simpl.
    destruct (first_within ln line_tolerance (bucket (group_by_key ground_truth) c b))
      as [l|] eqn:E; [|done].
    apply first_within_Some in E as [Hl _].
    rewrite bucket_group_by_key, elem_of_lines_of in Hl. by destruct (Hkey l).
  - intros r Hr [= <- <-]. destruct (Htp r Hr) as (_ & Ht & _).
    by destruct (Hkey (truth_line r)).
Qed.

Lemma compare_same_key_witness :
  let res := compare [("C1", "TOD", 5); ("C1", "DAO", 5)] [("C1", "TOD", 5)] 2 in
  truth_of (mk_tp "C1" "TOD" 5 5 0) ∈ [("C1", "TOD", 5)] ∧
  mk_line "C1" "DAO" 5 ∈ FP res.
Proof.
  intros res.
  destruct (compare_same_key [("C1", "TOD", 5); ("C1", "DAO", 5)] [("C1", "TOD", 5)] 2)
    as [Htp Hfp].
  split.
  - apply (Htp (mk_tp "C1" "TOD" 5 5 0)). by vm_compute; left.
  - apply (Hfp "C1" "DAO" 5).
    + right. left.
    + intros l Hl. apply list_elem_of_In in Hl. simpl in Hl.
      destruct Hl as [[=]|[]].
Defined.

(** ** Rounding to the nearest double *)

Import Metrics.

Section Pow2.

Local Open Scope Q_scope.


Lemma pow2_pos e : 0 < 2 ^ e.
Proof. by apply Qpower_0_lt. Qed.

Lemma pow2_add a b : 2 ^ (a + b) == 2 ^ a * 2 ^ b.
Proof. by apply Qpower_plus. Qed.

Lemma pow2_sub a b : 2 ^ (a - b) == 2 ^ a / 2 ^ b.
Proof. by apply Qpower_minus. Qed.

Lemma pow2_Z a : (0 <= a)%Z -> 2 ^ a == inject_Z (2 ^ a).
Proof. intros Ha. by rewrite Zpower_Qpower. Qed.

Lemma pow2_le a b : (a <= b)%Z -> 2 ^ a <= 2 ^ b.
Proof. intros Hab. by apply Qpower_le_compat_l. Qed.

Lemma pow2_lt a b : (a < b)%Z -> 2 ^ a < 2 ^ b.
Proof. intros Hab. by apply Qpower_lt_compat_l. Qed.

End Pow2.

Section Rounding.

Local Open Scope Q_scope.

Lemma floor_log2_spec x :
  0 < x -> 2 ^ floor_log2 x <= x /\ x < 2 ^ (floor_log2 x + 1).
Proof.
  intros Hx. destruct x as [n d].
  assert (0 < n)%Z as Hn. { unfold Qlt in Hx. simpl in Hx. lia. }
  set (a := Z.log2 n). set (b := Z.log2 (Z.pos d)).
  destruct (Z.log2_spec n Hn) as [Ha1 Ha2]. fold a in Ha1, Ha2.
  destruct (Z.log2_spec (Z.pos d) ltac:(lia)) as [Hb1 Hb2]. fold b in Hb1, Hb2.
  assert (0 <= a)%Z as Ha0 by apply Z.log2_nonneg.
  assert (0 <= b)%Z as Hb0 by apply Z.log2_nonneg.
  set (N := inject_Z n). set (D := inject_Z (Z.pos d)).
  assert (0 < D) as HD. { unfold D, Qlt; simpl; lia. }
  assert ((n # d) * D == N) as HxD.
  { unfold D, N. rewrite (Qmake_Qdiv n d). field. fold D. lra. }
  assert (2 ^ a <= N) as HaN. { rewrite pow2_Z by done. unfold N. by rewrite <- Zle_Qle. }
  assert (N < 2 ^ (a + 1)) as HNa.
  { rewrite pow2_Z by lia. unfold N. rewrite <- Zlt_Qlt. by rewrite <- Z.add_1_r in Ha2. }
  assert (2 ^ b <= D) as HbD. { rewrite pow2_Z by done. unfold D. by rewrite <- Zle_Qle. }
  assert (D < 2 ^ (b + 1)) as HDb.
  { rewrite pow2_Z by lia. unfold D. rewrite <- Zlt_Qlt. by rewrite <- Z.add_1_r in Hb2. }
  unfold floor_log2. cbn [Qnum Qden]. fold a b.
  destruct (Qle_bool (2 ^ (a - b)) (n # d)) eqn:Htest.
  - apply Qle_bool_iff in Htest. split; [done|].
    apply (Qmult_lt_r _ _ D HD). rewrite HxD.
    eapply Qlt_le_trans; [exact HNa|].
    replace (a + 1)%Z with ((a - b + 1) + b)%Z by lia. rewrite pow2_add.
    apply Qmult_le_l; [apply pow2_pos|done].
  - assert (n # d < 2 ^ (a - b)) as Hlt.
    { apply Qnot_le_lt. intros Hle. apply Qle_bool_iff in Hle. congruence. }
    split.
    + apply (Qmult_le_r _ _ D HD). rewrite HxD.
      eapply Qle_trans; [|exact HaN].
      replace a with ((a - b - 1) + (b + 1))%Z at 2 by lia. rewrite pow2_add.
      apply Qmult_le_l; [apply pow2_pos|]. by apply Qlt_le_weak.
    + by replace (a - b - 1 + 1)%Z with (a - b)%Z by lia.
Qed.

Lemma round_half_even_floor x :
  round_half_even x = Qfloor x \/
  (round_half_even x = (Qfloor x + 1)%Z /\ inject_Z (Qfloor x) < x).
Proof.
  unfold round_half_even.
  destruct (x - inject_Z (Qfloor x) ?= 1 # 2) eqn:E.
  - destruct (Z.even (Qfloor x)); [by left|right; split; [done|]].
    apply Qeq_alt in E. lra.
  - by left.
  - right. split; [done|]. apply Qgt_alt in E. lra.
Qed.

Lemma round_half_even_le x k : x <= inject_Z k -> (round_half_even x <= k)%Z.
Proof.
  intros Hx. pose proof (Qfloor_le x) as Hf.
  destruct (round_half_even_floor x) as [->|[-> Hlt]].
  - rewrite Zle_Qle. lra.
  - assert (Qfloor x < k)%Z; [|lia]. rewrite Zlt_Qlt. lra.
Qed.

Lemma round_half_even_ge x k : inject_Z k <= x -> (k <= round_half_even x)%Z.
Proof.
  intros Hx. pose proof (Qlt_floor x) as Hf.
  assert (k < Qfloor x + 1)%Z as Hk. { rewrite Zlt_Qlt. lra. }
  destruct (round_half_even_floor x) as [->|[-> _]]; lia.
Qed.


Lemma ulp_exponent_le x k s :
  0 < x -> x <= inject_Z k * 2 ^ s -> (0 <= k < 2 ^ 53)%Z -> (-1074 <= s)%Z ->
  (ulp_exponent x <= s)%Z.
Proof.
  intros Hx Hxd Hk Hs. destruct (floor_log2_spec x Hx) as [He _].
  unfold ulp_exponent. apply Z.max_lub; [|done].
  destruct (Z.le_gt_cases (floor_log2 x - 52) s) as [|Hgt]; [done|exfalso].
  assert (inject_Z k < 2 ^ 53) as Hk'.
  { rewrite pow2_Z by lia. rewrite <- Zlt_Qlt. lia. }
  assert (inject_Z k * 2 ^ s < 2 ^ (53 + s)) as Hd.
  { rewrite pow2_add. apply Qmult_lt_r; [apply pow2_pos|done]. }
  pose proof (pow2_le (53 + s) (floor_log2 x) ltac:(lia)). lra.
Qed.

(** A representable value at least as coarse as the unit in the last place of
    [x] is an integer multiple of that unit. *)
Lemma representable_multiple k s s' :
  (s' <= s)%Z -> inject_Z k * 2 ^ s == inject_Z (k * 2 ^ (s - s')) * 2 ^ s'.
Proof.
  intros Hs. rewrite inject_Z_mult, <- pow2_Z by lia.
  rewrite <- Qmult_assoc, <- pow2_add. by replace (s - s' + s')%Z with s by lia.
Qed.

Lemma round_positive_le x d :
  0 < x -> x <= d -> representable d -> round_positive x <= d.
Proof.
  intros Hx Hxd (k & s & Hd & Hk & Hs). rewrite Hd in Hxd |- *.
  pose proof (ulp_exponent_le x k s Hx Hxd Hk Hs) as Hulp.
  unfold round_positive. set (u := ulp_exponent x) in *.
  rewrite (representable_multiple k s u Hulp) in Hxd |- *.
  apply Qmult_le_r; [apply pow2_pos|]. rewrite <- Zle_Qle.
  apply round_half_even_le. apply Qle_shift_div_r; [apply pow2_pos|done].
Qed.

Lemma round_positive_ge x d :
  0 < x -> d <= x -> representable d -> d <= round_positive x.
Proof.
  intros Hx Hdx (k & s & Hd & Hk & Hs). rewrite Hd in Hdx |- *.
  destruct (floor_log2_spec x Hx) as [He _].
  unfold round_positive. set (u := ulp_exponent x).
  destruct (Z.le_gt_cases u s) as [Hulp|Hgt].
  - rewrite (representable_multiple k s u Hulp) in Hdx |- *.
    apply Qmult_le_r; [apply pow2_pos|]. rewrite <- Zle_Qle.
    apply round_half_even_ge. apply Qle_shift_div_l; [apply pow2_pos|done].
  - assert (u = floor_log2 x - 52)%Z as Hu by (unfold u, ulp_exponent in *; lia).
    assert (inject_Z k * 2 ^ s <= 2 ^ floor_log2 x) as Hsmall.
    { assert (inject_Z k <= 2 ^ 53) as Hk'.
      { rewrite pow2_Z by lia. rewrite <- Zle_Qle. lia. }
      apply Qle_trans with (2 ^ (53 + s)).
      - rewrite pow2_add. apply Qmult_le_r; [apply pow2_pos|done].
      - apply pow2_le. lia. }
    eapply Qle_trans; [exact Hsmall|].
    replace (floor_log2 x) with (52 + u)%Z at 1 by lia.
    rewrite pow2_add. apply Qmult_le_r; [apply pow2_pos|].
    rewrite pow2_Z by lia. rewrite <- Zle_Qle. apply round_half_even_ge.
    apply Qle_shift_div_l; [apply pow2_pos|]. rewrite <- pow2_Z by lia.
    rewrite <- pow2_add. by replace (52 + u)%Z with (floor_log2 x) by lia.
Qed.

Lemma round_positive_representable x : 0 < x -> representable (round_positive x).
Proof.
  intros Hx. destruct (floor_log2_spec x Hx) as [_ He].
  unfold round_positive. set (u := ulp_exponent x).
  set (m := round_half_even (x / 2 ^ u)).
  assert (0 <= m)%Z as Hm0.
  { apply round_half_even_ge. apply Qle_shift_div_l; [apply pow2_pos|].
    rewrite Qmult_0_l. by apply Qlt_le_weak. }
  assert (m <= 2 ^ 53)%Z as Hm.
  { apply round_half_even_le. apply Qle_shift_div_r; [apply pow2_pos|].
    rewrite <- pow2_Z by lia. rewrite <- pow2_add.
    apply Qlt_le_weak. eapply Qlt_le_trans; [exact He|].
    apply pow2_le. unfold u, ulp_exponent. lia. }
  assert (-1074 <= u)%Z as Hu by (unfold u, ulp_exponent; lia).
  destruct (Z.eq_dec m (2 ^ 53)%Z) as [Heq|Hne].
  - exists (2 ^ 52)%Z, (u + 1)%Z. split; [|lia]. rewrite Heq.
    rewrite <- !pow2_Z by lia. rewrite <- !pow2_add. by replace (52 + (u + 1))%Z with (53 + u)%Z by lia.
  - exists m, u. split; [done|lia].
Qed.

End Rounding.

Section FloatBounds.

Local Open Scope Q_scope.

Lemma representable_0 : representable 0.
Proof. exists 0%Z, 0%Z. split; [reflexivity|lia]. Qed.

Lemma representable_Z k : (0 <= k < 2 ^ 53)%Z -> representable (inject_Z k).
Proof. intros Hk. exists k, 0%Z. split; [|lia]. simpl. ring. Qed.

Lemma representable_double d : representable d -> representable (2 * d).
Proof.
  intros (k & s & Hd & Hk & Hs). exists k, (s + 1)%Z. split; [|lia].
  rewrite Hd, pow2_add. simpl. ring.
Qed.

Lemma representable_eq d d' : d == d' -> representable d -> representable d'.
Proof. intros Heq (k & s & Hd & Hk). exists k, s. by rewrite <- Heq. Qed.

(** Rounding stays between the representable values that enclose the exact
    result. *)
Lemma of_Q_between lo hi x :
  0 <= lo -> lo <= x -> x <= hi -> representable lo -> representable hi ->
  hi < 2 ^ 1024 ->
  exists y, of_Q x = Finite y /\ lo <= y /\ y <= hi /\ representable y.
Proof.
  intros Hlo Hlx Hxh Rlo Rhi Hmax. unfold of_Q.
  destruct (Qeq_bool x 0) eqn:E0.
  - apply Qeq_bool_iff in E0. exists 0. split_and!; [done|lra..|apply representable_0].
  - apply Qeq_bool_neq in E0. assert (0 < x) as Hx by lra.
    assert (Qabs x == x) as Habs by (apply Qabs_pos; lra).
    assert (0 < Qabs x) as Hx' by lra.
    pose proof (round_positive_le (Qabs x) hi Hx' ltac:(lra) Rhi) as Hle.
    pose proof (round_positive_ge (Qabs x) lo Hx' ltac:(lra) Rlo) as Hge.
    pose proof (round_positive_representable (Qabs x) Hx') as Hrep.
    set (y := round_positive (Qabs x)) in *.
    assert (Qle_bool x 0 = false) as ->.
    { destruct (Qle_bool x 0) eqn:E; [|done]. apply Qle_bool_iff in E. lra. }
    assert (Qle_bool (2 ^ 1024) y = false) as ->.
    { destruct (Qle_bool (2 ^ 1024) y) eqn:E; [|done]. apply Qle_bool_iff in E. lra. }
    exists (Qred y). pose proof (Qred_correct y) as Hred.
    split_and!; [done|lra..|]. apply (representable_eq y); [by symmetry|done].
Qed.

Lemma of_Q_unit x :
  0 <= x <= 1 -> exists y, of_Q x = Finite y /\ 0 <= y <= 1 /\ representable y.
Proof.
  intros [H0 H1].
  destruct (of_Q_between 0 1 x) as (y & Hy & Hy0 & Hy1 & Hrep);
    [lra..|apply representable_0|apply (representable_Z 1); lia|reflexivity|].
  by exists y.
Qed.

End FloatBounds.

(** ** The metrics calculator *)

Section MetricsBounds.

Local Open Scope Q_scope.

(** A quotient of counts [0 <= a <= b], [0 < b], is a float in [[0, 1]]. *)
Lemma int_true_div_unit a b :
  (0 <= a <= b)%Z -> (0 < b)%Z ->
  exists y, int_true_div a b = Some (Finite y) /\ 0 <= y <= 1 /\ representable y.
Proof.
  intros Ha Hb. unfold int_true_div.
  rewrite (proj2 (Z.eqb_neq b 0)) by lia.
  assert (0 < inject_Z b) as Hb'. { rewrite Zlt_Qlt in Hb. exact Hb. }
  destruct (of_Q_unit (inject_Z a / inject_Z b)) as (y & -> & Hy).
  - split.
    + apply Qle_shift_div_l; [done|]. rewrite Qmult_0_l.
      rewrite Zle_Qle in Ha. tauto.
    + apply Qle_shift_div_r; [done|]. rewrite Qmult_1_l.
      destruct Ha as [_ Ha]. by rewrite Zle_Qle in Ha.
  - by exists y.
Qed.

Lemma round_ndigits_unit x :
  0 <= x <= 1 ->
  exists y, round_ndigits (Finite x) 4 = Some (Finite y) /\ 0 <= y <= 1.
Proof.
  intros [H0 H1]. unfold round_ndigits.
  change (10 ^ 4) with (inject_Z 10000).
  set (n := round_half_even (x * inject_Z 10000)).
  assert (0 <= n <= 10000)%Z as Hn.
  { split.
    - apply round_half_even_ge. change (inject_Z 0) with 0.
      change (inject_Z 10000) with 10000. nra.
    - apply round_half_even_le. change (inject_Z 10000) with 10000. nra. }
  destruct (of_Q_unit (inject_Z n / inject_Z 10000)) as (y & -> & Hy & _).
  - destruct Hn as [Hn0 Hn1]. rewrite Zle_Qle in Hn0, Hn1. split.
    + apply Qle_shift_div_l; [reflexivity|]. by rewrite Qmult_0_l.
    + apply Qle_shift_div_r; [reflexivity|]. by rewrite Qmult_1_l.
  - by exists y.
Qed.

(** The harmonic mean of two floats of [[0, 1]] is a float of [[0, 1]]. *)
Lemma f1_unit p r :
  0 <= p <= 1 -> representable p -> 0 <= r <= 1 -> representable r ->
  exists f,
    (if gt_zero (add (Finite p) (Finite r))
     then div (mul (Finite 2) (mul (Finite p) (Finite r))) (add (Finite p) (Finite r))
     else Some (Finite 0)) = Some (Finite f) /\
    0 <= f <= 1.
Proof.
  intros Hp Rp Hr Rr. simpl.
  (* the product is at most either factor *)
  destruct (of_Q_between 0 p (p * r)) as (pr & Epr & Hpr0 & Hprp & Rpr);
    [lra|nra|nra|apply representable_0|done|apply Qle_lt_trans with 1; [tauto|reflexivity]|].
  destruct (of_Q_between 0 r (p * r)) as (pr' & Epr' & _ & Hprr & _);
    [lra|nra|nra|apply representable_0|done|apply Qle_lt_trans with 1; [tauto|reflexivity]|].
  rewrite Epr in Epr'. injection Epr' as <-. rewrite Epr. simpl.
  (* doubling is exact *)
  destruct (of_Q_between (2 * pr) (2 * pr) (2 * pr)) as (t & Et & Ht1 & Ht2 & _);
    [lra|lra|lra|by apply representable_double..|
     apply Qle_lt_trans with 2; [lra|reflexivity]|].
  rewrite Et.
  (* the sum is at least twice the product *)
  destruct (of_Q_between (2 * pr) 2 (p + r)) as (s & Es & Hs1 & Hs2 & _);
    [lra|lra|lra|by apply representable_double|apply (representable_Z 2); lia|
     reflexivity|].
  rewrite Es. simpl.
  destruct (Qle_bool s 0) eqn:Hs0; simpl.
  - exists 0. split; [done|lra].
  - assert (0 < s) as Hspos.
    { apply Qnot_le_lt. intros Hle. apply Qle_bool_iff in Hle. congruence. }
    assert (Qeq_bool s 0 = false) as ->.
    { destruct (Qeq_bool s 0) eqn:E; [|done]. apply Qeq_bool_iff in E. lra. }
    destruct (of_Q_unit (t / s)) as (f & -> & Hf & _).
    + split.
      * apply Qle_shift_div_l; [done|]. lra.
      * apply Qle_shift_div_r; [done|]. lra.
    + by exists f.
Qed.

(** On counts, the formulas raise nothing and give three floats of [[0, 1]]. *)
Lemma metrics_formulas_unit tp_count fp_count fn_count :
  (0 <= tp_count)%Z -> (0 <= fp_count)%Z -> (0 <= fn_count)%Z ->
  exists p r f,
    (if (0 <? tp_count + fp_count)%Z
     then int_true_div tp_count (tp_count + fp_count) else Some (Finite 0))
    = Some (Finite p) /\
    (if (0 <? tp_count + fn_count)%Z
     then int_true_div tp_count (tp_count + fn_count) else Some (Finite 0))
    = Some (Finite r) /\
    (if gt_zero (add (Finite p) (Finite r))
     then div (mul (Finite 2) (mul (Finite p) (Finite r))) (add (Finite p) (Finite r))
     else Some (Finite 0)) = Some (Finite f) /\
    metrics_formulas tp_count fp_count fn_count
      = Some (mk_metrics (Finite p) (Finite r) (Finite f)) /\
    0 <= p <= 1 /\ 0 <= r <= 1 /\ 0 <= f <= 1.
Proof.
  intros Htp Hfp Hfn. unfold metrics_formulas.
  assert (exists p,
    (if (0 <? tp_count + fp_count)%Z
     then int_true_div tp_count (tp_count + fp_count) else Some (Finite 0))
    = Some (Finite p) /\ 0 <= p <= 1 /\ representable p) as (p & Ep & Hp & Rp).
  { destruct (Z.ltb_spec 0 (tp_count + fp_count)).
    - apply int_true_div_unit; lia.
    - exists 0. split_and!; [done|lra|lra|apply representable_0]. }
  assert (exists r,
    (if (0 <? tp_count + fn_count)%Z
     then int_true_div tp_count (tp_count + fn_count) else Some (Finite 0))
    = Some (Finite r) /\ 0 <= r <= 1 /\ representable r) as (r & Er & Hr & Rr).
  { destruct (Z.ltb_spec 0 (tp_count + fn_count)).
    - apply int_true_div_unit; lia.
    - exists 0. split_and!; [done|lra|lra|apply representable_0]. }
  destruct (f1_unit p r Hp Rp Hr Rr) as (f & Ef & Hf).
  exists p, r, f. rewrite Ep, Er. cbn [mbind option_bind]. rewrite Ef. done.
Qed.

End MetricsBounds.

Lemma in_unit_interval_round a :
  in_unit_interval a →
  ∃ a', round_ndigits a 4 = Some a' ∧ in_unit_interval a'.
Proof.
  destruct a as [x| |]; simpl; [|done..]. intros Hx.
  destruct (round_ndigits_unit x Hx) as (y & Hy & Hy01).
  exists (Finite y). split; [exact Hy|exact Hy01].
Qed.

(** Counterexample to C5 as stated: for [tp = 1], [fp = 2], [fn = 0] the
    precision formula gives the double nearest to 1/3, while
    [compute_metrics] returns that value rounded to four decimals, the double
    nearest to 0.3333. *)
Lemma compute_metrics_rounds_one_third :
  0 ≤ 1 ∧ 0 ≤ 2 ∧ 0 ≤ 0 ∧
  precision <$> metrics_formulas 1 2 0
    = Some (Finite (6004799503160661 # 18014398509481984)) ∧
  precision <$> compute_metrics 1 2 0
    = Some (Finite (6004199023210345 # 18014398509481984)) ∧
  ¬ returns_formulas 1 2 0.
Proof.
  split_and!; [lia..|by vm_compute|by vm_compute|].
  intros (m & Hc & Hf & _). rewrite <- Hc in Hf. vm_compute in Hf. discriminate Hf.
Qed.

(** C5 (amended): for all non-negative integer counts tp, fp, fn,
    [compute_metrics] raises nothing and returns the values
    precision = tp / (tp + fp) if tp + fp > 0 else 0.0,
    recall = tp / (tp + fn) if tp + fn > 0 else 0.0 and
    f1 = 2 * precision * recall / (precision + recall) if
    precision + recall > 0 else 0.0, each rounded to four decimal places; all
    three results lie in [[0.0, 1.0]], and all three are 0.0 when
    tp = fp = fn = 0. *)
Theorem compute_metrics_rounded_bounds tp_count fp_count fn_count :
  0 ≤ tp_count → 0 ≤ fp_count → 0 ≤ fn_count →
  ∃ m m',
    metrics_formulas tp_count fp_count fn_count = Some m ∧
    (if 0 <? tp_count + fp_count
     then int_true_div tp_count (tp_count + fp_count)
     else Some (Finite 0)) = Some (precision m) ∧
    (if 0 <? tp_count + fn_count
     then int_true_div tp_count (tp_count + fn_count)
     else Some (Finite 0)) = Some (recall m) ∧
    (if gt_zero (add (precision m) (recall m))
     then div (mul (Finite 2) (mul (precision m) (recall m)))
              (add (precision m) (recall m))
     else Some (Finite 0)) = Some (f1_score m) ∧
    compute_metrics tp_count fp_count fn_count = Some m' ∧
    round_ndigits (precision m) 4 = Some (precision m') ∧
    round_ndigits (recall m) 4 = Some (recall m') ∧
    round_ndigits (f1_score m) 4 = Some (f1_score m') ∧
    in_unit_interval (precision m') ∧ in_unit_interval (recall m') ∧
    in_unit_interval (f1_score m') ∧
    (tp_count = 0 → fp_count = 0 → fn_count = 0 →
     m' = mk_metrics (Finite 0) (Finite 0) (Finite 0)).
Proof.
  intros Htp Hfp Hfn.
  destruct (metrics_formulas_unit tp_count fp_count fn_count Htp Hfp Hfn)
    as (p & r & f & HP & HR & HF & Hm & Hp & Hr & Hf).
  destruct (in_unit_interval_round (Finite p) Hp) as (p' & Ep & Hp').
  destruct (in_unit_interval_round (Finite r) Hr) as (r' & Er & Hr').
  destruct (in_unit_interval_round (Finite f) Hf) as (f' & Ef & Hf').
  exists (mk_metrics (Finite p) (Finite r) (Finite f)), (mk_metrics p' r' f').
  assert (compute_metrics tp_count fp_count fn_count = Some (mk_metrics p' r' f')) as Hc.
  { unfold compute_metrics. rewrite Hm. cbn [mbind option_bind].
    unfold round_metrics. cbn [precision recall f1_score].
    rewrite Ep, Er, Ef. done. }
  cbn [precision recall f1_score]. split_and!; try done.
  intros -> -> ->. vm_compute in Hc. by injection Hc as <- <- <-.
Qed.

Lemma compute_metrics_rounded_bounds_witness :
  ∃ m', compute_metrics 3 1 2 = Some m' ∧
        in_unit_interval (precision m') ∧ in_unit_interval (recall m') ∧
        in_unit_interval (f1_score m').
Proof.
  destruct (compute_metrics_rounded_bounds 3 1 2 ltac:(lia) ltac:(lia) ltac:(lia))
    as (m & m' & _ & _ & _ & _ & Hc & _ & _ & _ & Hp & Hr & Hf & _).
  exists m'. exact (conj Hc (conj Hp (conj Hr Hf))).
Defined.

(** ** The per-category breakdown *)

Import Breakdown.

Section BreakdownLemmas.

Lemma foldl_bump_lookup upd (keys : list string) (m : gmap string counts) k :
  default no_counts (foldl (bump upd) m keys !! k)
  = Nat.iter (length (filter (λ x, x = k) keys)) upd (default no_counts (m !! k)).
Proof.
  revert m. induction keys as [|x keys IH]; intros m; [done|].
  cbn [foldl]. rewrite IH, filter_cons. unfold bump.
  destruct (decide (x = k)) as [->|Hne].
  - rewrite lookup_insert_eq. cbn [length default]. by rewrite Nat.iter_succ_r.
  - by rewrite lookup_insert_ne.
Qed.

Lemma foldl_bump_dom upd (keys : list string) (m : gmap string counts) k :
  is_Some (foldl (bump upd) m keys !! k) ↔ is_Some (m !! k) ∨ k ∈ keys.
Proof.
  revert m. induction keys as [|x keys IH]; intros m; cbn [foldl].
  - rewrite elem_of_nil. tauto.
  - rewrite IH, elem_of_cons. unfold bump.
    destruct (decide (x = k)) as [->|Hne].
    + rewrite lookup_insert_eq. split; [intros _; right; by left|intros _; left; by eexists].
    + rewrite lookup_insert_ne by done. split; [tauto|].
      intros [?|[?|?]]; [tauto|congruence|tauto].
Qed.

Lemma iter_add_TP n c :
  Nat.iter n (λ c, mk_counts (count_TP c + 1) (count_FP c) (count_FN c)) c
  = mk_counts (count_TP c + Z.of_nat n) (count_FP c) (count_FN c).
Proof.
  induction n as [|n IH]; [destruct c; simpl; f_equal; lia|].
  rewrite Nat.iter_succ, IH. simpl. f_equal. lia.
Qed.

Lemma iter_add_FP n c :
  Nat.iter n (λ c, mk_counts (count_TP c) (count_FP c + 1) (count_FN c)) c
  = mk_counts (count_TP c) (count_FP c + Z.of_nat n) (count_FN c).
Proof.
  induction n as [|n IH]; [destruct c; simpl; f_equal; lia|].
  rewrite Nat.iter_succ, IH. simpl. f_equal. lia.
Qed.

Lemma iter_add_FN n c :
  Nat.iter n (λ c, mk_counts (count_TP c) (count_FP c) (count_FN c + 1)) c
  = mk_counts (count_TP c) (count_FP c) (count_FN c + Z.of_nat n).
Proof.
  induction n as [|n IH]; [destruct c; simpl; f_equal; lia|].
  rewrite Nat.iter_succ, IH. simpl. f_equal. lia.
Qed.

Lemma tally_fmap {A} (key : A → string) k (l : list A) :
  Z.of_nat (length (filter (λ x, x = k) (key <$> l))) = tally key k l.
Proof.
  unfold tally. f_equal. induction l as [|x l IH]; [done|].
  rewrite fmap_cons, !filter_cons. destruct (decide (key x = k)); simpl; by rewrite IH.
Qed.

(** After the three loops the entry of a bug type holds the number of TP, FP
    and FN records of that bug type. *)
Lemma group_counts_lookup tp_list fp_list fn_list k :
  default no_counts (group_counts tp_list fp_list fn_list !! k)
  = mk_counts (tally tp_bug_type k tp_list) (tally bug_type k fp_list)
              (tally bug_type k fn_list).
Proof.
  unfold group_counts.
  rewrite <- (foldl_fmap (λ m k, add_FN m k) _ fn_list bug_type).
  rewrite <- (foldl_fmap (λ m k, add_FP m k) _ fp_list bug_type).
  rewrite <- (foldl_fmap (λ m k, add_TP m k) _ tp_list tp_bug_type).
  change (λ m k, add_FN m k)
    with (bump (λ c, mk_counts (count_TP c) (count_FP c) (count_FN c + 1))).
  change (λ m k, add_FP m k)
    with (bump (λ c, mk_counts (count_TP c) (count_FP c + 1) (count_FN c))).
  change (λ m k, add_TP m k)
    with (bump (λ c, mk_counts (count_TP c + 1) (count_FP c) (count_FN c))).
  rewrite !foldl_bump_lookup, lookup_empty. cbn [default].
  rewrite iter_add_TP, iter_add_FP, iter_add_FN, !tally_fmap. simpl.
  f_equal; lia.
Qed.

(** The bug types of the breakdown are those of the records. *)
Lemma group_counts_dom tp_list fp_list fn_list k :
  is_Some (group_counts tp_list fp_list fn_list !! k) ↔
  k ∈ (tp_bug_type <$> tp_list) ++ (bug_type <$> fp_list) ++ (bug_type <$> fn_list).
Proof.
  unfold group_counts.
  rewrite <- (foldl_fmap (λ m k, add_FN m k) _ fn_list bug_type).
  rewrite <- (foldl_fmap (λ m k, add_FP m k) _ fp_list bug_type).
  rewrite <- (foldl_fmap (λ m k, add_TP m k) _ tp_list tp_bug_type).
  change (λ m k, add_FN m k)
    with (bump (λ c, mk_counts (count_TP c) (count_FP c) (count_FN c + 1))).
  change (λ m k, add_FP m k)
    with (bump (λ c, mk_counts (count_TP c) (count_FP c + 1) (count_FN c))).
  change (λ m k, add_TP m k)
    with (bump (λ c, mk_counts (count_TP c + 1) (count_FP c) (count_FN c))).
  rewrite !foldl_bump_dom, lookup_empty, !elem_of_app.
  split; [intros [[[[? [=]]|?]|?]|?]; tauto|tauto].
Qed.

End BreakdownLemmas.

Section BreakdownRows.

#[local] Instance str_le_total : Total str_le.
Proof. intros s1 s2. apply String.leb_total. Qed.

Lemma sorted_keys_Sorted (m : gmap string counts) : Sorted str_le (sorted_keys m).
Proof. apply (Sorted_merge_sort str_le). Qed.

Lemma sorted_keys_NoDup (m : gmap string counts) : NoDup (sorted_keys m).
Proof.
  unfold sorted_keys. rewrite (merge_sort_Permutation str_le).
  apply NoDup_fst_map_to_list.
Qed.

Lemma elem_of_sorted_keys (m : gmap string counts) k :
  k ∈ sorted_keys m ↔ is_Some (m !! k).
Proof.
  unfold sorted_keys. rewrite (merge_sort_Permutation str_le).
  rewrite list_elem_of_fmap. split.
  - intros ([k' c] & -> & Hin). apply elem_of_map_to_list in Hin. by eexists.
  - intros [c Hc]. exists (k, c). split; [done|]. by apply elem_of_map_to_list.
Qed.

(** A row holds the scores that [compute_metrics] returns for its counts. *)
Lemma make_row_compute_metrics name tp fp fn :
  make_row name tp fp fn =
  m ← compute_metrics tp fp fn;
  Some (mk_row name tp fp 0 fn (precision m) (recall m) (f1_score m)).
Proof.
  unfold make_row, compute_metrics, metrics_formulas, round_metrics.
  destruct (if 0 <? tp + fp then _ else _) as [p|]; [|done].
  destruct (if 0 <? tp + fn then _ else _) as [r|]; [|done].
  cbn [mbind option_bind].
  destruct (if gt_zero (add p r) then _ else _) as [f|]; [|done].
  cbn [mbind option_bind precision recall f1_score].
  destruct (round_ndigits p 4) as [p'|]; [|done].
  destruct (round_ndigits r 4) as [r'|]; [|done].
  destruct (round_ndigits f 4) as [f'|]; done.
Qed.

(** What [compute_metrics] returns: the three formulas' values, each rounded
    to four decimals. *)
Lemma compute_metrics_formulas_rounded tp fp fn s :
  compute_metrics tp fp fn = Some s →
  ∃ m, metrics_formulas tp fp fn = Some m ∧
       round_ndigits (precision m) 4 = Some (precision s) ∧
       round_ndigits (recall m) 4 = Some (recall s) ∧
       round_ndigits (f1_score m) 4 = Some (f1_score s).
Proof.
  unfold compute_metrics. destruct (metrics_formulas tp fp fn) as [m|]; [|done].
  cbn [mbind option_bind]. unfold round_metrics.
  destruct (round_ndigits (precision m) 4) as [p'|] eqn:Ep; [|done].
  destruct (round_ndigits (recall m) 4) as [r'|] eqn:Er; [|done].
  destruct (round_ndigits (f1_score m) 4) as [f'|] eqn:Ef; [|done].
  cbn [mbind option_bind]. intros [= <-]. exists m.
  cbn [precision recall f1_score]. by split_and!.
Qed.

Lemma make_row_Some name tp fp fn :
  0 ≤ tp → 0 ≤ fp → 0 ≤ fn →
  ∃ m, compute_metrics tp fp fn = Some m ∧
       make_row name tp fp fn
       = Some (mk_row name tp fp 0 fn (precision m) (recall m) (f1_score m)).
Proof.
  intros Htp Hfp Hfn.
  destruct (metrics_formulas_unit tp fp fn Htp Hfp Hfn)
    as (p & r & f & _ & _ & _ & Hm & Hp & Hr & Hf).
  destruct (in_unit_interval_round (Finite p) Hp) as (p' & Ep & _).
  destruct (in_unit_interval_round (Finite r) Hr) as (r' & Er & _).
  destruct (in_unit_interval_round (Finite f) Hf) as (f' & Ef & _).
  exists (mk_metrics p' r' f').
  assert (compute_metrics tp fp fn = Some (mk_metrics p' r' f')) as Hc.
  { unfold compute_metrics. rewrite Hm. cbn [mbind option_bind].
    unfold round_metrics. cbn [precision recall f1_score].
    by rewrite Ep, Er, Ef. }
  split; [done|]. by rewrite make_row_compute_metrics, Hc.
Qed.

Lemma tally_nonneg {A} (key : A → string) k (l : list A) : 0 ≤ tally key k l.
Proof. unfold tally. lia. Qed.

Lemma sum_cons x l : sum (x :: l) = x + sum l.
Proof.
  unfold sum. cbn [foldl]. rewrite Z.add_0_l.
  assert (∀ a b, foldl Z.add (a + b) l = a + foldl Z.add b l) as Hgen.
  { induction l as [|y l IH]; intros a b; cbn [foldl]; [done|].
    by rewrite <- IH, Z.add_assoc. }
  rewrite <- (Z.add_0_r x) at 1. apply Hgen.
Qed.

(** Summed over a duplicate-free list of bug types that covers the records,
    the tallies count every record once. *)
Lemma sum_tally {A} (key : A → string) (keys : list string) (l : list A) :
  NoDup keys → (∀ x, x ∈ l → key x ∈ keys) →
  sum ((λ k, tally key k l) <$> keys) = Z.of_nat (length l).
Proof.
  intros Hnd. induction l as [|x l IH]; intros Hcover.
  - clear Hnd Hcover. induction keys as [|k keys IHk]; [done|].
    rewrite fmap_cons, sum_cons, IHk. done.
  - cbn [length]. rewrite Nat2Z.inj_succ, <- IH by (intros y Hy; apply Hcover; by right).
    assert (key x ∈ keys) as Hin by (apply Hcover; left).
    clear IH Hcover. revert Hnd Hin.
    induction keys as [|k keys IHk]; intros Hnd Hin; [by apply elem_of_nil in Hin|].
    apply NoDup_cons in Hnd as [Hk Hnd]. rewrite !fmap_cons, !sum_cons.
    unfold tally at 1 3. rewrite filter_cons.
    destruct (decide (key x = k)) as [Heq|Hne].
    + assert (sum ((λ k0, tally key k0 (x :: l)) <$> keys)
              = sum ((λ k0, tally key k0 l) <$> keys)) as ->.
      { f_equal. apply list_fmap_ext. intros i k' Hk'. unfold tally.
        rewrite filter_cons, decide_False; [done|].
        intros Hxk'. apply Hk. rewrite <- Heq, Hxk'. by eapply list_elem_of_lookup_2. }
      cbn [length]. lia.
    + apply elem_of_cons in Hin as [?|Hin]; [done|].
      rewrite (IHk Hnd Hin). lia.
Qed.

Lemma Forall2_fmap_eq {A B C} (g : A → C) (h : B → C) (l : list A) (k : list B) :
  Forall2 (λ x y, h y = g x) l k → h <$> k = g <$> l.
Proof. induction 1 as [|x y l k Hxy _ IH]; [done|]. by rewrite !fmap_cons, Hxy, IH. Qed.

End BreakdownRows.

Section BreakdownTheorem.

Context (tp_list : list tp_record) (fp_list fn_list : list line_record).

Let bug_types := group_counts tp_list fp_list fn_list.

(** What the loop over the sorted bug types appends for [k]. *)
Let row_for (k : string) : option row :=
  let c := default no_counts (bug_types !! k) in
  make_row k (count_TP c) (count_FP c) (count_FN c).

(** The row of a bug type: its three tallies and their scores. *)
Let row_spec (k : string) (r : row) : Prop :=
  Bug_Type r = k ∧
  row_TP r = tally tp_bug_type k tp_list ∧
  row_FP r = tally bug_type k fp_list ∧
  row_FN r = tally bug_type k fn_list ∧
  compute_metrics (row_TP r) (row_FP r) (row_FN r) = Some (row_scores r).

Lemma row_for_spec k : ∃ r, row_for k = Some r ∧ row_spec k r.
Proof.
  unfold row_for, bug_types. rewrite group_counts_lookup. cbn [count_TP count_FP count_FN].
  destruct (make_row_Some k (tally tp_bug_type k tp_list) (tally bug_type k fp_list)
              (tally bug_type k fn_list)) as (m & Hm & Hrow);
    [apply tally_nonneg..|].
  eexists. split; [exact Hrow|]. unfold row_spec, row_scores. simpl.
  destruct m. by split_and!.
Qed.

Lemma rows_spec :
  ∃ rows, mapM row_for (sorted_keys bug_types) = Some rows ∧
          Forall2 row_spec (sorted_keys bug_types) rows.
Proof.
  destruct (mapM_is_Some_2 row_for (sorted_keys bug_types)) as [rows Hrows].
  { apply Forall_forall. intros k _. destruct (row_for_spec k) as (r & Hr & _).
    simpl. by rewrite Hr. }
  exists rows. split; [done|]. apply mapM_Some in Hrows.
  eapply Forall2_impl; [exact Hrows|]. intros k r Hkr. simpl in Hkr.
  destruct (row_for_spec k) as (r' & Hr' & Hspec). by simplify_eq.
Qed.

Lemma covered_tp x : x ∈ tp_list → tp_bug_type x ∈ sorted_keys bug_types.
Proof.
  intros Hx. apply elem_of_sorted_keys, group_counts_dom.
  apply elem_of_app. left. by apply list_elem_of_fmap_2.
Qed.

Lemma covered_fp x : x ∈ fp_list → bug_type x ∈ sorted_keys bug_types.
Proof.
  intros Hx. apply elem_of_sorted_keys, group_counts_dom.
  apply elem_of_app. right. apply elem_of_app. left. by apply list_elem_of_fmap_2.
Qed.

Lemma covered_fn x : x ∈ fn_list → bug_type x ∈ sorted_keys bug_types.
Proof.
  intros Hx. apply elem_of_sorted_keys, group_counts_dom.
  apply elem_of_app. right. apply elem_of_app. right. by apply list_elem_of_fmap_2.
Qed.

Lemma breakdown_rows :
  ∃ rows overall,
    generate_metrics_by_bug_type tp_list fp_list fn_list = Some (rows ++ [overall]) ∧
    Bug_Type <$> rows = sorted_keys bug_types ∧
    (∀ r, r ∈ rows → row_spec (Bug_Type r) r) ∧
    Bug_Type overall = "Overall" ∧
    row_TP overall = sum (row_TP <$> rows) ∧
    row_FP overall = sum (row_FP <$> rows) ∧
    row_FN overall = sum (row_FN <$> rows) ∧
    row_TP overall = Z.of_nat (length tp_list) ∧
    row_FP overall = Z.of_nat (length fp_list) ∧
    row_FN overall = Z.of_nat (length fn_list) ∧
    compute_metrics (row_TP overall) (row_FP overall) (row_FN overall)
      = Some (row_scores overall).
Proof.
  destruct rows_spec as (rows & Hrows & Hspec).
  assert (Bug_Type <$> rows = sorted_keys bug_types) as Hkeys.
  { rewrite <- (list_fmap_id (sorted_keys bug_types)). apply Forall2_fmap_eq.
    eapply Forall2_impl; [exact Hspec|]. by intros k r (? & _). }
  assert (sum (row_TP <$> rows) = Z.of_nat (length tp_list)) as Htp.
  { rewrite <- (sum_tally tp_bug_type (sorted_keys bug_types) tp_list
                  (sorted_keys_NoDup _) covered_tp).
    f_equal. apply Forall2_fmap_eq.
    eapply Forall2_impl; [exact Hspec|]. by intros k r (_ & ? & _). }
  assert (sum (row_FP <$> rows) = Z.of_nat (length fp_list)) as Hfp.
  { rewrite <- (sum_tally bug_type (sorted_keys bug_types) fp_list
                  (sorted_keys_NoDup _) covered_fp).
    f_equal. apply Forall2_fmap_eq.
    eapply Forall2_impl; [exact Hspec|]. by intros k r (_ & _ & ? & _). }
  assert (sum (row_FN <$> rows) = Z.of_nat (length fn_list)) as Hfn.
  { rewrite <- (sum_tally bug_type (sorted_keys bug_types) fn_list
                  (sorted_keys_NoDup _) covered_fn).
    f_equal. apply Forall2_fmap_eq.
    eapply Forall2_impl; [exact Hspec|]. by intros k r (_ & _ & _ & ? & _). }
  destruct (make_row_Some "Overall" (sum (row_TP <$> rows)) (sum (row_FP <$> rows))
              (sum (row_FN <$> rows))) as (m & Hm & Hrow); [lia..|].
  eexists rows, _. split.
  { unfold generate_metrics_by_bug_type. fold bug_types. fold row_for.
    rewrite Hrows. cbn [mbind option_bind]. rewrite Hrow. done. }
  cbn [Bug_Type row_TP row_FP row_FN]. split_and!; try done.
  - intros r Hr. apply list_elem_of_lookup in Hr as [i Hi].
    destruct (Forall2_lookup_r _ _ _ _ _ Hspec Hi) as (k & _ & Hk).
    pose proof Hk as [<- _]. exact Hk.
  - unfold row_scores. simpl. by destruct m.
Qed.

End BreakdownTheorem.

(** Counterexample to C6 as stated: with one TP and two FP records of one bug
    type, the counts of its row and of the 'Overall' row are 1, 2 and 0; the
    precision formula gives the double nearest to 1/3 for these counts, while
    both rows hold that value rounded to four decimals, the double nearest to
    0.3333. *)
Lemma breakdown_rows_round_one_third :
  let tp_list := [mk_tp "C1" "TOD" 5 5 0] in
  let fp_list := [mk_line "C1" "TOD" 3; mk_line "C2" "TOD" 4] in
  (fmap (M := list) (λ r, (Bug_Type r, row_TP r, row_FP r, row_FN r, Precision r)) <$>
     generate_metrics_by_bug_type tp_list fp_list [])
  = Some [("TOD", 1, 2, 0, Finite (6004199023210345 # 18014398509481984));
          ("Overall", 1, 2, 0, Finite (6004199023210345 # 18014398509481984))] ∧
  precision <$> metrics_formulas 1 2 0
    = Some (Finite (6004799503160661 # 18014398509481984)) ∧
  ¬ rows_hold_formulas tp_list fp_list [].
Proof.
  split_and!; [by vm_compute..|].
  intros (rows & Hgen & Hall). vm_compute in Hgen. injection Hgen as <-.
  specialize (Hall _ (list_elem_of_here _ _)). vm_compute in Hall. discriminate Hall.
Qed.

(** C6 (amended): for every comparison result, the per-category breakdown has
    one row per bug type of the TP, FP and FN records (in sorted order), whose
    counts are the numbers of TP, FP and FN records of that bug type and whose
    scores are the values of the three metric formulas for these counts, each
    rounded to four decimal places ([round(x, 4)]); its last row, 'Overall',
    has the sums of the rows' TP, FP and FN counts (the lengths of the three
    lists) and the values of the same formulas for these sums, rounded in the
    same way. The 'Overall' scores are not the average of the per-category
    scores: with one TP of one bug type and three FP of another, the
    per-category precisions are 1.0 and 0.0 and the overall precision is
    0.25. *)
Theorem breakdown_overall_from_sums :
  (∀ (tp_list : list tp_record) (fp_list fn_list : list line_record),
     ∃ (rows : list row) (overall : row),
       generate_metrics_by_bug_type tp_list fp_list fn_list = Some (rows ++ [overall]) ∧
       Sorted str_le (Bug_Type <$> rows) ∧
       NoDup (Bug_Type <$> rows) ∧
       (∀ k : string, k ∈ Bug_Type <$> rows ↔
             k ∈ (tp_bug_type <$> tp_list) ++ (bug_type <$> fp_list)
                 ++ (bug_type <$> fn_list)) ∧
       (∀ r : row, r ∈ rows →
          row_TP r = tally tp_bug_type (Bug_Type r) tp_list ∧
          row_FP r = tally bug_type (Bug_Type r) fp_list ∧
          row_FN r = tally bug_type (Bug_Type r) fn_list ∧
          ∃ m : metrics,
            metrics_formulas (row_TP r) (row_FP r) (row_FN r) = Some m ∧
            round_ndigits (precision m) 4 = Some (Precision r) ∧
            round_ndigits (recall m) 4 = Some (Recall r) ∧
            round_ndigits (f1_score m) 4 = Some (F1_Score r)) ∧
       Bug_Type overall = "Overall" ∧
       row_TP overall = sum (row_TP <$> rows) ∧
       row_FP overall = sum (row_FP <$> rows) ∧
       row_FN overall = sum (row_FN <$> rows) ∧
       row_TP overall = Z.of_nat (length tp_list) ∧
       row_FP overall = Z.of_nat (length fp_list) ∧
       row_FN overall = Z.of_nat (length fn_list) ∧
       ∃ m : metrics,
         metrics_formulas (row_TP overall) (row_FP overall) (row_FN overall) = Some m ∧
         round_ndigits (precision m) 4 = Some (Precision overall) ∧
         round_ndigits (recall m) 4 = Some (Recall overall) ∧
         round_ndigits (f1_score m) 4 = Some (F1_Score overall)) ∧
  (fmap (M := list) Precision <$>
     generate_metrics_by_bug_type
       [mk_tp "C1" "TOD" 5 5 0]
       [mk_line "C1" "DAO" 3; mk_line "C2" "DAO" 4; mk_line "C2" "DAO" 9] [])
  = Some [Finite 0; Finite 1; Finite (1 # 4)].
Proof.
  split; [|by vm_compute].
  intros tp_list fp_list fn_list.
  destruct (breakdown_rows tp_list fp_list fn_list)
    as (rows & overall & Hgen & Hkeys & Hrows & Hname & Hs1 & Hs2 & Hs3 & Hl1 & Hl2 & Hl3 & Hm).
  exists rows, overall. rewrite Hkeys. split_and!; try done.
  - apply sorted_keys_Sorted.
  - apply sorted_keys_NoDup.
  - intros k. rewrite elem_of_sorted_keys. apply group_counts_dom.
  - intros r Hr. destruct (Hrows r Hr) as (_ & ? & ? & ? & Hr_m).
    split_and!; [done..|]. exact (compute_metrics_formulas_rounded _ _ _ _ Hr_m).
  - exact (compute_metrics_formulas_rounded _ _ _ _ Hm).
Qed.

(** ** The helpers of [evaluation_helpers.py] *)

Import Helpers.

Section CoercionLemmas.

Context (todecimal : N → option N).

Lemma coerce_line_number_positive value n :
  coerce_line_number todecimal value = Some n → 0 < n.
Proof.
  unfold coerce_line_number.
  assert (∀ converted : option Z,
    match converted with
    | Some v => if v <=? 0 then None else Some v
    | None => None
    end = Some n → 0 < n) as Hcheck.
  { intros [v|]; [|done]. destruct (Z.leb_spec v 0); [done|]. by intros [= <-]. }
  destruct value; try done; apply Hcheck.
Qed.

Lemma coerce_line_number_float q :
  coerce_line_number todecimal (JFloat (Finite q))
  = let n := Z.quot (Qnum q) (Z.pos (Qden q)) in if n <=? 0 then None else Some n.
Proof. done. Qed.

Lemma coerce_line_number_str s :
  strip s ≠ [] →
  coerce_line_number todecimal (JString s)
  = n ← float_of_str todecimal (strip s) ≫= int_of_float;
    if n <=? 0 then None else Some n.
Proof.
  intros Hs. unfold coerce_line_number. destruct (strip s) as [|c v]; [done|].
  by destruct (float_of_str todecimal (c :: v) ≫= int_of_float).
Qed.

End CoercionLemmas.

(** C10: for every input value (every value of a parsed JSON document: [None],
    a [bool], an [int], a [float], a [str], a [list] or a [dict]),
    [coerce_line_number] returns either [None] or a strictly positive
    integer; a number with a fractional part is truncated toward zero, neither
    rejected nor rounded, both as a [float] and as the text of one: the string
    "1.9" gives 1, the string "0.9" truncates to 0 and gives [None], and
    [True] gives 1. *)
Theorem coerce_line_number_truncates (todecimal : N → option N) :
  (∀ value,
     coerce_line_number todecimal value = None ∨
     ∃ n, 0 < n ∧ coerce_line_number todecimal value = Some n) ∧
  (∀ q,
     coerce_line_number todecimal (JFloat (Finite q))
     = let n := Z.quot (Qnum q) (Z.pos (Qden q)) in
       if n <=? 0 then None else Some n) ∧
  (∀ s, strip s ≠ [] →
     coerce_line_number todecimal (JString s)
     = n ← float_of_str todecimal (strip s) ≫= int_of_float;
       if n <=? 0 then None else Some n) ∧
  (float_of_str todecimal (py "1.9") ≫= int_of_float = Some 1 ∧
   coerce_line_number todecimal (JString (py "1.9")) = Some 1) ∧
  (float_of_str todecimal (py "0.9") ≫= int_of_float = Some 0 ∧
   coerce_line_number todecimal (JString (py "0.9")) = None) ∧
  coerce_line_number todecimal (JBool true) = Some 1.
Proof.
  split_and!.
  - intros value. destruct (coerce_line_number todecimal value) as [n|] eqn:E.
    + right. exists n. split; [|done]. by eapply coerce_line_number_positive.
    + by left.
  - apply coerce_line_number_float.
  - apply coerce_line_number_str.
  - by vm_compute.
  - by vm_compute.
  - by vm_compute.
  - by vm_compute.
  - done.
Qed.

Section RecoveryLemmas.

Context (demjson_decode : option (str → option json)).
Context (unicode_escape : str → option str).

(** An argument that is not a non-empty [str] gives the empty mapping. *)
Lemma extract_json_from_text_not_text (text : json) :
  (∀ s, text = JString s → s = []) →
  extract_json_from_text demjson_decode unicode_escape text = JObject [].
Proof.
  intros Hs. destruct text as [| | | |s| |]; try done.
  by rewrite (Hs s eq_refl).
Qed.

(** When every strategy fails the result is the empty mapping. *)
Lemma recover_from_total_failure (text : str) :
  loads text = None →
  from_markers demjson_decode text = None →
  from_keywords demjson_decode text = None →
  from_braces demjson_decode text = None →
  tolerant demjson_decode text = None →
  recover_from demjson_decode text = JObject [].
Proof.
  intros H1 H2 H3 H4 H5. unfold recover_from. by rewrite H1, H2, H3, H4, H5.
Qed.

(** The direct parse decides the result whenever it succeeds, whatever the
    value is. *)
Lemma recover_from_direct (text : str) v :
  loads text = Some v → recover_from demjson_decode text = v.
Proof. intros H. unfold recover_from. by rewrite H. Qed.

End RecoveryLemmas.

(** C2, at the failing input: for the text "[1, 2]" the direct parse
    succeeds and [extract_json_from_text] returns its result, the list
    [[1, 2]], which is not a mapping. *)
Theorem extract_json_from_text_returns_list
    (demjson_decode : option (str → option json)) (unicode_escape : str → option str) :
  extract_json_from_text demjson_decode unicode_escape (JString (py "[1, 2]"))
    = JArray [JInt 1; JInt 2] ∧
  ¬ is_mapping
      (extract_json_from_text demjson_decode unicode_escape (JString (py "[1, 2]"))).
Proof.
  assert (extract_json_from_text demjson_decode unicode_escape (JString (py "[1, 2]"))
          = JArray [JInt 1; JInt 2]) as -> by (by vm_compute).
  split; [done|]. simpl. tauto.
Qed.



(** ** The JSON scanner never runs out of fuel *)

Section ScannerFuel.

Lemma lstrip_of_length p (s : str) : (length (lstrip_of p s) ≤ length s)%nat.
Proof.
  induction s as [|c s IH]; simpl; [done|]. destruct (p c); simpl; lia.
Qed.

Lemma skip_ws_length (s : str) : (length (skip_ws s) ≤ length s)%nat.
Proof. apply lstrip_of_length. Qed.

Lemma expect_length c (s r : str) : expect c s = Some r → length s = S (length r).
Proof.
  destruct s as [|x s]; simpl; [done|]. destruct (x =? c)%N; [|done].
  by intros [= ->].
Qed.

Lemma take_digits_length (s ds r : str) :
  take_digits s = (ds, r) → (length ds + length r)%nat = length s.
Proof.
  revert ds r. induction s as [|c s IH]; intros ds r; simpl.
  - by intros [= <- <-].
  - destruct (is_digit c).
    + destruct (take_digits s) as [ds' r'] eqn:E. intros [= <- <-].
      simpl. by rewrite (IH ds' r').
    + by intros [= <- <-].
Qed.

Lemma hex4_length (s r : str) u : hex4 s = Some (u, r) → length s = (4 + length r)%nat.
Proof.
  destruct s as [|a [|b [|c [|d s]]]]; simpl; try done.
  destruct (hex_value a), (hex_value b), (hex_value c), (hex_value d); simpl; try done.
  by intros [= _ ->].
Qed.

Lemma scanstring_length fuel acc (s k r : str) :
  scanstring fuel acc s = Some (k, r) → (length r < length s)%nat.
Proof.
  revert acc s. induction fuel as [|fuel IH]; intros acc s; simpl; [done|].
  destruct s as [|c rest]; [done|].
  destruct (c =? 34)%N; [intros [= _ <-]; simpl; lia|].
  destruct (c <=? 31)%N; [done|].
  destruct (c =? 92)%N.
  - destruct rest as [|e rest']; [done|].
    destruct (e =? 117)%N.
    + destruct (hex4 rest') as [[u r0]|] eqn:Eh; simpl; [|done].
      apply hex4_length in Eh.
      assert (∀ acc', scanstring fuel acc' r0 = Some (k, r) →
                (length r < length (c :: e :: rest'))%nat) as Hplain.
      { intros acc' H%IH. simpl. lia. }
      destruct ((55296 <=? u) && (u <=? 56319))%N; [|by apply Hplain].
      destruct (expect 92 r0 ≫= expect 117) as [r'|] eqn:Ee; [|by apply Hplain].
      destruct (hex4 r') as [[u2 r2]|] eqn:Eh2; simpl; [|done].
      destruct ((56320 <=? u2) && (u2 <=? 57343))%N; [|by apply Hplain].
      intros H%IH. apply hex4_length in Eh2.
      destruct (expect 92 r0) as [r1|] eqn:E1; [|done]. simpl in Ee.
      apply expect_length in E1, Ee. simpl. lia.
    + destruct (simple_escape e); simpl; [|done]. intros H%IH. simpl. lia.
  - intros H%IH. simpl. lia.
Qed.

(** The string scanner reads at least one character per step: any fuel that
    covers the length of the text gives the same result. *)
Lemma scanstring_fuel fuel fuel' acc (s : str) :
  (length s ≤ fuel)%nat → (length s ≤ fuel')%nat →
  scanstring fuel acc s = scanstring fuel' acc s.
Proof.
  revert fuel' acc s. induction fuel as [|fuel IH]; intros fuel' acc s Hf Hf'.
  { destruct s; [|simpl in Hf; lia]. by destruct fuel'. }
  destruct fuel' as [|fuel'].
  { destruct s; [done|simpl in Hf'; lia]. }
  simpl. destruct s as [|c rest]; [done|]. simpl in Hf, Hf'.
  destruct (c =? 34)%N; [done|]. destruct (c <=? 31)%N; [done|].
  destruct (c =? 92)%N; [|apply IH; lia].
  destruct rest as [|e rest']; [done|]. simpl in Hf, Hf'.
  destruct (e =? 117)%N.
  - destruct (hex4 rest') as [[u r0]|] eqn:Eh; simpl; [|done].
    apply hex4_length in Eh.
    destruct ((55296 <=? u) && (u <=? 56319))%N; [|apply IH; lia].
    destruct (expect 92 r0 ≫= expect 117) as [r'|] eqn:Ee; [|apply IH; lia].
    destruct (hex4 r') as [[u2 r2]|] eqn:Eh2; simpl; [|done].
    apply hex4_length in Eh2.
    destruct (expect 92 r0) as [r1|] eqn:E1; [|done]. simpl in Ee.
    apply expect_length in E1, Ee.
    destruct ((56320 <=? u2) && (u2 <=? 57343))%N; apply IH; lia.
  - destruct (simple_escape e); simpl; [|done]. apply IH; lia.
Qed.

Lemma match_frac_length (s fs r : str) :
  match_frac s = Some (fs, r) → (length r < length s)%nat.
Proof.
  unfold match_frac. destruct (expect 46 s) as [rest|] eqn:E; simpl; [|done].
  apply expect_length in E.
  destruct (take_digits rest) as [[|d ds] r'] eqn:Et; [done|].
  intros [= <- <-]. apply take_digits_length in Et. simpl in Et. lia.
Qed.

Lemma match_exp_length (s r : str) e :
  match_exp s = Some (e, r) → (length r < length s)%nat.
Proof.
  unfold match_exp.
  destruct (match expect 101 s with Some r0 => Some r0 | None => expect 69 s end)
    as [rest|] eqn:E; simpl; [|done].
  assert (length s = S (length rest)) as Hs.
  { destruct (expect 101 s) as [r0|] eqn:E1.
    - injection E as <-. by apply expect_length in E1.
    - by apply expect_length in E. }
  assert (∀ negative rest', (length rest' ≤ length rest)%nat →
    match take_digits rest' with
    | ([], _) => None
    | (ds, r0) => Some (if negative : bool then - digits_value ds else digits_value ds, r0)
    end = Some (e, r) → (length r < length s)%nat) as Hdigits.
  { intros negative rest' Hle.
    destruct (take_digits rest') as [[|d ds] r'] eqn:Et; [done|].
    intros [= _ <-]. apply take_digits_length in Et. simpl in Et. lia. }
  destruct (expect 45 rest) as [r1|] eqn:E45.
  - apply (Hdigits true r1). apply expect_length in E45. lia.
  - destruct (expect 43 rest) as [r1|] eqn:E43.
    + apply (Hdigits false r1). apply expect_length in E43. lia.
    + by apply (Hdigits false rest).
Qed.

Lemma match_number_length (s r : str) v :
  match_number s = Some (v, r) → (length r < length s)%nat.
Proof.
  unfold match_number.
  destruct (match expect 45 s with Some r0 => (true, r0) | None => (false, s) end)
    as [negative s1] eqn:Es.
  assert (length s1 ≤ length s)%nat as Hs1.
  { destruct (expect 45 s) as [r0|] eqn:E.
    - injection Es as _ <-. apply expect_length in E. lia.
    - by injection Es as _ <-. }
  destruct (take_digits s1) as [[|d ds] r0] eqn:Et; [done|].
  apply take_digits_length in Et. simpl in Et.
  destruct (if (d =? 48)%N then ([], drop 1 s1) else (ds, r0)) as [ds' r'] eqn:Ez.
  assert (length r' < length s1)%nat as Hr'.
  { destruct (d =? 48)%N.
    - injection Ez as _ <-. rewrite length_drop. lia.
    - injection Ez as _ <-. lia. }
  destruct (match match_frac r' with Some x => x | None => ([], r') end)
    as [fs r1] eqn:Ef.
  assert (length r1 ≤ length r')%nat as Hr1.
  { destruct (match_frac r') as [[fs' r1']|] eqn:E.
    - injection Ef as _ <-. apply match_frac_length in E. lia.
    - by injection Ef as _ <-. }
  destruct (match match_exp r1 with
            | Some (e, r2) => (e, r2, true)
            | None => (0, r1, false)
            end) as [[e r2] has_exp] eqn:Ee.
  assert (length r2 ≤ length r1)%nat as Hr2.
  { destruct (match_exp r1) as [[e' r2']|] eqn:E.
    - injection Ee as _ <- _. apply match_exp_length in E. lia.
    - by injection Ee as _ <- _. }
  destruct fs, has_exp; intros [= _ <-]; lia.
Qed.

Lemma startswith_length (sub s : str) :
  startswith sub s = true → (length sub ≤ length s)%nat.
Proof.
  revert s. induction sub as [|a sub IH]; intros [|b s]; simpl; try done; [lia|].
  intros [_ H%IH]%andb_prop. lia.
Qed.

Lemma after_length lit (s r : str) :
  after lit s = Some r → (length r + length (py lit))%nat = length s.
Proof.
  unfold after. destruct (startswith (py lit) s) eqn:E; [|done].
  intros [= <-]. apply startswith_length in E. rewrite length_drop. lia.
Qed.

Lemma progresses_Malformed s : progresses s Malformed.
Proof. split; [done|]. by intros v r. Qed.

Lemma progresses_Scanned s v r : (length r < length s)%nat → progresses s (Scanned v r).
Proof. intros Hr. split; [done|]. by intros v' r' [= _ <-]. Qed.

Lemma progresses_longer s s' res :
  (length s ≤ length s')%nat → progresses s res → progresses s' res.
Proof. intros Hle [Hne Hlt]. split; [done|]. intros v r Hr. specialize (Hlt v r Hr). lia. Qed.

Lemma progresses_of_option s (o : option (json * str)) :
  (∀ v r, o = Some (v, r) → (length r < length s)%nat) → progresses s (of_option o).
Proof.
  intros Ho. destruct o as [[v r]|]; simpl.
  - apply progresses_Scanned. by apply (Ho v r).
  - apply progresses_Malformed.
Qed.

Lemma scan_fuel_sufficient fuel :
  (∀ s, (2 * length s < fuel)%nat → progresses s (scan_once fuel s)) ∧
  (∀ d s, (2 * length s < fuel)%nat → progresses s (scan_members fuel d s)) ∧
  (∀ acc s, (2 * length s + 1 < fuel)%nat → progresses s (scan_items fuel acc s)).
Proof.
  induction fuel as [|fuel (IHonce & IHmembers & IHitems)].
  { split_and!; intros; lia. }
  split_and!.
  - intros s Hfuel. cbn [scan_once]. destruct s as [|c rest]; [apply progresses_Malformed|].
    simpl in Hfuel.
    destruct (c =? 34)%N.
    { apply progresses_of_option. intros v r.
      destruct (scanstring (length rest) [] rest) as [[k r']|] eqn:E; simpl; [|done].
      intros [= _ <-]. apply scanstring_length in E. simpl. lia. }
    pose proof (skip_ws_length rest) as Hws.
    destruct (c =? 123)%N.
    { destruct (expect 125 (skip_ws rest)) as [r|] eqn:E.
      - apply expect_length in E. apply progresses_Scanned. simpl. lia.
      - apply (progresses_longer (skip_ws rest)); [simpl; lia|].
        apply IHmembers. lia. }
    destruct (c =? 91)%N.
    { destruct (expect 93 (skip_ws rest)) as [r|] eqn:E.
      - apply expect_length in E. apply progresses_Scanned. simpl. lia.
      - apply (progresses_longer (skip_ws rest)); [simpl; lia|].
        apply IHitems. lia. }
    destruct (after "null" (c :: rest)) as [r|] eqn:E1.
    { apply after_length in E1. apply progresses_Scanned. simpl in *. lia. }
    destruct (after "true" (c :: rest)) as [r|] eqn:E2.
    { apply after_length in E2. apply progresses_Scanned. simpl in *. lia. }
    destruct (after "false" (c :: rest)) as [r|] eqn:E3.
    { apply after_length in E3. apply progresses_Scanned. simpl in *. lia. }
    destruct (after "NaN" (c :: rest)) as [r|] eqn:E4.
    { apply after_length in E4. apply progresses_Scanned. simpl in *. lia. }
    destruct (after "Infinity" (c :: rest)) as [r|] eqn:E5.
    { apply after_length in E5. apply progresses_Scanned. simpl in *. lia. }
    destruct (after "-Infinity" (c :: rest)) as [r|] eqn:E6.
    { apply after_length in E6. apply progresses_Scanned. simpl in *. lia. }
    apply progresses_of_option. intros v r. apply match_number_length.
  - intros d s Hfuel. cbn [scan_members].
    destruct (expect 34 s) as [rest|] eqn:Eq; [|apply progresses_Malformed].
    apply expect_length in Eq.
    destruct (scanstring (length rest) [] rest) as [[key r]|] eqn:Ek;
      [|apply progresses_Malformed].
    apply scanstring_length in Ek. pose proof (skip_ws_length r) as Hws.
    destruct (expect 58 (skip_ws r)) as [r1|] eqn:Ec; [|apply progresses_Malformed].
    apply expect_length in Ec. pose proof (skip_ws_length r1) as Hws1.
    destruct (IHonce (skip_ws r1) ltac:(lia)) as [Hne Hlt].
    destruct (scan_once fuel (skip_ws r1)) as [v r2| |];
      [|apply progresses_Malformed|done].
    specialize (Hlt v r2 eq_refl). pose proof (skip_ws_length r2) as Hws2.
    destruct (expect 125 (skip_ws r2)) as [r3|] eqn:E1.
    { apply expect_length in E1. apply progresses_Scanned. lia. }
    destruct (expect 44 (skip_ws r2)) as [r3|] eqn:E2; [|apply progresses_Malformed].
    apply expect_length in E2. pose proof (skip_ws_length r3) as Hws3.
    apply (progresses_longer (skip_ws r3)); [lia|]. apply IHmembers. lia.
  - intros acc s Hfuel. cbn [scan_items].
    destruct (IHonce s ltac:(lia)) as [Hne Hlt].
    destruct (scan_once fuel s) as [v r| |]; [|apply progresses_Malformed|done].
    specialize (Hlt v r eq_refl). pose proof (skip_ws_length r) as Hws.
    destruct (expect 93 (skip_ws r)) as [r1|] eqn:E1.
    { apply expect_length in E1. apply progresses_Scanned. lia. }
    destruct (expect 44 (skip_ws r)) as [r1|] eqn:E2; [|apply progresses_Malformed].
    apply expect_length in E2. pose proof (skip_ws_length r1) as Hws1.
    apply (progresses_longer (skip_ws r1)); [lia|]. apply IHitems. lia.
Qed.

(** More fuel does not change a result other than [Exhausted]. *)
Lemma scan_fuel_mono fuel :
  (∀ s, scan_once fuel s ≠ Exhausted → scan_once (S fuel) s = scan_once fuel s) ∧
  (∀ d s, scan_members fuel d s ≠ Exhausted →
          scan_members (S fuel) d s = scan_members fuel d s) ∧
  (∀ acc s, scan_items fuel acc s ≠ Exhausted →
            scan_items (S fuel) acc s = scan_items fuel acc s).
Proof.
  induction fuel as [|fuel (IHonce & IHmembers & IHitems)].
  { split_and!; intros; by simpl in *. }
  set (fuel1 := S fuel) in *.
  assert (∀ s, scan_once fuel s ≠ Exhausted → scan_once fuel1 s = scan_once fuel s)
    as IHonce' by exact IHonce.
  assert (∀ d s, scan_members fuel d s ≠ Exhausted →
                 scan_members fuel1 d s = scan_members fuel d s)
    as IHmembers' by exact IHmembers.
  assert (∀ acc s, scan_items fuel acc s ≠ Exhausted →
                   scan_items fuel1 acc s = scan_items fuel acc s)
    as IHitems' by exact IHitems.
  clear IHonce IHmembers IHitems. split_and!.
  - intros s. unfold fuel1 at 1 3. cbn [scan_once]. destruct s as [|c rest]; [done|].
    destruct (c =? 34)%N; [done|].
    destruct (c =? 123)%N.
    { destruct (expect 125 (skip_ws rest)); [done|]. apply IHmembers'. }
    destruct (c =? 91)%N; [|done].
    destruct (expect 93 (skip_ws rest)); [done|]. apply IHitems'.
  - intros d s. unfold fuel1 at 1 3. cbn [scan_members].
    destruct (expect 34 s) as [rest|]; [|done].
    destruct (scanstring (length rest) [] rest) as [[key r]|]; [|done].
    destruct (expect 58 (skip_ws r)) as [r1|]; [|done].
    intros H.
    assert (scan_once fuel (skip_ws r1) ≠ Exhausted) as Hne.
    { intros E. by rewrite E in H. }
    rewrite (IHonce' _ Hne).
    destruct (scan_once fuel (skip_ws r1)) as [v r2| |]; [|done..].
    destruct (expect 125 (skip_ws r2)); [done|].
    destruct (expect 44 (skip_ws r2)); [|done]. by apply IHmembers'.
  - intros acc s. unfold fuel1 at 1 3. cbn [scan_items]. intros H.
    assert (scan_once fuel s ≠ Exhausted) as Hne.
    { intros E. by rewrite E in H. }
    rewrite (IHonce' _ Hne).
    destruct (scan_once fuel s) as [v r| |]; [|done..].
    destruct (expect 93 (skip_ws r)); [done|].
    destruct (expect 44 (skip_ws r)); [|done]. by apply IHitems'.
Qed.

Lemma scan_once_more_fuel fuel k s :
  scan_once fuel s ≠ Exhausted → scan_once (k + fuel) s = scan_once fuel s.
Proof.
  intros Hne. induction k as [|k IH]; [done|]. rewrite Nat.add_succ_l.
  destruct (scan_fuel_mono (k + fuel)) as (Honce & _ & _).
  rewrite Honce; rewrite IH; done.
Qed.

(** [loads] gives the scanner enough fuel: it returns [None] only for a text
    that the decoder rejects, and more fuel would give the same result. *)
Lemma loads_fuel_sufficient (s : str) :
  scan_once (2 * length s + 2) (skip_ws s) ≠ Exhausted.
Proof.
  pose proof (skip_ws_length s) as Hws.
  destruct (scan_fuel_sufficient (2 * length s + 2)) as (Honce & _ & _).
  destruct (Honce (skip_ws s)) as [Hne _]; [lia|done].
Qed.

Lemma loads_more_fuel (s : str) k :
  scan_once (k + (2 * length s + 2)) (skip_ws s)
  = scan_once (2 * length s + 2) (skip_ws s).
Proof. apply scan_once_more_fuel, loads_fuel_sufficient. Qed.

End ScannerFuel.

(** * Further properties *)

(** ** The match engine: edge cases *)

Section MatchEdges.

Implicit Types (ground_truth llm_findings : list entry).

Lemma filter_all {A} (P : A → Prop) `{∀ x, Decision (P x)} (l : list A) :
  (∀ x, x ∈ l → P x) → filter P l = l.
Proof.
  induction l as [|x l IH]; intros Hall; [done|].
  rewrite filter_cons, decide_True by (apply Hall; left).
  f_equal. apply IH. intros y Hy. apply Hall. by right.
Qed.

Lemma filter_ext_in {A} (P Q : A → Prop) `{∀ x, Decision (P x)} `{∀ x, Decision (Q x)}
    (l : list A) :
  (∀ x, x ∈ l → P x ↔ Q x) → filter P l = filter Q l.
Proof.
  induction l as [|x l IH]; intros Hall; [done|].
  rewrite !filter_cons, IH by (intros y Hy; apply Hall; by right).
  destruct (decide (P x)) as [HP|HP], (decide (Q x)) as [HQ|HQ]; try done;
    apply Hall in HP || apply Hall in HQ; done || left.
Qed.

Lemma filter_fmap {A B} (f : A → B) (P : B → Prop) `{∀ y, Decision (P y)} (l : list A) :
  filter P (f <$> l) = f <$> filter (λ x, P (f x)) l.
Proof.
  induction l as [|x l IH]; [done|]. csimpl.
  rewrite !filter_cons, IH. by destruct (decide (P (f x))).
Qed.

Lemma compare_eta llm_findings ground_truth t :
  compare llm_findings ground_truth t
  = {| TP := TP (compare llm_findings ground_truth t);
       FP := FP (compare llm_findings ground_truth t);
       FN := FN (compare llm_findings ground_truth t) |}.
Proof. done. Qed.

(** When no finding has a truth line of its key within the tolerance, every
    finding is an FP and every ground-truth entry an FN. *)
Lemma compare_no_match llm_findings ground_truth t :
  (∀ c b ln l, (c, b, ln) ∈ llm_findings → (c, b, l) ∈ ground_truth →
               t < Z.abs (l - ln)) →
  compare llm_findings ground_truth t
  = {| TP := []; FP := entry_record <$> llm_findings;
       FN := entry_record <$> ground_truth |}.
Proof.
  intros Hfar.
  assert (∀ finding, finding ∈ llm_findings →
            outcome_of (group_by_key ground_truth) t finding
            = Unmatched (entry_record finding)) as Hout.
  { intros [[c b] ln] Hin. simpl. rewrite bucket_group_by_key.
    rewrite (proj2 (first_within_None ln t (lines_of ground_truth c b))); [done|].
    intros l Hl%elem_of_lines_of. by eapply Hfar. }
  assert (TP (compare llm_findings ground_truth t) = [] ∧
          FP (compare llm_findings ground_truth t) = entry_record <$> llm_findings)
    as [Htp Hfp].
  { destruct (compare_outcomes llm_findings ground_truth t) as [-> ->].
    rewrite !omap_fmap. clear Hfar.
    induction llm_findings as [|finding llm_findings IH]; [done|].
    csimpl. rewrite (Hout finding) by left. simpl.
    destruct IH as [-> ->]; [|done]. intros f Hf. apply Hout. by right. }
  rewrite compare_eta, Htp, Hfp. f_equal.
  unfold compare; simpl. f_equal.
  fold (state_after ground_truth t llm_findings).
  apply filter_all. intros e _.
  rewrite compare_gt_matched. unfold matched_as_tp. rewrite Htp.
  intros (r & Hr & _). by apply elem_of_nil in Hr.
Qed.

(** The first line within the tolerance, in terms of the ground truth itself:
    the entry comes after entries of the same key that are all too far. *)
Lemma first_within_lines_of ground_truth c b ln t tl :
  first_within ln t (lines_of ground_truth c b) = Some tl ↔
  ∃ g1 g2, ground_truth = g1 ++ (c, b, tl) :: g2 ∧
           (∀ l, (c, b, l) ∈ g1 → t < Z.abs (l - ln)) ∧ Z.abs (tl - ln) ≤ t.
Proof.
  induction ground_truth as [|[[c' b'] l'] ground_truth IH].
  - split; [done|]. intros (g1 & g2 & Heq & _). by destruct g1.
  - unfold lines_of. csimpl. fold (lines_of ground_truth c b).
    destruct (decide ((c', b') = (c, b))) as [[= -> ->]|Hne]; simpl.
    + destruct (Z.leb_spec (Z.abs (l' - ln)) t) as [Hle|Hgt].
      * split.
        -- intros [= ->]. exists [], ground_truth. split_and!; [done| |done].
           intros l Hl. by apply elem_of_nil in Hl.
        -- intros (g1 & g2 & Heq & Hfar & Htl). destruct g1 as [|e g1].
           ++ by simplify_eq/=.
           ++ simplify_eq/=. specialize (Hfar l' (list_elem_of_here _ _)). lia.
      * rewrite IH. split.
        -- intros (g1 & g2 & -> & Hfar & Htl). exists ((c, b, l') :: g1), g2.
           split_and!; [done| |done]. intros l [[= ->]|Hl]%elem_of_cons; auto.
        -- intros (g1 & g2 & Heq & Hfar & Htl). destruct g1 as [|e g1].
           ++ simplify_eq/=. lia.
           ++ simplify_eq/=. exists g1, g2. split_and!; [done| |done].
              intros l Hl. apply Hfar. by right.
    + rewrite IH. split.
      * intros (g1 & g2 & -> & Hfar & Htl). exists ((c', b', l') :: g1), g2.
        split_and!; [done| |done]. intros l [[= -> ->]|Hl]%elem_of_cons; [done|auto].
      * intros (g1 & g2 & Heq & Hfar & Htl). destruct g1 as [|e g1].
        -- by simplify_eq/=.
        -- simplify_eq/=. exists g1, g2. split_and!; [done| |done].
           intros l Hl. apply Hfar. by right.
Qed.

(** What one iteration records determines the finding it was run on. *)
Lemma matched_finding_of gt_by_key t finding r :
  matched (outcome_of gt_by_key t finding) = Some r → finding_of r = finding.
Proof.
  destruct finding as [[c b] ln]. simpl.
  destruct (first_within ln t (bucket gt_by_key c b)); simpl; [|done].
  by intros [= <-].
Qed.

Lemma unmatched_entry_record gt_by_key t finding r :
  unmatched (outcome_of gt_by_key t finding) = Some r → r = entry_record finding.
Proof.
  destruct finding as [[c b] ln]. simpl.
  destruct (first_within ln t (bucket gt_by_key c b)); simpl; [done|].
  by intros [= <-].
Qed.

Lemma omap_sublist {A B} (f : A → option B) (g : B → A) (l : list A) :
  (∀ x y, f x = Some y → g y = x) → (g <$> omap f l) `sublist_of` l.
Proof.
  intros Hfg. induction l as [|x l IH]; csimpl; [done|].
  destruct (f x) as [y|] eqn:E; csimpl.
  - rewrite (Hfg x y E). by apply sublist_skip.
  - by apply sublist_cons.
Qed.

End MatchEdges.

Section MatchOrder.

Implicit Types (ground_truth llm_findings : list entry).

Lemma outcomes_Permutation (outcomes : list outcome) (f : outcome → line_record) :
  (∀ o r, matched o = Some r → f o = entry_record (finding_of r)) →
  (∀ o r, unmatched o = Some r → f o = r) →
  f <$> outcomes
  ≡ₚ (entry_record ∘ finding_of <$> omap matched outcomes) ++ omap unmatched outcomes.
Proof.
  intros Hm Hu. induction outcomes as [|o outcomes IH]; [done|].
  destruct o as [r|r]; csimpl.
  - rewrite (Hm (Matched r) r eq_refl). by f_equiv.
  - rewrite (Hu (Unmatched r) r eq_refl), IH. by rewrite Permutation_middle.
Qed.

(** The state of the main loop is the one [compare] reads [gt_matched] from. *)
Lemma FN_filter llm_findings ground_truth t :
  FN (compare llm_findings ground_truth t)
  = entry_record <$>
      filter (λ e, e ∉ gt_matched (state_after ground_truth t llm_findings)) ground_truth.
Proof. done. Qed.

Lemma gt_matched_app ground_truth t l1 l2 e :
  e ∈ gt_matched (state_after ground_truth t (l1 ++ l2))
  ↔ e ∈ gt_matched (state_after ground_truth t l1)
    ∨ e ∈ gt_matched (state_after ground_truth t l2).
Proof.
  rewrite !compare_gt_matched. unfold matched_as_tp.
  destruct (compare_outcomes (l1 ++ l2) ground_truth t) as [-> _].
  destruct (compare_outcomes l1 ground_truth t) as [-> _].
  destruct (compare_outcomes l2 ground_truth t) as [-> _].
  rewrite fmap_app, omap_app. setoid_rewrite elem_of_app. naive_solver.
Qed.

Lemma matched_in_ground_truth llm_findings ground_truth t e :
  e ∈ gt_matched (state_after ground_truth t llm_findings) → e ∈ ground_truth.
Proof.
  rewrite compare_gt_matched. intros (r & Hr & <-).
  apply elem_of_TP in Hr as (_ & Hfw & _).
  apply first_within_Some in Hfw as [Hin _]. by apply elem_of_lines_of in Hin.
Qed.

End MatchOrder.

(** X1. When every ground-truth entry that shares the key of a finding lies
    more than the tolerance away from it, [compare] matches nothing: there is
    no TP, every finding is an FP and every ground-truth entry an FN, each in
    its input order. An empty ground truth and an empty list of findings are
    instances. *)
Theorem compare_all_out_of_tolerance llm_findings ground_truth line_tolerance :
  (∀ c b ln l, (c, b, ln) ∈ llm_findings → (c, b, l) ∈ ground_truth →
               line_tolerance < Z.abs (l - ln)) →
  compare llm_findings ground_truth line_tolerance
  = {| TP := []; FP := entry_record <$> llm_findings;
       FN := entry_record <$> ground_truth |}.
Proof. apply compare_no_match. Qed.

Lemma compare_all_out_of_tolerance_witness :
  compare [("C1", "TOD", 10)] [("C1", "TOD", 13); ("C2", "TOD", 10)] 2
  = {| TP := []; FP := [mk_line "C1" "TOD" 10];
       FN := [mk_line "C1" "TOD" 13; mk_line "C2" "TOD" 10] |}.
Proof.
  apply (compare_all_out_of_tolerance
           [("C1", "TOD", 10)] [("C1", "TOD", 13); ("C2", "TOD", 10)] 2).
  intros c b ln l Hf Hg.
  apply list_elem_of_singleton in Hf as [= -> -> ->].
  apply elem_of_cons in Hg as [[= ->]|Hg]; [lia|].
  by apply list_elem_of_singleton in Hg.
Defined.

(** X2. A negative tolerance matches nothing, not even a finding on the very
    line of a ground-truth entry: [abs(truth_ln - ln) <= line_tolerance] is
    never true. *)
Theorem compare_negative_tolerance llm_findings ground_truth line_tolerance :
  line_tolerance < 0 →
  compare llm_findings ground_truth line_tolerance
  = {| TP := []; FP := entry_record <$> llm_findings;
       FN := entry_record <$> ground_truth |}.
Proof. intros Hneg. apply compare_no_match. intros. lia. Qed.

Lemma compare_negative_tolerance_witness :
  compare [("C1", "TOD", 10)] [("C1", "TOD", 10)] (-1)
  = {| TP := []; FP := [mk_line "C1" "TOD" 10]; FN := [mk_line "C1" "TOD" 10] |}.
Proof.
  apply (compare_negative_tolerance [("C1", "TOD", 10)] [("C1", "TOD", 10)] (-1)). lia.
Defined.

(** X3. First fit: a record is in TP exactly when it pairs a finding of the
    input with a ground-truth entry of the same key within the tolerance such
    that every entry of that key which the ground truth iterates earlier is
    out of tolerance, and [diff] is [llm_line - truth_line]. The entry chosen
    is the first in iteration order, whether or not a nearer one follows. *)
Theorem compare_first_fit llm_findings ground_truth line_tolerance r :
  r ∈ TP (compare llm_findings ground_truth line_tolerance) ↔
  finding_of r ∈ llm_findings ∧
  diff r = llm_line r - truth_line r ∧
  ∃ earlier later,
    ground_truth = earlier ++ truth_of r :: later ∧
    (∀ l, (tp_contract r, tp_bug_type r, l) ∈ earlier →
          line_tolerance < Z.abs (l - llm_line r)) ∧
    Z.abs (truth_line r - llm_line r) ≤ line_tolerance.
Proof.
  rewrite elem_of_TP, first_within_lines_of. unfold truth_of. tauto.
Qed.

(** X4. [compare] keeps the input order and loses nothing: the findings of
    the TP records and the FP records are subsequences of the findings, the
    FN records are a subsequence of the ground truth, and the TP and FP
    records together are the findings, each exactly as often as it was
    reported. *)
Theorem compare_keeps_order llm_findings ground_truth line_tolerance :
  let res := compare llm_findings ground_truth line_tolerance in
  (finding_of <$> TP res) `sublist_of` llm_findings ∧
  FP res `sublist_of` (entry_record <$> llm_findings) ∧
  FN res `sublist_of` (entry_record <$> ground_truth) ∧
  entry_record <$> llm_findings
  ≡ₚ (entry_record ∘ finding_of <$> TP res) ++ FP res.
Proof.
  intros res.
  destruct (compare_outcomes llm_findings ground_truth line_tolerance) as [Htp Hfp].
  fold res in Htp, Hfp. rewrite Htp, Hfp. split_and!.
  - rewrite omap_fmap. apply omap_sublist. intros x y. apply matched_finding_of.
  - rewrite omap_fmap.
    rewrite <- (list_fmap_id (omap _ llm_findings)).
    assert (∀ l : list entry,
              (id <$> omap (unmatched ∘ outcome_of (group_by_key ground_truth)
                                          line_tolerance) l)
              `sublist_of` (entry_record <$> l)) as Hsub; [|apply Hsub].
    induction l as [|x l IH]; csimpl; [done|].
    destruct (unmatched _) as [y|] eqn:E; csimpl.
    + apply unmatched_entry_record in E as ->. by apply sublist_skip.
    + by apply sublist_cons.
  - unfold res. rewrite FN_filter. apply fmap_sublist, sublist_filter.
  - rewrite <- outcomes_Permutation
      with (f := λ o, match o with
                      | Matched r => entry_record (finding_of r)
                      | Unmatched r => r
                      end).
    + rewrite <- list_fmap_compose. apply Permutation_refl', list_fmap_ext.
      intros i [[c b] ln] _. simpl.
      by destruct (first_within ln line_tolerance _).
    + by intros [r'|r'] r [= ->].
    + by intros [r'|r'] r [= ->].
Qed.

(** X5. For a ground truth without duplicates (a [set]), the FN records are
    at most as many as the ground-truth entries, and the TP and FN records
    together at least as many: [tp_count + fn_count], the denominator of the
    recall, is never below the size of the ground truth. *)
Theorem compare_covers_ground_truth llm_findings ground_truth line_tolerance :
  NoDup ground_truth →
  let res := compare llm_findings ground_truth line_tolerance in
  (length (FN res) ≤ length ground_truth ≤ length (TP res) + length (FN res))%nat.
Proof.
  intros Hnd res. unfold res at 1 3. rewrite FN_filter, length_fmap.
  set (P := λ e : entry, e ∉ gt_matched (state_after ground_truth line_tolerance llm_findings)).
  pose proof (filter_app_complement P ground_truth) as Hperm.
  apply Permutation_length in Hperm. rewrite length_app in Hperm.
  split; [lia|].
  assert (length (filter (λ e, ¬ P e) ground_truth) ≤ length (TP res))%nat; [|lia].
  rewrite <- (length_fmap truth_of (TP res)).
  apply submseteq_length, NoDup_submseteq; [by apply NoDup_filter|].
  intros e [He _]%list_elem_of_filter. unfold P in He.
  apply dec_stable in He. apply compare_gt_matched in He as (r & Hr & <-).
  apply list_elem_of_fmap. by exists r.
Qed.

Lemma compare_covers_ground_truth_witness :
  let res := compare [("C1", "TOD", 10); ("C1", "TOD", 11)] [("C1", "TOD", 10)] 2 in
  (length (FN res) ≤ 1 ≤ length (TP res) + length (FN res))%nat.
Proof.
  apply (compare_covers_ground_truth
           [("C1", "TOD", 10); ("C1", "TOD", 11)] [("C1", "TOD", 10)] 2).
  apply NoDup_singleton.
Defined.

(** X6. Each finding is judged on its own: the TP and FP records of two runs
    of findings one after the other are those of the first run followed by
    those of the second, and a ground-truth entry is an FN of the whole
    exactly when it is an FN of both runs. Nothing an earlier finding matched
    is withheld from a later one. *)
Theorem compare_app findings1 findings2 ground_truth line_tolerance :
  let res := compare (findings1 ++ findings2) ground_truth line_tolerance in
  let res1 := compare findings1 ground_truth line_tolerance in
  let res2 := compare findings2 ground_truth line_tolerance in
  TP res = TP res1 ++ TP res2 ∧
  FP res = FP res1 ++ FP res2 ∧
  FN res = filter (λ r, r ∈ FN res2) (FN res1).
Proof.
  intros res res1 res2.
  destruct (compare_outcomes (findings1 ++ findings2) ground_truth line_tolerance)
    as [Htp Hfp].
  destruct (compare_outcomes findings1 ground_truth line_tolerance) as [Htp1 Hfp1].
  destruct (compare_outcomes findings2 ground_truth line_tolerance) as [Htp2 Hfp2].
  fold res in Htp, Hfp. fold res1 in Htp1, Hfp1. fold res2 in Htp2, Hfp2.
  rewrite Htp, Hfp, Htp1, Hfp1, Htp2, Hfp2, fmap_app, !omap_app.
  split_and!; [done..|].
  unfold res, res1. rewrite !FN_filter, filter_fmap, list_filter_filter.
  f_equal. apply filter_ext_in. intros e He. rewrite gt_matched_app.
  unfold res2. rewrite elem_of_FN, <- compare_gt_matched. tauto.
Qed.

(** ** The match engine and the iteration order of the ground truth *)

Section Separated.

Implicit Types (ground_truth llm_findings : list entry).

(** Among lines more than [2 * t] apart, at most one is within [t] of [ln]:
    the first fit is the only fit. *)
Lemma first_within_unique ln t lines l :
  (∀ l1 l2, l1 ∈ lines → l2 ∈ lines → l1 ≠ l2 → 2 * t < Z.abs (l1 - l2)) →
  l ∈ lines → Z.abs (l - ln) ≤ t → first_within ln t lines = Some l.
Proof.
  intros Hsep Hl Hle.
  destruct (first_within_is_Some ln t lines l Hl Hle) as [l' Hl'].
  rewrite Hl'. f_equal.
  apply first_within_Some in Hl' as [Hin' Hle'].
  destruct (decide (l' = l)) as [|Hne]; [done|].
  specialize (Hsep l' l Hin' Hl Hne). lia.
Qed.

Lemma first_within_Permutation ln t lines lines' :
  (∀ l1 l2, l1 ∈ lines → l2 ∈ lines → l1 ≠ l2 → 2 * t < Z.abs (l1 - l2)) →
  lines ≡ₚ lines' → first_within ln t lines = first_within ln t lines'.
Proof.
  intros Hsep Hperm.
  destruct (first_within ln t lines) as [l|] eqn:E; symmetry.
  - apply first_within_Some in E as [Hin Hle].
    apply first_within_unique; [|by rewrite <- Hperm|done].
    intros l1 l2. rewrite <- !Hperm. apply Hsep.
  - rewrite first_within_None in E. apply first_within_None.
    intros l Hl. apply E. by rewrite Hperm.
Qed.

Lemma lines_of_Permutation ground_truth ground_truth' c b :
  ground_truth ≡ₚ ground_truth' →
  lines_of ground_truth c b ≡ₚ lines_of ground_truth' c b.
Proof. intros Hperm. unfold lines_of. by rewrite Hperm. Qed.

Lemma well_separated_lines_of ground_truth t c b l1 l2 :
  well_separated ground_truth t →
  l1 ∈ lines_of ground_truth c b → l2 ∈ lines_of ground_truth c b →
  l1 ≠ l2 → 2 * t < Z.abs (l1 - l2).
Proof. rewrite !elem_of_lines_of. intros Hsep. apply Hsep. Qed.

Lemma outcome_of_Permutation ground_truth ground_truth' t finding :
  well_separated ground_truth t → ground_truth ≡ₚ ground_truth' →
  outcome_of (group_by_key ground_truth) t finding
  = outcome_of (group_by_key ground_truth') t finding.
Proof.
  intros Hsep Hperm. destruct finding as [[c b] ln]. simpl.
  rewrite !bucket_group_by_key.
  rewrite (first_within_Permutation ln t _ (lines_of ground_truth' c b)); [done| |].
  - intros l1 l2. by apply well_separated_lines_of.
  - by apply lines_of_Permutation.
Qed.

End Separated.

(** X7. When the ground-truth entries of each key lie more than twice the
    tolerance apart, the result does not depend on the order in which the
    ground-truth [set] is iterated: two iteration orders give the same TP and
    FP lists and the same FN records (in the order of the iteration). *)
Theorem compare_iteration_order llm_findings ground_truth ground_truth' line_tolerance :
  well_separated ground_truth line_tolerance →
  ground_truth ≡ₚ ground_truth' →
  TP (compare llm_findings ground_truth line_tolerance)
  = TP (compare llm_findings ground_truth' line_tolerance) ∧
  FP (compare llm_findings ground_truth line_tolerance)
  = FP (compare llm_findings ground_truth' line_tolerance) ∧
  FN (compare llm_findings ground_truth line_tolerance)
  ≡ₚ FN (compare llm_findings ground_truth' line_tolerance).
Proof.
  intros Hsep Hperm.
  assert (TP (compare llm_findings ground_truth line_tolerance)
          = TP (compare llm_findings ground_truth' line_tolerance) ∧
          FP (compare llm_findings ground_truth line_tolerance)
          = FP (compare llm_findings ground_truth' line_tolerance)) as [Htp Hfp].
  { destruct (compare_outcomes llm_findings ground_truth line_tolerance) as [-> ->].
    destruct (compare_outcomes llm_findings ground_truth' line_tolerance) as [-> ->].
    assert (outcome_of (group_by_key ground_truth) line_tolerance <$> llm_findings
            = outcome_of (group_by_key ground_truth') line_tolerance <$> llm_findings)
      as ->; [|done].
    apply list_fmap_ext. intros i finding _. by apply outcome_of_Permutation. }
  split_and!; [done..|].
  rewrite !FN_filter. apply fmap_Permutation.
  rewrite <- Hperm. apply Permutation_refl', filter_ext_in. intros e _.
  rewrite !compare_gt_matched. unfold matched_as_tp. by rewrite Htp.
Qed.

Lemma compare_iteration_order_witness :
  let llm_findings := [("C1", "TOD", 12); ("C1", "TOD", 31)] in
  let ground_truth := [("C1", "TOD", 10); ("C1", "TOD", 30); ("C1", "DAO", 12)] in
  let ground_truth' := [("C1", "DAO", 12); ("C1", "TOD", 30); ("C1", "TOD", 10)] in
  TP (compare llm_findings ground_truth 2) = TP (compare llm_findings ground_truth' 2) ∧
  FP (compare llm_findings ground_truth 2) = FP (compare llm_findings ground_truth' 2) ∧
  FN (compare llm_findings ground_truth 2) ≡ₚ FN (compare llm_findings ground_truth' 2).
Proof.
  apply (compare_iteration_order
           [("C1", "TOD", 12); ("C1", "TOD", 31)]
           [("C1", "TOD", 10); ("C1", "TOD", 30); ("C1", "DAO", 12)]
           [("C1", "DAO", 12); ("C1", "TOD", 30); ("C1", "TOD", 10)] 2).
  - intros c b l1 l2 H1 H2 Hne.
    repeat (apply elem_of_cons in H1 as [H1|H1]; [|]);
      try (by apply elem_of_nil in H1);
      repeat (apply elem_of_cons in H2 as [H2|H2]; [|]);
      try (by apply elem_of_nil in H2);
      simplify_eq; lia.
  - rewrite (Permutation_swap _ _ [_]).
    change ([("C1", "TOD", 30); ("C1", "TOD", 10); ("C1", "DAO", 12)])
      with ([("C1", "TOD", 30); ("C1", "TOD", 10)] ++ [("C1", "DAO", 12)]).
    rewrite Permutation_app_comm. done.
Defined.

(** ** Floats: rounding depends on the value only *)

Section FloatValues.

Local Open Scope Q_scope.

Lemma floor_log2_unique x e :
  0 < x -> 2 ^ e <= x -> x < 2 ^ (e + 1) -> floor_log2 x = e.
Proof.
  intros Hx Hlo Hhi. destruct (floor_log2_spec x Hx) as [Hlo' Hhi'].
  destruct (Z.lt_trichotomy (floor_log2 x) e) as [Hlt|[Heq|Hgt]]; [|done|].
  - pose proof (pow2_le (floor_log2 x + 1) e ltac:(lia)). lra.
  - pose proof (pow2_le (e + 1) (floor_log2 x) ltac:(lia)). lra.
Qed.

Lemma floor_log2_proper x y : 0 < x -> x == y -> floor_log2 x = floor_log2 y.
Proof.
  intros Hx Heq. symmetry. destruct (floor_log2_spec x Hx) as [Hlo Hhi].
  apply floor_log2_unique; lra.
Qed.

Lemma round_half_even_proper x y : x == y -> round_half_even x = round_half_even y.
Proof.
  intros Heq. unfold round_half_even.
  rewrite (Qfloor_comp x y Heq).
  assert ((x - inject_Z (Qfloor y) ?= 1 # 2) = (y - inject_Z (Qfloor y) ?= 1 # 2)) as ->;
    [|done].
  apply Qcompare_comp; [|reflexivity]. by rewrite Heq.
Qed.

Lemma round_positive_proper x y : 0 < x -> x == y -> round_positive x = round_positive y.
Proof.
  intros Hx Heq. unfold round_positive, ulp_exponent.
  rewrite (floor_log2_proper x y Hx Heq).
  set (s := Z.max (floor_log2 y - 52) (-1074)).
  rewrite (round_half_even_proper (x / 2 ^ s) (y / 2 ^ s)); [done|].
  by rewrite Heq.
Qed.

(** Two fractions of the same value round to the same double. *)
Lemma of_Q_proper x y : x == y -> of_Q x = of_Q y.
Proof.
  intros Heq. unfold of_Q.
  assert (Qeq_bool x 0 = Qeq_bool y 0) as E0.
  { apply eq_true_iff_eq. rewrite !Qeq_bool_iff. by rewrite Heq. }
  rewrite <- E0. destruct (Qeq_bool x 0) eqn:E; [done|].
  apply Qeq_bool_neq in E.
  assert (Qle_bool x 0 = Qle_bool y 0) as <-.
  { apply eq_true_iff_eq. rewrite !Qle_bool_iff. by rewrite Heq. }
  rewrite (round_positive_proper (Qabs x) (Qabs y)); [done| |by rewrite Heq].
  destruct (Qlt_le_dec 0 x) as [Hpos|Hneg].
  - rewrite Qabs_pos; lra.
  - rewrite Qabs_neg; lra.
Qed.

(** A value that is a double is not changed by rounding. *)
Lemma of_Q_exact d :
  0 <= d -> representable d -> d < 2 ^ 1024 -> of_Q d = Finite (Qred d).
Proof.
  intros H0 Hrep Hmax.
  destruct (of_Q_between d d d) as (y & Hy & Hlo & Hhi & _); [lra..|done|done|done|].
  rewrite Hy. f_equal. revert Hy. unfold of_Q.
  destruct (Qeq_bool d 0) eqn:E0.
  - intros [= <-]. apply Qeq_bool_iff in E0. symmetry.
    change 0 with (Qred 0). by apply Qred_complete.
  - destruct (Qle_bool (2 ^ 1024) _); [done|]. intros [= <-].
    apply Qred_complete.
    set (z := if Qle_bool d 0 then _ else _) in *.
    pose proof (Qred_correct z). lra.
Qed.

Lemma of_Q_one x : x == 1 -> of_Q x = Finite 1.
Proof.
  intros Hx. rewrite (of_Q_proper x 1 Hx). by vm_compute.
Qed.

Lemma of_Q_zero x : x == 0 -> of_Q x = Finite 0.
Proof.
  intros Hx. rewrite (of_Q_proper x 0 Hx). by vm_compute.
Qed.

Lemma add_comm a b : add a b = add b a.
Proof.
  destruct a as [x|s|], b as [y|s'|]; simpl; try done.
  - apply of_Q_proper. ring.
  - by destruct s, s'.
Qed.

Lemma mul_comm a b : mul a b = mul b a.
Proof.
  destruct a as [x|s|], b as [y|s'|]; simpl; try done.
  - apply of_Q_proper. ring.
  - by destruct s, s'.
Qed.

End FloatValues.

(** ** The metrics calculator: degenerate and perfect counts *)

Section MetricsEdges.

Lemma int_true_div_zero b : b ≠ 0 → int_true_div 0 b = Some (Finite 0).
Proof.
  intros Hb. unfold int_true_div. rewrite (proj2 (Z.eqb_neq b 0) Hb).
  rewrite of_Q_zero; [done|]. unfold Qdiv. by rewrite Qmult_0_l.
Qed.

Lemma int_true_div_same a : a ≠ 0 → int_true_div a a = Some (Finite 1).
Proof.
  intros Ha. unfold int_true_div. rewrite (proj2 (Z.eqb_neq a 0) Ha).
  rewrite of_Q_one; [done|]. apply Qmult_inv_r.
  intros H0. apply Ha. unfold Qeq in H0. simpl in H0. lia.
Qed.

Lemma quotient_zero b :
  (if 0 <? 0 + b then int_true_div 0 (0 + b) else Some (Finite 0)) = Some (Finite 0).
Proof.
  destruct (Z.ltb_spec 0 (0 + b)); [|done]. apply int_true_div_zero. lia.
Qed.

Lemma quotient_one a :
  0 < a →
  (if 0 <? a + 0 then int_true_div a (a + 0) else Some (Finite 0)) = Some (Finite 1).
Proof.
  intros Ha. rewrite Z.add_0_r, (proj2 (Z.ltb_lt 0 a) Ha). apply int_true_div_same. lia.
Qed.

Lemma round_metrics_Some m p r f :
  round_ndigits (precision m) 4 = Some p →
  round_ndigits (recall m) 4 = Some r →
  round_ndigits (f1_score m) 4 = Some f →
  round_metrics m = Some (mk_metrics p r f).
Proof. unfold round_metrics. by intros -> -> ->. Qed.

End MetricsEdges.

(** X8. Without a true positive the three scores are 0.0, whatever the counts
    of FP and FN: the guard [precision + recall > 0] keeps the F1 formula from
    dividing by zero. *)
Theorem compute_metrics_no_true_positive fp_count fn_count :
  compute_metrics 0 fp_count fn_count = Some (mk_metrics (Finite 0) (Finite 0) (Finite 0)).
Proof.
  unfold compute_metrics, metrics_formulas. rewrite !quotient_zero. by vm_compute.
Qed.

(** X9. With at least one true positive, no false positive gives a precision
    of exactly 1.0, no false negative a recall of exactly 1.0, and neither an
    F1 score of exactly 1.0: the quotient [tp / tp] and the rounding to four
    decimals are exact. *)
Theorem compute_metrics_perfect tp_count fp_count fn_count :
  0 < tp_count → 0 ≤ fp_count → 0 ≤ fn_count →
  ∃ m, compute_metrics tp_count fp_count fn_count = Some m ∧
       (fp_count = 0 → precision m = Finite 1) ∧
       (fn_count = 0 → recall m = Finite 1) ∧
       (fp_count = 0 → fn_count = 0 → f1_score m = Finite 1).
Proof.
  intros Htp Hfp Hfn.
  destruct (metrics_formulas_unit tp_count fp_count fn_count ltac:(lia) Hfp Hfn)
    as (p & r & f & HP & HR & HF & Hm & Hp & Hr & Hf).
  destruct (in_unit_interval_round (Finite p) Hp) as (p' & Ep & _).
  destruct (in_unit_interval_round (Finite r) Hr) as (r' & Er & _).
  destruct (in_unit_interval_round (Finite f) Hf) as (f' & Ef & _).
  exists (mk_metrics p' r' f'). unfold compute_metrics. rewrite Hm.
  cbn [mbind option_bind precision recall f1_score].
  split; [by apply round_metrics_Some|].
  assert (fp_count = 0 → p = 1%Q) as Hp1.
  { intros ->. rewrite quotient_one in HP by done. by injection HP as <-. }
  assert (fn_count = 0 → r = 1%Q) as Hr1.
  { intros ->. rewrite quotient_one in HR by done. by injection HR as <-. }
  split_and!.
  - intros H0. rewrite (Hp1 H0) in Ep. vm_compute in Ep. by injection Ep as <-.
  - intros H0. rewrite (Hr1 H0) in Er. vm_compute in Er. by injection Er as <-.
  - intros H0 H0'. rewrite (Hp1 H0), (Hr1 H0') in HF. vm_compute in HF.
    injection HF as <-. vm_compute in Ef. by injection Ef as <-.
Qed.

Lemma compute_metrics_perfect_witness :
  ∃ m, compute_metrics 7 0 0 = Some m ∧
       precision m = Finite 1 ∧ recall m = Finite 1 ∧ f1_score m = Finite 1.
Proof.
  destruct (compute_metrics_perfect 7 0 0 ltac:(lia) ltac:(lia) ltac:(lia))
    as (m & Hm & Hp & Hr & Hf).
  exists m. exact (conj Hm (conj (Hp eq_refl) (conj (Hr eq_refl) (Hf eq_refl eq_refl)))).
Defined.

(** X10. Exchanging the counts of FP and FN exchanges precision and recall
    and leaves the F1 score as it is, for all integer counts, including those
    for which the function raises. *)
Theorem compute_metrics_swap tp_count fp_count fn_count :
  compute_metrics tp_count fn_count fp_count
  = (λ m, mk_metrics (recall m) (precision m) (f1_score m))
      <$> compute_metrics tp_count fp_count fn_count.
Proof.
  unfold compute_metrics, metrics_formulas.
  destruct (if 0 <? tp_count + fp_count then _ else _) as [p|];
    destruct (if 0 <? tp_count + fn_count then _ else _) as [r|];
    cbn [mbind option_bind fmap option_fmap option_map]; try done.
  rewrite (add_comm r p), (mul_comm r p).
  destruct (if gt_zero (add p r) then _ else _) as [f|];
    cbn [mbind option_bind fmap option_fmap option_map]; [|done].
  unfold round_metrics. cbn [precision recall f1_score].
  destruct (round_ndigits p 4) as [p'|], (round_ndigits r 4) as [r'|];
    cbn [mbind option_bind fmap option_fmap option_map]; try done.
  by destruct (round_ndigits f 4).
Qed.

(** ** The breakdown: the names of the rows, and the breakdown of a comparison *)

Section BreakdownNames.

Lemma NoDup_snoc {A} (l : list A) (x : A) : NoDup (l ++ [x]) ↔ (x ∉ l) ∧ NoDup l.
Proof.
  rewrite NoDup_app. split.
  - intros (Hl & Hx & _). split; [|done]. intros Hin. apply (Hx x Hin). left.
  - intros [Hx Hl]. split_and!; [done| |apply NoDup_singleton].
    intros y Hy ->%list_elem_of_singleton. done.
Qed.

End BreakdownNames.

(** X11. The breakdown has one row per distinct bug type of the records and
    the row 'Overall' after them. The name 'Overall' is not reserved: the
    names of the rows are pairwise distinct exactly when no record has the bug
    type 'Overall'; with such a record the breakdown has two rows of that
    name. *)
Theorem breakdown_row_names (tp_list : list tp_record) (fp_list fn_list : list line_record) :
  let bug_types :=
    (tp_bug_type <$> tp_list) ++ (bug_type <$> fp_list) ++ (bug_type <$> fn_list) in
  ∃ rows : list row,
    generate_metrics_by_bug_type tp_list fp_list fn_list = Some rows ∧
    length rows = S (length (remove_dups bug_types)) ∧
    last (Bug_Type <$> rows) = Some "Overall" ∧
    (NoDup (Bug_Type <$> rows) ↔ "Overall" ∉ bug_types).
Proof.
  intros bug_types.
  destruct (breakdown_rows tp_list fp_list fn_list)
    as (rows & overall & Hgen & Hkeys & _ & Hname & _).
  assert (∀ k : string, k ∈ Bug_Type <$> rows ↔ k ∈ bug_types) as Hdom.
  { intros k. rewrite Hkeys, elem_of_sorted_keys. apply group_counts_dom. }
  assert (NoDup (Bug_Type <$> rows)) as Hnd.
  { rewrite Hkeys. apply sorted_keys_NoDup. }
  exists (rows ++ [overall]). split_and!.
  - done.
  - rewrite length_app, Nat.add_1_r. f_equal.
    rewrite <- (length_fmap Bug_Type rows). apply Permutation_length.
    apply NoDup_Permutation; [done|apply NoDup_remove_dups|].
    intros k. rewrite Hdom. by rewrite elem_of_remove_dups.
  - rewrite fmap_app. simpl. by rewrite last_snoc, Hname.
  - rewrite fmap_app. simpl. rewrite Hname, NoDup_snoc, Hdom. tauto.
Qed.

(** X12. The breakdown of a comparison: applied to the three lists that
    [compare] returns, [generate_metrics_by_bug_type] raises nothing; its
    'Overall' row counts every finding once ([TP + FP] is the number of
    findings) and carries the scores that [compute_metrics] gives for the
    lengths of the three lists, and every other row is named after the bug
    type of a finding or of a ground-truth entry. *)
Theorem breakdown_of_compare (llm_findings ground_truth : list entry) (line_tolerance : Z) :
  let res := compare llm_findings ground_truth line_tolerance in
  ∃ (rows : list row) (overall : row),
    generate_metrics_by_bug_type (TP res) (FP res) (FN res) = Some (rows ++ [overall]) ∧
    row_TP overall + row_FP overall = Z.of_nat (length llm_findings) ∧
    compute_metrics (Z.of_nat (length (TP res))) (Z.of_nat (length (FP res)))
                    (Z.of_nat (length (FN res)))
      = Some (row_scores overall) ∧
    (∀ r : row, r ∈ rows →
       Bug_Type r ∈ (λ e : entry, e.1.2) <$> (llm_findings ++ ground_truth)).
Proof.
  intros res.
  destruct (breakdown_rows (TP res) (FP res) (FN res))
    as (rows & overall & Hgen & Hkeys & _ & _ & _ & _ & _ & Hl1 & Hl2 & Hl3 & Hm).
  exists rows, overall. split_and!.
  - done.
  - rewrite Hl1, Hl2, <- Nat2Z.inj_add. f_equal. apply compare_counts.
  - by rewrite <- Hl1, <- Hl2, <- Hl3.
  - intros r Hr.
    assert (Bug_Type r ∈ Bug_Type <$> rows) as Hin by (by apply list_elem_of_fmap_2).
    rewrite Hkeys, elem_of_sorted_keys, group_counts_dom in Hin.
    rewrite fmap_app, elem_of_app.
    apply elem_of_app in Hin as [Hin|Hin]; [|apply elem_of_app in Hin as [Hin|Hin]].
    + left. apply list_elem_of_fmap in Hin as (x & -> & Hx).
      apply elem_of_TP in Hx as (Hx & _).
      apply list_elem_of_fmap. by exists (finding_of x).
    + left. apply list_elem_of_fmap in Hin as (x & -> & Hx).
      destruct (compare_outcomes llm_findings ground_truth line_tolerance) as [_ Hfp].
      fold res in Hfp. rewrite Hfp in Hx.
      apply list_elem_of_omap in Hx as (o & Ho & Hx).
      apply list_elem_of_fmap in Ho as (f & -> & Hf).
      apply unmatched_entry_record in Hx as ->.
      apply list_elem_of_fmap. exists f. split; [|done]. by destruct f as [[c b] l].
    + right. apply list_elem_of_fmap in Hin as (x & -> & Hx).
      unfold res in Hx. rewrite FN_filter in Hx.
      apply list_elem_of_fmap in Hx as (e & -> & He).
      apply list_elem_of_filter in He as [_ He].
      apply list_elem_of_fmap. exists e. split; [|done]. by destruct e as [[c b] l].
Qed.

(** ** The context of a line *)

Import Context.

Section ContextLemmas.

Lemma length_list_slice {A} (l : list A) (a b : Z) :
  0 ≤ a → 0 ≤ b →
  Z.of_nat (length (list_slice l a b)) = Z.max 0 (Z.min (list_len l) b - a).
Proof.
  intros Ha Hb. unfold list_slice, list_clip, list_len.
  rewrite length_drop, length_take.
  rewrite (proj2 (Z.ltb_ge a 0) Ha), (proj2 (Z.ltb_ge b 0) Hb). lia.
Qed.

(** A slice with indices in range is the segment between them. *)
Lemma list_slice_segment {A} (l : list A) (a b : nat) :
  (a ≤ b ≤ length l)%nat →
  list_slice l (Z.of_nat a) (Z.of_nat b) = take (b - a) (drop a l).
Proof.
  intros Hab. unfold list_slice, list_clip, list_len.
  rewrite (proj2 (Z.ltb_ge (Z.of_nat a) 0)), (proj2 (Z.ltb_ge (Z.of_nat b) 0)) by lia.
  rewrite !Z.min_r, !Nat2Z.id by lia.
  by rewrite take_drop_commute, Nat.add_comm, Nat.sub_add by lia.
Qed.

Lemma lstrip_of_twice p s : lstrip_of p (lstrip_of p s) = lstrip_of p s.
Proof.
  induction s as [|c s IH]; [done|]. simpl.
  destruct (p c) eqn:E; [done|]. simpl. by rewrite E.
Qed.

Lemma rstrip_twice s : rstrip (rstrip s) = rstrip s.
Proof.
  unfold rstrip, rstrip_of. by rewrite reverse_involutive, lstrip_of_twice.
Qed.

Lemma lstrip_of_head p s c r : lstrip_of p s = c :: r → p c = false.
Proof.
  induction s as [|x s IH]; [done|]. simpl.
  destruct (p x) eqn:E; [done|]. by intros [= <- _].
Qed.

(** The last character of a right-stripped line is not white space. *)
Lemma rstrip_last s c : last (rstrip s) = Some c → isspace c = false.
Proof.
  unfold rstrip, rstrip_of. rewrite last_reverse.
  destruct (lstrip_of isspace (reverse s)) as [|x r] eqn:E; [done|].
  simpl. intros [= <-]. by eapply lstrip_of_head.
Qed.

Lemma lstrip_of_suffix p s : lstrip_of p s `suffix_of` s.
Proof.
  induction s as [|c s IH]; [done|]. simpl.
  destruct (p c); [by apply suffix_cons_r|done].
Qed.

Lemma rstrip_prefix s : rstrip s `prefix_of` s.
Proof.
  unfold rstrip, rstrip_of.
  destruct (lstrip_of_suffix isspace (reverse s)) as [k Hk].
  exists (reverse k). apply (inj reverse). by rewrite reverse_app, !reverse_involutive.
Qed.

(** No line of [splitlines] holds a line break. *)
Lemma splitlines_from_no_break cur s line c :
  (∀ x, x ∈ cur → is_linebreak x = false) →
  line ∈ splitlines_from cur s → c ∈ line → is_linebreak c = false.
Proof.
  revert cur. induction s as [s IH] using (induction_ltof1 _ (@length N)).
  unfold ltof in IH. intros cur Hcur. destruct s as [|x rest]; cbn [splitlines_from].
  - destruct cur as [|y cur]; [by intros ?%elem_of_nil|].
    intros ->%list_elem_of_singleton Hc. rewrite elem_of_reverse in Hc. by apply Hcur.
  - destruct (is_linebreak x) eqn:E.
    + intros [->|Hin]%elem_of_cons.
      * intros Hc. rewrite elem_of_reverse in Hc. by apply Hcur.
      * revert Hin. destruct rest as [|x' rest'].
        -- cbn [splitlines_from]. by intros ?%elem_of_nil.
        -- destruct ((x =? 13)%N && (x' =? 10)%N).
           ++ apply IH; [simpl; lia|]. by intros ? ?%elem_of_nil.
           ++ apply IH; [simpl; lia|]. by intros ? ?%elem_of_nil.
    + apply IH; [simpl; lia|]. intros y [->|Hy]%elem_of_cons; auto.
Qed.

Lemma splitlines_no_break s line c :
  line ∈ splitlines s → c ∈ line → is_linebreak c = false.
Proof. apply splitlines_from_no_break. by intros ? ?%elem_of_nil. Qed.

Lemma elem_of_list_slice {A} (l : list A) a b x : x ∈ list_slice l a b → x ∈ l.
Proof.
  unfold list_slice. intros Hx.
  eapply elem_of_sublist; [exact Hx|].
  etrans; [apply sublist_drop|apply sublist_take].
Qed.

(** The numbers of lines returned. *)
Lemma extract_context_lengths (code : str) (line_number before after : Z) :
  0 ≤ before → 0 ≤ after →
  let ctx := extract_context_from_code code line_number before after in
  list_len ctx.1 ≤ Z.min before (Z.max 0 (line_number - 1)) ∧
  list_len ctx.2 ≤ Z.min after (Z.max 0 (list_len (splitlines code) - line_number)).
Proof.
  intros Hb Ha. unfold extract_context_from_code. cbn [fst snd].
  set (lines := splitlines code). unfold list_len at 1 2.
  rewrite !length_fmap, !length_list_slice by (unfold list_len; lia).
  unfold list_len. lia.
Qed.

End ContextLemmas.

(** X13. For a line number within the code and non-negative [before] and
    [after], the result is the window around the line: [ctx_before] holds the
    [min(before, line_number - 1)] lines immediately above it and [ctx_after]
    the [min(after, len(lines) - line_number)] lines immediately below it,
    in the order of the code and each right-stripped. The line itself is in
    neither list. *)
Theorem extract_context_window (code : str) (line_number before after : Z) :
  1 ≤ line_number ≤ list_len (splitlines code) → 0 ≤ before → 0 ≤ after →
  ∃ (earlier above : list str) (line : str) (below later : list str),
    splitlines code = earlier ++ above ++ line :: below ++ later ∧
    list_len (earlier ++ above) = line_number - 1 ∧
    list_len above = Z.min before (line_number - 1) ∧
    list_len below = Z.min after (list_len (splitlines code) - line_number) ∧
    extract_context_from_code code line_number before after
    = (rstrip <$> above, rstrip <$> below).
Proof.
  unfold extract_context_from_code, list_len.
  set (lines := splitlines code). intros Hln Hb Ha.
  set (i := Z.to_nat (line_number - 1)).
  set (b := Z.to_nat (Z.min before (line_number - 1))).
  set (a := Z.to_nat (Z.min after (Z.of_nat (length lines) - line_number))).
  assert (i < length lines)%nat as Hi by lia.
  destruct (lookup_lt_is_Some_2 lines i Hi) as [line Hline].
  exists (take (i - b) lines), (take b (drop (i - b) lines)), line,
         (take a (drop (S i) lines)), (drop a (drop (S i) lines)).
  split_and!.
  - rewrite (assoc_L (++)), take_take_drop, take_drop.
    replace (i - b + b)%nat with i by lia.
    rewrite <- (drop_S _ _ _ Hline). by rewrite take_drop.
  - rewrite take_take_drop, length_take. lia.
  - rewrite length_take, length_drop. lia.
  - rewrite length_take, length_drop. lia.
  - replace (Z.max 0 (line_number - 1)) with (Z.of_nat i) by lia.
    replace (Z.max 0 (Z.of_nat i - before)) with (Z.of_nat (i - b)) by lia.
    replace (Z.min (Z.of_nat (length lines)) (Z.of_nat i + after + 1))
      with (Z.of_nat (S i + a)) by lia.
    replace (Z.of_nat i + 1) with (Z.of_nat (S i)) by lia.
    rewrite !list_slice_segment by lia.
    replace (i - (i - b))%nat with b by lia.
    replace (S i + a - S i)%nat with a by lia. done.
Qed.

Lemma extract_context_window_witness :
  ∃ (earlier above : list str) (line : str) (below later : list str),
    splitlines (py "a" ++ [10%N] ++ py "b  " ++ [10%N] ++ py "c")
    = earlier ++ above ++ line :: below ++ later ∧
    list_len (earlier ++ above) = 2 - 1 ∧
    list_len above = Z.min 2 (2 - 1) ∧
    list_len below
    = Z.min 2 (list_len (splitlines (py "a" ++ [10%N] ++ py "b  " ++ [10%N] ++ py "c")) - 2) ∧
    extract_context_from_code (py "a" ++ [10%N] ++ py "b  " ++ [10%N] ++ py "c") 2 2 2
    = (rstrip <$> above, rstrip <$> below).
Proof.
  apply (extract_context_window (py "a" ++ [10%N] ++ py "b  " ++ [10%N] ++ py "c") 2 2 2).
  - by vm_compute.
  - lia.
  - lia.
Defined.

(** X14. For every line number, also one outside the code, and non-negative
    [before] and [after]: [ctx_before] has at most [before] lines and at most
    [line_number - 1], [ctx_after] has at most [after] lines and none when
    the line number is the last line or beyond it; every line returned is the
    beginning of a line of the code, holds no line break and does not end in
    white space. *)
Theorem extract_context_bounds (code : str) (line_number before after : Z) :
  0 ≤ before → 0 ≤ after →
  let ctx := extract_context_from_code code line_number before after in
  list_len ctx.1 ≤ Z.min before (Z.max 0 (line_number - 1)) ∧
  list_len ctx.2 ≤ Z.min after (Z.max 0 (list_len (splitlines code) - line_number)) ∧
  ∀ l : str, l ∈ ctx.1 ++ ctx.2 →
    (∃ full, full ∈ splitlines code ∧ l `prefix_of` full) ∧
    (∀ c, c ∈ l → is_linebreak c = false) ∧
    (∀ c, last l = Some c → isspace c = false).
Proof.
  intros Hb Ha ctx.
  destruct (extract_context_lengths code line_number before after Hb Ha) as [H1 H2].
  split_and!; [exact H1|exact H2|].
  unfold ctx, extract_context_from_code. cbn [fst snd]. set (lines := splitlines code).
  intros l Hl. rewrite <- fmap_app in Hl.
  apply list_elem_of_fmap in Hl as (full & -> & Hfull).
  assert (full ∈ lines) as Hin.
  { apply elem_of_app in Hfull as [H|H]; by apply elem_of_list_slice in H. }
  split_and!.
  - exists full. split; [done|apply rstrip_prefix].
  - intros c Hc. apply (splitlines_no_break code full c Hin).
    destruct (rstrip_prefix full) as [k Hk]. rewrite Hk. apply elem_of_app. by left.
  - apply rstrip_last.
Qed.

Lemma extract_context_bounds_witness :
  let ctx := extract_context_from_code (py "a" ++ [10%N] ++ py "b") 5 2 2 in
  list_len ctx.1 ≤ 2 ∧ list_len ctx.2 ≤ 0.
Proof.
  destruct (extract_context_bounds (py "a" ++ [10%N] ++ py "b") 5 2 2 ltac:(lia) ltac:(lia))
    as (H1 & H2 & _).
  split; [exact H1|exact H2].
Defined.

(** A negative [after] makes the end of the second slice count from the end
    of the code: some lines are returned. *)
Example extract_context_negative_after :
  (extract_context_from_code
     (py "a" ++ [10%N] ++ py "b" ++ [10%N] ++ py "c" ++ [10%N] ++ py "d") 1 2 (-3)).2
  = [py "b"].
Proof. by vm_compute. Qed.

(** ** The tables of bug types *)

Import Mapping.

Section MappingLemmas.

Lemma map_llm_to_subtypes_cases (s : str) :
  map_llm_to_subtypes s = if decide (s = py "Re-entrancy") then py "DAO" else s.
Proof.
  unfold map_llm_to_subtypes. cbn [get].
  destruct (decide (s = py "Re-entrancy")) as [->|H1]; [done|].
  rewrite (decide_False (P := py "Re-entrancy" = s)) by done.
  repeat (case_decide as H; [exact H|clear H]). done.
Qed.

Lemma map_llm_to_severity_cases (s : str) :
  map_llm_to_severity s
  = if decide (s = py "Re-entrancy" ∨ s = py "Unchecked-Send")
    then py "Violation" else py "Warning".
Proof.
  unfold map_llm_to_severity. cbn [get].
  destruct (decide (s = py "Re-entrancy")) as [->|H1]; [done|].
  rewrite (decide_False (P := py "Re-entrancy" = s)) by done.
  destruct (decide (s = py "Unchecked-Send")) as [->|H2]; [done|].
  rewrite (decide_False (P := py "Unchecked-Send" = s)) by done.
  rewrite (decide_False (P := _ ∨ _)) by tauto.
  by repeat case_decide.
Qed.

End MappingLemmas.

(** X15. [map_llm_to_subtypes] changes one bug type only, 'Re-entrancy', which
    becomes 'DAO', and applying it twice is applying it once.
    [map_llm_to_severity] answers 'Violation' for 'Re-entrancy' and
    'Unchecked-Send' and 'Warning' for every other string. The two do not
    commute: the severity of the sub-type of 'Re-entrancy' is 'Warning', so
    the severity has to be taken from the bug type itself. *)
Theorem bug_type_tables (llm_bug_type : str) :
  (map_llm_to_subtypes llm_bug_type ≠ llm_bug_type ↔ llm_bug_type = py "Re-entrancy") ∧
  map_llm_to_subtypes (map_llm_to_subtypes llm_bug_type) = map_llm_to_subtypes llm_bug_type ∧
  (map_llm_to_severity llm_bug_type = py "Violation" ↔
   llm_bug_type = py "Re-entrancy" ∨ llm_bug_type = py "Unchecked-Send") ∧
  (map_llm_to_severity llm_bug_type ≠ py "Violation" →
   map_llm_to_severity llm_bug_type = py "Warning") ∧
  (map_llm_to_severity (map_llm_to_subtypes llm_bug_type) = py "Violation" ↔
   llm_bug_type = py "Unchecked-Send").
Proof.
  rewrite !map_llm_to_severity_cases, !map_llm_to_subtypes_cases.
  destruct (decide (llm_bug_type = py "Re-entrancy")) as [->|H1].
  - split_and!; try done.
    rewrite decide_True by (by left). split; [intros _; by left|done].
  - rewrite (decide_False (P := llm_bug_type = py "Re-entrancy")) by done.
    destruct (decide (llm_bug_type = py "Unchecked-Send")) as [->|H2].
    + split_and!; try done. tauto.
    + rewrite (decide_False (P := _ ∨ _)) by tauto.
      split_and!; try done; try tauto; (split; [done|tauto]).
Qed.

(** ** Line numbers given as text *)

Section DigitStrings.

Context (todecimal : N → option N).

Lemma digit_cases c :
  is_digit c = true → c ∈ [48; 49; 50; 51; 52; 53; 54; 55; 56; 57]%N.
Proof.
  unfold is_digit. intros [H1 H2]%andb_true_iff.
  apply N.leb_le in H1, H2.
  assert (∃ k, (k < 10)%nat ∧ c = N.of_nat (48 + k)) as (k & Hk & ->).
  { exists (N.to_nat c - 48)%nat. lia. }
  do 10 (destruct k as [|k]; [set_solver|]). lia.
Qed.

Lemma digit_property (f : N → bool) c :
  forallb f [48; 49; 50; 51; 52; 53; 54; 55; 56; 57]%N = true →
  is_digit c = true → f c = true.
Proof.
  intros Hall Hc%digit_cases. rewrite forallb_forall in Hall.
  apply Hall. by apply list_elem_of_In.
Qed.

Lemma lstrip_of_none p (s : str) :
  Forall (λ c, p c = false) s → lstrip_of p s = s.
Proof. intros [|c s' Hc _]; [done|]. simpl. by rewrite Hc. Qed.

Lemma rstrip_of_none p (s : str) :
  Forall (λ c, p c = false) s → rstrip_of p s = s.
Proof.
  intros Hs. unfold rstrip_of. rewrite lstrip_of_none, reverse_involutive; [done|].
  by apply Forall_reverse.
Qed.

Lemma take_digits_all (s : str) :
  Forall (λ c, is_digit c = true) s → take_digits s = (s, []).
Proof.
  induction 1 as [|c s Hc _ IH]; [done|]. simpl. by rewrite Hc, IH.
Qed.

Lemma to_ascii_ascii (s : str) :
  Forall (λ c, (c <? 127)%N = true) s → to_ascii todecimal s = s.
Proof.
  induction 1 as [|c s Hc _ IH]; [done|]. simpl. by rewrite Hc, IH.
Qed.

Lemma lower_none (s : str) :
  Forall (λ c, ((65 <=? c) && (c <=? 90))%N = false) s → lower s = s.
Proof.
  induction 1 as [|c s Hc _ IH]; [done|]. unfold lower in *. csimpl.
  by rewrite Hc, IH.
Qed.

(** [int(f)] of a float whose value is an integer. *)
Lemma int_of_float_integer q n : (q == inject_Z n)%Q → int_of_float (Finite q) = Some n.
Proof.
  intros Hq. simpl. f_equal. unfold Qeq in Hq. simpl in Hq.
  rewrite Z.mul_1_r in Hq. rewrite Hq. apply Z.quot_mul. lia.
Qed.

Lemma digits_forall (P : N → Prop) (f : N → bool) (s : str) :
  forallb f [48; 49; 50; 51; 52; 53; 54; 55; 56; 57]%N = true →
  (∀ c, f c = true → P c) →
  Forall (λ c, is_digit c = true) s → Forall P s.
Proof.
  intros Hall HP Hs. eapply Forall_impl; [exact Hs|]. intros c Hc.
  apply HP. by eapply digit_property.
Qed.

(** [float] and [int] on a string of decimal digits that denotes a number
    below 2^53. *)
Lemma float_of_digits (s : str) :
  s ≠ [] → Forall (λ c, is_digit c = true) s → 0 ≤ digits_value s < 2 ^ 53 →
  float_of_str todecimal s ≫= int_of_float = Some (digits_value s).
Proof.
  intros Hne Hs Hn. unfold float_of_str.
  rewrite to_ascii_ascii
    by (apply (digits_forall _ (λ c, c <? 127)%N s); [by vm_compute|done|done]).
  rewrite lstrip_of_none, rstrip_of_none
    by (apply (digits_forall _ (λ c, negb (is_ascii_space c)) s);
        [by vm_compute|by intros c ?%negb_true_iff|done]).
  rewrite bool_decide_eq_false_2; last first.
  { intros H0. rewrite Forall_forall in Hs. by specialize (Hs _ H0). }
  rewrite bool_decide_eq_false_2; last first.
  { intros H0. rewrite Forall_forall in Hs. by specialize (Hs _ H0). }
  cbn [mbind option_bind].
  destruct s as [|d s']; [done|].
  apply Forall_cons in Hs as Hs'. destruct Hs' as [Hd _].
  assert (expect 45 (d :: s') = None) as ->.
  { simpl. destruct (N.eqb_spec d 45) as [->|]; [by vm_compute in Hd|done]. }
  assert (expect 43 (d :: s') = None) as ->.
  { simpl. destruct (N.eqb_spec d 43) as [->|]; [by vm_compute in Hd|done]. }
  rewrite lower_none
    by (apply (digits_forall _ (λ c, negb ((65 <=? c) && (c <=? 90)))%N (d :: s'));
        [by vm_compute|by intros c ?%negb_true_iff|done]).
  assert (d ≠ 105%N ∧ d ≠ 110%N) as [Hi Hnn].
  { split; intros ->; by vm_compute in Hd. }
  rewrite !bool_decide_eq_false_2
    by (intros [= ? _]; done).
  cbn [orb]. unfold unsigned_decimal. rewrite take_digits_all by done.
  cbn [expect app float_exponent mbind option_bind].
  unfold decimal_value. rewrite app_nil_r.
  set (n := digits_value (d :: s')) in *.
  rewrite (of_Q_proper _ (inject_Z n)) by (simpl; ring).
  rewrite of_Q_exact.
  - apply int_of_float_integer, Qred_correct.
  - change 0%Q with (inject_Z 0). rewrite <- Zle_Qle. lia.
  - by apply representable_Z.
  - eapply Qlt_le_trans; [|apply (pow2_le 53 1024); lia].
    rewrite (pow2_Z 53) by lia. rewrite <- Zlt_Qlt. lia.
Qed.

End DigitStrings.

Section PaddedDigits.

Lemma lstrip_of_skip p (pre rest : str) :
  Forall (λ c, p c = true) pre → lstrip_of p (pre ++ rest) = lstrip_of p rest.
Proof. induction 1 as [|c pre Hc _ IH]; [done|]. simpl. by rewrite Hc. Qed.

Lemma lstrip_of_stop p (s rest : str) c :
  head s = Some c → p c = false → lstrip_of p (s ++ rest) = s ++ rest.
Proof. destruct s as [|x s]; [done|]. simpl. intros [= ->] ->. done. Qed.

Lemma strip_padded (pre s post : str) :
  Forall (λ c, isspace c = true) pre → Forall (λ c, isspace c = true) post →
  s ≠ [] → Forall (λ c, isspace c = false) s →
  strip (pre ++ s ++ post) = s.
Proof.
  intros Hpre Hpost Hne Hs. unfold strip, lstrip, rstrip, rstrip_of.
  rewrite lstrip_of_skip by done.
  destruct s as [|c s] using rev_ind; [done|]. clear IHs.
  apply Forall_app in Hs as [Hs Hc]. rewrite Forall_singleton in Hc.
  assert (∃ x, head (s ++ [c]) = Some x ∧ isspace x = false) as (x & Hx & Hxs).
  { destruct s as [|x s]; [by exists c|]. exists x. split; [done|].
    by apply Forall_cons in Hs as [? _]. }
  rewrite (lstrip_of_stop isspace (s ++ [c]) post x Hx Hxs).
  rewrite !reverse_app. rewrite lstrip_of_skip by (by apply Forall_reverse).
  rewrite reverse_singleton. cbn [app lstrip_of].
  by rewrite Hc, reverse_cons, reverse_involutive.
Qed.

Lemma digits_value_snoc (s : str) c :
  digits_value (s ++ [c]) = 10 * digits_value s + (Z.of_N c - 48).
Proof. unfold digits_value. by rewrite foldl_snoc. Qed.

Lemma digits_value_nonneg (s : str) :
  Forall (λ c, is_digit c = true) s → 0 ≤ digits_value s.
Proof.
  induction s as [|c s IH] using rev_ind; [done|].
  intros [Hs Hc]%Forall_app. rewrite Forall_singleton in Hc.
  rewrite digits_value_snoc. specialize (IH Hs).
  unfold is_digit in Hc. apply andb_true_iff in Hc as [Hc _]. apply N.leb_le in Hc. lia.
Qed.

End PaddedDigits.

(** X16. A line number given as text: a string of decimal digits, with white
    space around it or not, that denotes a number [n] below 2^53 is coerced
    to [n] itself when [n > 0], and to [None] when [n = 0]. (The text goes
    through [float]: from 2^53 on, digits can be lost.) *)
Theorem coerce_line_number_digits (todecimal : N → option N) (pre s post : str) :
  Forall (λ c, isspace c = true) pre → Forall (λ c, isspace c = true) post →
  s ≠ [] → Forall (λ c, is_digit c = true) s → digits_value s < 2 ^ 53 →
  coerce_line_number todecimal (JString (pre ++ s ++ post))
  = if digits_value s =? 0 then None else Some (digits_value s).
Proof.
  intros Hpre Hpost Hne Hs Hn.
  pose proof (digits_value_nonneg s Hs) as H0.
  assert (strip (pre ++ s ++ post) = s) as Hstrip.
  { apply strip_padded; try done.
    apply (digits_forall _ (λ c, negb (isspace c)) s);
      [by vm_compute|by intros c ?%negb_true_iff|done]. }
  rewrite coerce_line_number_str by (by rewrite Hstrip).
  rewrite Hstrip, float_of_digits by (done || lia).
  cbn [mbind option_bind].
  destruct (Z.eqb_spec (digits_value s) 0) as [->|Hnz]; [done|].
  by rewrite (proj2 (Z.leb_gt _ _)) by lia.
Qed.

Lemma coerce_line_number_digits_witness :
  coerce_line_number (λ _, None) (JString (py " " ++ py "042" ++ [10%N])) = Some 42.
Proof.
  apply (coerce_line_number_digits (λ _, None) (py " ") (py "042") [10%N]).
  - by repeat constructor.
  - by repeat constructor.
  - done.
  - by repeat constructor.
  - by vm_compute.
Defined.

(** From 2^53 on the conversion through [float] loses digits: the text of
    2^53 + 1 is coerced to 2^53. *)
Example coerce_line_number_beyond_2_53 :
  coerce_line_number (λ _, None) (JString (py "9007199254740993"))
  = Some 9007199254740992.
Proof. by vm_compute. Qed.

(** ** The deduplication of findings *)

Import Dedup.

Section DedupLemmas.

Context (todecimal : N → option N).

Implicit Types (d : list (Z * list (str * json))) (seen rest : list json).

Lemma lookup_line_None d n : lookup_line d n = None ↔ n ∉ d.*1.
Proof.
  induction d as [|[k v] d IH]; simpl.
  - split; [intros _ []%elem_of_nil|done].
  - case_decide as Hk.
    + split; [done|]. intros Hn. exfalso. apply Hn. subst. left.
    + rewrite IH, not_elem_of_cons. naive_solver.
Qed.

Lemma lookup_line_Some d n f : lookup_line d n = Some f → (n, f) ∈ d.
Proof.
  induction d as [|[k v] d IH]; simpl; [done|].
  case_decide as Hk.
  - intros [= ->]. subst. left.
  - intros Hf. right. by apply IH.
Qed.

Lemma replace_line_keys d n x : (replace_line d n x).*1 = d.*1.
Proof.
  induction d as [|[k v] d IH]; [done|]. cbn [replace_line].
  case_decide; [done|]. by rewrite !fmap_cons, IH.
Qed.

Lemma elem_of_replace_line d n x m f :
  NoDup d.*1 → (m, f) ∈ replace_line d n x →
  (m = n ∧ f = x) ∨ (m ≠ n ∧ (m, f) ∈ d).
Proof.
  induction d as [|[k v] d IH]; simpl; [by intros _ ?%elem_of_nil|].
  intros [Hk Hnd]%NoDup_cons. case_decide as Hkn.
  - subst k. intros [[= -> ->]|Hin]%elem_of_cons; [by left|].
    right. split; [|by right]. intros ->. apply Hk.
    apply list_elem_of_fmap. by exists (n, f).
  - intros [[= -> ->]|Hin]%elem_of_cons.
    + right. split; [done|left].
    + destruct (IH Hnd Hin) as [?|[? ?]]; [by left|]. right. split; [done|by right].
Qed.

Lemma first_occurrences_snoc (l : list Z) n :
  first_occurrences (l ++ [n])
  = if decide (n ∈ l) then first_occurrences l else first_occurrences l ++ [n].
Proof.
  unfold first_occurrences. rewrite reverse_app, reverse_singleton. simpl.
  destruct (decide_rel elem_of n (reverse l)) as [Hin|Hin];
    rewrite elem_of_reverse in Hin.
  - by rewrite decide_True.
  - by rewrite decide_False, reverse_cons.
Qed.

Lemma elem_of_first_occurrences (l : list Z) n : n ∈ first_occurrences l ↔ n ∈ l.
Proof.
  unfold first_occurrences. by rewrite elem_of_reverse, elem_of_remove_dups, elem_of_reverse.
Qed.

Lemma NoDup_first_occurrences (l : list Z) : NoDup (first_occurrences l).
Proof.
  unfold first_occurrences. rewrite reverse_Permutation. apply NoDup_remove_dups.
Qed.

Lemma NoDup_fst_unique d n f1 f2 :
  NoDup d.*1 → (n, f1) ∈ d → (n, f2) ∈ d → f1 = f2.
Proof.
  induction d as [|[k v] d IH]; [by intros _ ?%elem_of_nil|].
  rewrite fmap_cons. intros [Hk Hnd]%NoDup_cons.
  assert (∀ f, (k, f) ∈ d → False) as Hno.
  { intros f Hf. apply Hk. apply list_elem_of_fmap. by exists (k, f). }
  intros H1 H2. apply elem_of_cons in H1, H2.
  destruct H1 as [H1|H1], H2 as [H2|H2]; simplify_eq;
    try done; try (exfalso; by eapply Hno). by apply IH.
Qed.

Lemma ranked_below_at_most g f : ranked_below g f → ranked_at_most g f.
Proof. intros (rg & rf & ? & ? & ?). exists rg, rf. split_and!; [done..|lia]. Qed.

(** The invariant of the loop: the dictionary holds the lines of the
    findings seen, in the order of their first occurrence, each with the best
    finding of the line. *)
Lemma dedup_step_invariant seen d x d' :
  d.*1 = first_occurrences (omap (line_of todecimal) seen) →
  (∀ n f, (n, f) ∈ d → best_of todecimal seen n (JObject f)) →
  dedup_step todecimal d x = Some d' →
  d'.*1 = first_occurrences (omap (line_of todecimal) (seen ++ [x])) ∧
  (∀ n f, (n, f) ∈ d' → best_of todecimal (seen ++ [x]) n (JObject f)).
Proof.
  intros Hkeys Hbest Hstep.
  assert (NoDup d.*1) as Hnd by (rewrite Hkeys; apply NoDup_first_occurrences).
  (* a finding that is not filed leaves everything as it is *)
  assert (line_of todecimal x = None → d' = d →
          d'.*1 = first_occurrences (omap (line_of todecimal) (seen ++ [x])) ∧
          (∀ n f, (n, f) ∈ d' → best_of todecimal (seen ++ [x]) n (JObject f))) as Hskip.
  { intros Hx ->.
    assert (omap (line_of todecimal) [x] = []) as Hone.
    { unfold omap. cbn [list_omap]. by rewrite Hx. }
    rewrite omap_app, Hone, app_nil_r. split; [done|].
    intros n f Hin. destruct (Hbest n f Hin) as (l1 & l2 & -> & Hl & H1 & H2).
    exists l1, (l2 ++ [x]). split_and!; [by rewrite <- app_assoc|done|done|].
    intros g [Hg| ->%list_elem_of_singleton]%elem_of_app Hgl; [by apply H2|congruence]. }
  destruct x as [| | | | |items|fields]; try (apply Hskip; [done|by injection Hstep]).
  unfold dedup_step in Hstep.
  change (coerce_line_number todecimal (get fields (py "line_number")))
    with (line_of todecimal (JObject fields)) in Hstep.
  destruct (line_of todecimal (JObject fields)) as [n|] eqn:Hline;
    [|apply Hskip; [done|by injection Hstep]].
  pose proof (coerce_line_number_positive todecimal _ _ Hline) as Hpos.
  rewrite (proj2 (Z.leb_gt n 0)) in Hstep by done.
  assert (omap (line_of todecimal) [JObject fields] = [n]) as Hone.
  { unfold omap. cbn [list_omap]. by rewrite Hline. }
  rewrite omap_app, Hone, first_occurrences_snoc.
  destruct (lookup_line d n) as [existing|] eqn:Hlook.
  - (* the line is present *)
    apply lookup_line_Some in Hlook as Hin.
    assert (n ∈ omap (line_of todecimal) seen) as Hseen.
    { apply elem_of_first_occurrences. rewrite <- Hkeys.
      apply list_elem_of_fmap. by exists (n, existing). }
    rewrite decide_True by done.
    change (conf_order (get_default fields (py "confidence") (JString (py "low"))))
      with (rank_of (JObject fields)) in Hstep.
    change (conf_order (get_default existing (py "confidence") (JString (py "low"))))
      with (rank_of (JObject existing)) in Hstep.
    destruct (rank_of (JObject fields)) as [rn|] eqn:Hrn; [|done].
    destruct (rank_of (JObject existing)) as [re|] eqn:Hre; [|done].
    simpl in Hstep. injection Hstep as <-.
    destruct (Hbest n existing Hin) as (l1 & l2 & Hseq & Hl & H1 & H2).
    destruct (Z.ltb_spec re rn) as [Hlt|Hge]; cbv iota.
    + rewrite replace_line_keys. split; [done|].
      intros m f [[-> ->]|[Hne Hmf]]%elem_of_replace_line; [| |done].
      * exists seen, []. split_and!; [done|done| |by intros g ?%elem_of_nil].
        intros g Hg Hgl. rewrite Hseq in Hg.
        apply elem_of_app in Hg as [Hg|[->|Hg]%elem_of_cons].
        -- destruct (H1 g Hg Hgl) as (rg & rf & ? & ? & ?).
           exists rg, rn. split_and!; [done..|]. simplify_eq. lia.
        -- exists re, rn. by split_and!.
        -- destruct (H2 g Hg Hgl) as (rg & rf & ? & ? & ?).
           exists rg, rn. split_and!; [done..|]. simplify_eq. lia.
      * destruct (Hbest m f Hmf) as (k1 & k2 & -> & Hk & K1 & K2).
        exists k1, (k2 ++ [JObject fields]).
        split_and!; [by rewrite <- app_assoc|done|done|].
        intros g [Hg| ->%list_elem_of_singleton]%elem_of_app Hgl; [by apply K2|congruence].
    + split; [done|]. intros m f Hmf.
      destruct (Hbest m f Hmf) as (k1 & k2 & -> & Hk & K1 & K2).
      exists k1, (k2 ++ [JObject fields]).
      split_and!; [by rewrite <- app_assoc|done|done|].
      intros g [Hg| ->%list_elem_of_singleton]%elem_of_app Hgl; [by apply K2|].
      assert (m = n) as -> by congruence.
      assert (f = existing) as ->.
      { by eapply NoDup_fst_unique. }
      exists rn, re. split_and!; [done..|lia].
  - (* a new line *)
    injection Hstep as <-.
    apply lookup_line_None in Hlook.
    assert (n ∉ omap (line_of todecimal) seen) as Hseen.
    { by rewrite <- elem_of_first_occurrences, <- Hkeys. }
    rewrite decide_False by done. rewrite fmap_app, Hkeys. split; [done|].
    intros m f [Hmf|[= -> ->]%list_elem_of_singleton]%elem_of_app.
    + destruct (Hbest m f Hmf) as (k1 & k2 & -> & Hk & K1 & K2).
      exists k1, (k2 ++ [JObject fields]).
      split_and!; [by rewrite <- app_assoc|done|done|].
      intros g [Hg| ->%list_elem_of_singleton]%elem_of_app Hgl; [by apply K2|].
      exfalso. apply Hlook. assert (m = n) as -> by congruence.
      apply list_elem_of_fmap. by exists (n, f).
    + exists seen, []. split_and!; [done|done| |by intros g ?%elem_of_nil].
      intros g Hg Hgl. exfalso. apply Hseen. apply list_elem_of_omap. by exists g.
Qed.

Lemma dedup_loop_invariant seen d rest d' :
  d.*1 = first_occurrences (omap (line_of todecimal) seen) →
  (∀ n f, (n, f) ∈ d → best_of todecimal seen n (JObject f)) →
  dedup_loop todecimal d rest = Some d' →
  d'.*1 = first_occurrences (omap (line_of todecimal) (seen ++ rest)) ∧
  (∀ n f, (n, f) ∈ d' → best_of todecimal (seen ++ rest) n (JObject f)).
Proof.
  revert seen d. induction rest as [|x rest IH]; intros seen d Hkeys Hbest; simpl.
  - intros [= <-]. by rewrite app_nil_r.
  - destruct (dedup_step todecimal d x) as [d1|] eqn:Hstep; [|done]. simpl.
    intros Hloop.
    destruct (dedup_step_invariant seen d x d1 Hkeys Hbest Hstep) as [Hkeys1 Hbest1].
    rewrite (cons_middle x seen rest), (assoc_L (++)).
    by apply (IH (seen ++ [x]) d1).
Qed.

End DedupLemmas.

Section DedupTheorems.

Context (todecimal : N → option N).

Implicit Types (d : list (Z * list (str * json))) (seen rest : list json).

Lemma best_of_elem_of seen n f : best_of todecimal seen n f → f ∈ seen.
Proof. intros (l1 & l2 & -> & _). apply elem_of_app. right. left. Qed.

Lemma best_of_line seen n f : best_of todecimal seen n f → line_of todecimal f = Some n.
Proof. by intros (l1 & l2 & _ & ? & _). Qed.

(** The dictionary at the end of the loop. *)
Lemma dedup_loop_spec all_findings d :
  dedup_loop todecimal [] all_findings = Some d →
  d.*1 = first_occurrences (omap (line_of todecimal) all_findings) ∧
  (∀ n f, (n, f) ∈ d → best_of todecimal all_findings n (JObject f)).
Proof.
  intros Hloop.
  apply (dedup_loop_invariant todecimal [] [] all_findings d); [done| |done].
  by intros n f ?%elem_of_nil.
Qed.

Lemma deduplicate_Some all_findings final_findings :
  deduplicate todecimal all_findings = Some final_findings →
  ∃ d, dedup_loop todecimal [] all_findings = Some d ∧
       final_findings = (λ item, JObject item.2) <$> d.
Proof.
  unfold deduplicate. destruct (dedup_loop todecimal [] all_findings) as [d|]; [|done].
  intros [= <-]. by exists d.
Qed.

(** The loop raises only when it compares confidences. *)
Lemma dedup_loop_is_Some seen d rest :
  d.*1 = first_occurrences (omap (line_of todecimal) seen) →
  (∀ n f, (n, f) ∈ d → best_of todecimal seen n (JObject f)) →
  (∀ g, g ∈ seen ++ rest → is_Some (line_of todecimal g) → is_Some (rank_of g)) →
  is_Some (dedup_loop todecimal d rest).
Proof.
  revert seen d. induction rest as [|x rest IH]; intros seen d Hkeys Hbest Hranked; [done|].
  cbn [dedup_loop].
  assert (is_Some (dedup_step todecimal d x)) as [d1 Hstep].
  { destruct x as [| | | | |items|fields]; try done. unfold dedup_step.
    change (coerce_line_number todecimal (get fields (py "line_number")))
      with (line_of todecimal (JObject fields)).
    destruct (line_of todecimal (JObject fields)) as [n|] eqn:Hline; [|done].
    destruct (n <=? 0); [done|].
    destruct (lookup_line d n) as [existing|] eqn:Hlook; [|done].
    change (conf_order (get_default fields (py "confidence") (JString (py "low"))))
      with (rank_of (JObject fields)).
    change (conf_order (get_default existing (py "confidence") (JString (py "low"))))
      with (rank_of (JObject existing)).
    destruct (Hranked (JObject fields)) as [rn ->].
    { apply elem_of_app. right. left. }
    { by rewrite Hline. }
    apply lookup_line_Some, Hbest in Hlook.
    destruct (Hranked (JObject existing)) as [re ->]; [| |done].
    - apply elem_of_app. left. by eapply best_of_elem_of.
    - by rewrite (best_of_line _ _ _ Hlook). }
  rewrite Hstep. cbn [mbind option_bind].
  destruct (dedup_step_invariant todecimal seen d x d1 Hkeys Hbest Hstep) as [Hkeys1 Hbest1].
  apply (IH (seen ++ [x]) d1 Hkeys1 Hbest1).
  by rewrite <- (assoc_L (++)).
Qed.

End DedupTheorems.

(** X17. When the deduplication returns, the findings it returns are filed
    under pairwise distinct line numbers: exactly the line numbers that
    [coerce_line_number] gives for the findings gathered, each once, in the
    order of their first occurrence. Every finding returned is one of the
    findings gathered. *)
Theorem deduplicate_lines (todecimal : N → option N) (all_findings final_findings : list json) :
  deduplicate todecimal all_findings = Some final_findings →
  line_of todecimal <$> final_findings
  = Some <$> first_occurrences (omap (line_of todecimal) all_findings) ∧
  NoDup (line_of todecimal <$> final_findings) ∧
  (∀ f, f ∈ final_findings → f ∈ all_findings).
Proof.
  intros (d & Hloop & ->)%deduplicate_Some.
  destruct (dedup_loop_spec todecimal all_findings d Hloop) as [Hkeys Hbest].
  assert (line_of todecimal <$> ((λ item, JObject item.2) <$> d) = Some <$> d.*1) as Hlines.
  { rewrite <- !list_fmap_compose. apply list_fmap_ext. intros i [n f] Hi.
    apply list_elem_of_lookup_2, Hbest in Hi.
    exact (best_of_line todecimal _ _ _ Hi). }
  split_and!.
  - by rewrite Hlines, Hkeys.
  - rewrite Hlines, Hkeys. apply (NoDup_fmap_2 _), NoDup_first_occurrences.
  - intros f ([n fields] & -> & Hin)%list_elem_of_fmap. simpl.
    eapply best_of_elem_of. by apply Hbest.
Qed.

Lemma deduplicate_lines_witness :
  let all_findings :=
    [JObject [(py "line_number", JInt 7)]; JString (py "note");
     JObject [(py "line_number", JString (py "3.0"))];
     JObject [(py "line_number", JFloat (Finite (15 # 2)))]] in
  line_of (λ _, None)
    <$> [JObject [(py "line_number", JInt 7)];
         JObject [(py "line_number", JString (py "3.0"))]]
  = Some <$> first_occurrences (omap (line_of (λ _, None)) all_findings).
Proof.
  apply (deduplicate_lines (λ _, None)
           [JObject [(py "line_number", JInt 7)]; JString (py "note");
            JObject [(py "line_number", JString (py "3.0"))];
            JObject [(py "line_number", JFloat (Finite (15 # 2)))]]
           [JObject [(py "line_number", JInt 7)];
            JObject [(py "line_number", JString (py "3.0"))]]).
  by vm_compute.
Defined.

(** X18. The finding returned for a line is the best of the line: among the
    findings gathered for that line, every earlier one has a confidence of
    lower rank ([high] above [medium] above [low] above anything else, a
    missing confidence counting as [low]) and every later one a rank that is
    not higher. Of several findings of the highest rank the first is kept. *)
Theorem deduplicate_keeps_best (todecimal : N → option N)
    (all_findings final_findings : list json) (f : json) :
  deduplicate todecimal all_findings = Some final_findings →
  f ∈ final_findings →
  ∃ n, best_of todecimal all_findings n f.
Proof.
  intros (d & Hloop & ->)%deduplicate_Some ([n fields] & -> & Hin)%list_elem_of_fmap.
  destruct (dedup_loop_spec todecimal all_findings d Hloop) as [_ Hbest].
  exists n. by apply Hbest.
Qed.

Lemma deduplicate_keeps_best_witness :
  let low := JObject [(py "line_number", JInt 7); (py "confidence", JString (py "low"))] in
  let high := JObject [(py "line_number", JInt 7); (py "confidence", JString (py "high"))] in
  let again := JObject [(py "line_number", JString (py "7")); (py "confidence", JString (py "high"))] in
  deduplicate (λ _, None) [low; high; again] = Some [high] ∧
  ∃ n, best_of (λ _, None) [low; high; again] n high.
Proof.
  split; [by vm_compute|].
  apply (deduplicate_keeps_best (λ _, None) _
           [JObject [(py "line_number", JInt 7); (py "confidence", JString (py "high"))]]).
  - by vm_compute.
  - left.
Defined.

(** X19. The deduplication raises nothing when the confidence of every
    finding that has a line number can be hashed (it is not a [list] or a
    [dict]); findings that are not dictionaries or have no valid line number
    are skipped. *)
Theorem deduplicate_returns (todecimal : N → option N) (all_findings : list json) :
  (∀ g, g ∈ all_findings → is_Some (line_of todecimal g) → is_Some (rank_of g)) →
  is_Some (deduplicate todecimal all_findings).
Proof.
  intros Hranked. unfold deduplicate.
  destruct (dedup_loop_is_Some todecimal [] [] all_findings) as [d ->]; try done.
  by intros n f ?%elem_of_nil.
Qed.

Lemma deduplicate_returns_witness :
  is_Some (deduplicate (λ _, None)
             [JObject [(py "line_number", JInt 7); (py "confidence", JInt 3)];
              JObject [(py "confidence", JArray [])]]).
Proof.
  apply (deduplicate_returns (λ _, None)).
  intros g Hg Hline.
  apply elem_of_cons in Hg as [->|Hg]; [by eexists|].
  apply list_elem_of_singleton in Hg as ->.
  destruct Hline as [n Hn]. by vm_compute in Hn.
Defined.

(** Two findings of one line whose confidence is a list: the comparison of
    the ranks raises. *)
Example deduplicate_unhashable_confidence :
  deduplicate (λ _, None)
    [JObject [(py "line_number", JInt 7); (py "confidence", JArray [])];
     JObject [(py "line_number", JInt 7); (py "confidence", JArray [])]]
  = None.
Proof. by vm_compute. Qed.

(** ** Searching a text *)

Section Find.

Implicit Types (sub s : str).

Lemma startswith_prefix sub s : startswith sub s = true ↔ sub `prefix_of` s.
Proof.
  revert s. induction sub as [|a sub IH]; intros s; simpl.
  - split; [intros _; by exists s|done].
  - destruct s as [|b s].
    + split; [done|]. by intros [r [=]].
    + rewrite andb_true_iff, IH, N.eqb_eq. split.
      * intros [-> [r ->]]. by exists r.
      * intros [r [= -> ->]]. split; [done|]. by exists r.
Qed.

(** [sub] occurs in [s] at the index [k]. *)
Lemma find_in_spec sub s (i : Z) :
  let r := find_in sub s i (length s) in
  (r = -1 ∧ ∀ k, (k ≤ length s)%nat → ¬ sub `prefix_of` drop k s) ∨
  (∃ k : nat, r = i + Z.of_nat k ∧ (k ≤ length s)%nat ∧ sub `prefix_of` drop k s ∧
              ∀ k', (k' < k)%nat → ¬ sub `prefix_of` drop k' s).
Proof.
  revert i. induction s as [|c s IH]; intros i; cbn [find_in length].
  - destruct (((length sub <=? 0)%nat && startswith sub [])) eqn:E.
    + right. exists 0%nat. apply andb_true_iff in E as [_ E%startswith_prefix].
      split_and!; [lia|done|done|lia].
    + left. split; [done|]. intros k Hk. assert (k = 0)%nat as -> by lia. simpl.
      intros Hp. apply startswith_prefix in Hp as Hs. rewrite Hs, andb_true_r in E.
      apply Nat.leb_gt in E. apply prefix_length in Hp. simpl in Hp. lia.
  - destruct (((length sub <=? S (length s))%nat && startswith sub (c :: s))) eqn:E.
    + right. exists 0%nat. apply andb_true_iff in E as [_ E%startswith_prefix].
      split_and!; [lia|lia|done|lia].
    + assert (¬ sub `prefix_of` (c :: s)) as Hno.
      { intros Hp. apply startswith_prefix in Hp as Hs. rewrite Hs, andb_true_r in E.
        apply Nat.leb_gt in E. apply prefix_length in Hp. simpl in Hp. lia. }
      destruct (IH (i + 1)) as [[Hr Hall]|(k & Hr & Hk & Hp & Hmin)].
      * left. split; [exact Hr|]. intros [|k] Hk; [exact Hno|]. simpl. apply Hall. lia.
      * right. exists (S k). split_and!; [rewrite Hr; lia|simpl; lia|exact Hp|].
        intros [|k'] Hk'; [exact Hno|]. simpl. apply Hmin. lia.
Qed.

Lemma clip_in_range s (i : nat) : (i ≤ length s)%nat → clip s (Z.of_nat i) = i.
Proof.
  intros Hi. unfold clip, len.
  rewrite (proj2 (Z.ltb_ge (Z.of_nat i) 0)) by lia. lia.
Qed.

(** [s.find(sub, start)] for a start within the text. *)
Lemma find_from_spec sub s (a : nat) :
  (a ≤ length s)%nat →
  let r := find_from sub s (Z.of_nat a) in
  (r = -1 ∧ ∀ k, (a ≤ k ≤ length s)%nat → ¬ sub `prefix_of` drop k s) ∨
  (∃ k : nat, r = Z.of_nat k ∧ (a ≤ k ≤ length s)%nat ∧ sub `prefix_of` drop k s ∧
              ∀ k', (a ≤ k' < k)%nat → ¬ sub `prefix_of` drop k' s).
Proof.
  intros Ha. unfold find_from, find_between.
  rewrite (clip_in_range s a Ha).
  assert (clip s (len s) = length s) as -> by (apply clip_in_range; lia).
  rewrite (proj2 (Z.ltb_ge (Z.of_nat a) 0)) by lia.
  assert ((len s <? Z.of_nat a) = false) as -> by (apply Z.ltb_ge; unfold len; lia).
  rewrite (proj2 (Nat.ltb_ge _ _)) by lia. cbn [orb].
  replace (length s - a)%nat with (length (drop a s)) by (rewrite length_drop; lia).
  destruct (find_in_spec sub (drop a s) (Z.of_nat a)) as [[Hr Hall]|(k & Hr & Hk & Hp & Hmin)].
  - left. split; [done|]. intros k Hk.
    specialize (Hall (k - a)%nat). rewrite length_drop, drop_drop in Hall.
    replace (a + (k - a))%nat with k in Hall by lia. apply Hall. lia.
  - right. exists (a + k)%nat. rewrite length_drop in Hk. rewrite drop_drop in Hp.
    split_and!; [lia|lia|lia|done|]. intros k' Hk'.
    specialize (Hmin (k' - a)%nat). rewrite drop_drop in Hmin.
    replace (a + (k' - a))%nat with k' in Hmin by lia. apply Hmin. lia.
Qed.

Lemma find_spec sub s :
  let r := find sub s in
  (r = -1 ∧ ∀ k, (k ≤ length s)%nat → ¬ sub `prefix_of` drop k s) ∨
  (∃ k : nat, r = Z.of_nat k ∧ (k ≤ length s)%nat ∧ sub `prefix_of` drop k s ∧
              ∀ k', (k' < k)%nat → ¬ sub `prefix_of` drop k' s).
Proof.
  destruct (find_from_spec sub s 0 ltac:(lia)) as [[Hr Hall]|(k & Hr & Hk & Hp & Hmin)].
  - left. split; [done|]. intros k Hk. apply Hall. lia.
  - right. exists k. split_and!; [done|lia|done|]. intros k' Hk'. apply Hmin. lia.
Qed.

(** An occurrence at [k] splits the text. *)
Lemma prefix_of_drop sub s k :
  (k ≤ length s)%nat → sub `prefix_of` drop k s →
  s = take k s ++ sub ++ drop (k + length sub) s.
Proof.
  intros Hk [r Hr]. rewrite <- (take_drop k s) at 1. f_equal.
  rewrite <- drop_drop, Hr. by rewrite drop_app_length.
Qed.

End Find.

(** ** The text between the markers *)

Section Markers.

Lemma slice_segment (s : str) (a b : nat) :
  (a ≤ b ≤ length s)%nat →
  slice s (Z.of_nat a) (Z.of_nat b) = take (b - a) (drop a s).
Proof.
  intros Hab. unfold slice. rewrite !clip_in_range by lia.
  by rewrite take_drop_commute, Nat.add_comm, Nat.sub_add by lia.
Qed.

(** The first occurrence of [sub] from [a] on, when there is one. *)
Lemma find_from_first sub (s : str) (a k : nat) :
  (a ≤ k ≤ length s)%nat → sub `prefix_of` drop k s →
  (∀ k', (a ≤ k' < k)%nat → ¬ sub `prefix_of` drop k' s) →
  find_from sub s (Z.of_nat a) = Z.of_nat k.
Proof.
  intros Hk Hp Hmin.
  destruct (find_from_spec sub s a ltac:(lia)) as [[_ Hall]|(j & -> & Hj & Hpj & Hminj)].
  - destruct (Hall k Hk Hp).
  - f_equal. destruct (Nat.lt_trichotomy j k) as [Hlt|[->|Hgt]]; [|done|].
    + destruct (Hmin j ltac:(lia) Hpj).
    + destruct (Hminj k ltac:(lia) Hp).
Qed.

Lemma drop_app_length' {A} (l k : list A) n : n = length l → drop n (l ++ k) = k.
Proof. intros ->. apply drop_app_length. Qed.

End Markers.

(** X20. The group of the marker pattern is the text between the leftmost
    [<<JSON_START>>] and the first [<<JSON_END>>] after it: [marker_group]
    returns [group] exactly when the text is [pre], the start marker, [group],
    the end marker and [post], where no start marker begins within [pre] and
    no end marker begins within [group]. *)
Theorem marker_group_spec (text group : str) :
  marker_group text = Some group ↔
  ∃ pre post : str,
    text = pre ++ py "<<JSON_START>>" ++ group ++ py "<<JSON_END>>" ++ post ∧
    (∀ k, (k < length pre)%nat → ¬ py "<<JSON_START>>" `prefix_of` drop k text) ∧
    (∀ k, (k < length group)%nat →
          ¬ py "<<JSON_END>>" `prefix_of` drop k (group ++ py "<<JSON_END>>" ++ post)).
Proof.
  set (START := py "<<JSON_START>>"). set (END := py "<<JSON_END>>").
  assert (length START = 14%nat) as HlenS by done.
  assert (len START = 14) as HlenS' by done.
  unfold marker_group. fold START END. rewrite HlenS'. split.
  - destruct (find_spec START text) as [[-> _]|(p & -> & Hp & Hocc & Hmin)]; [done|].
    rewrite (proj2 (Z.eqb_neq _ _)) by lia.
    pose proof (prefix_of_drop START text p Hp Hocc) as Htext. rewrite HlenS in Htext.
    assert (p + 14 ≤ length text)%nat as Hfrom.
    { apply prefix_length in Hocc. rewrite length_drop in Hocc. lia. }
    replace (Z.of_nat p + 14) with (Z.of_nat (p + 14)) by lia.
    destruct (find_from_spec END text (p + 14) Hfrom)
      as [[-> _]|(q & -> & Hq & Hoccq & Hminq)]; [done|].
    rewrite (proj2 (Z.eqb_neq _ _)) by lia.
    rewrite slice_segment by lia. intros [= <-].
    set (rest := drop (p + 14) text) in *.
    assert (drop q text = drop (q - (p + 14)) rest) as Hdq.
    { unfold rest. rewrite drop_drop. f_equal. lia. }
    rewrite Hdq in Hoccq.
    assert (rest = take (q - (p + 14)) rest ++ END
                   ++ drop (q - (p + 14) + length END) rest) as Hrest.
    { apply prefix_of_drop; [|done]. unfold rest. rewrite length_drop. lia. }
    exists (take p text), (drop (q - (p + 14) + length END) rest).
    rewrite <- Hrest. split_and!; [exact Htext| |].
    + intros k Hk. rewrite length_take in Hk. apply Hmin. lia.
    + intros k Hk. rewrite length_take in Hk.
      unfold rest. rewrite drop_drop. apply Hminq. lia.
  - intros (pre & post & Htext & HminS & HminE).
    assert (length text = (length pre + 14 + length group + 12 + length post)%nat) as Hlen.
    { rewrite Htext, !length_app. change (length START) with 14%nat.
      change (length END) with 12%nat. lia. }
    assert (find START text = Z.of_nat (length pre)) as ->.
    { apply (find_from_first START text 0 (length pre)); [lia| |intros k' Hk'; apply HminS; lia].
      rewrite Htext, drop_app_length. by eexists. }
    rewrite (proj2 (Z.eqb_neq _ _)) by lia.
    replace (Z.of_nat (length pre) + 14) with (Z.of_nat (length pre + 14)) by lia.
    assert (drop (length pre + 14) text = group ++ END ++ post) as Hrest.
    { rewrite Htext, <- drop_drop, drop_app_length. by apply drop_app_length'. }
    assert (find_from END text (Z.of_nat (length pre + 14))
            = Z.of_nat (length pre + 14 + length group)) as ->.
    { apply find_from_first; [lia| |].
      - rewrite <- drop_drop, Hrest, drop_app_length. by eexists.
      - intros k' Hk'. specialize (HminE (k' - (length pre + 14))%nat ltac:(lia)).
        rewrite <- Hrest, drop_drop in HminE.
        by replace (length pre + 14 + (k' - (length pre + 14)))%nat with k' in HminE by lia. }
    rewrite (proj2 (Z.eqb_neq _ _)) by lia.
    rewrite slice_segment by lia. rewrite Hrest. f_equal.
    replace (length pre + 14 + length group - (length pre + 14))%nat with (length group) by lia.
    by rewrite take_app_length.
Qed.

(** ** The balanced braces *)

Import Braces.

Section BracesLemmas.

Lemma balance_cons c (s : str) :
  balance (c :: s)
  = (if (c =? 123)%N then 1 else if (c =? 125)%N then -1 else 0) + balance s.
Proof. done. Qed.

(** The scan stops at the first closing brace that brings the depth to 0;
    until then the depth is positive. *)
Lemma closing_brace_spec (depth i : Z) (s : str) (j : Z) :
  0 < depth → closing_brace depth i s = Some j →
  ∃ k : nat, j = i + Z.of_nat k ∧ s !! k = Some 125%N ∧
             depth + balance (take (S k) s) = 0 ∧
             ∀ n, (n ≤ k)%nat → 0 < depth + balance (take n s).
Proof.
  revert depth i. induction s as [|c s IH]; intros depth i Hd; [done|].
  cbn [closing_brace].
  destruct (c =? 123)%N eqn:E1; [|destruct (c =? 125)%N eqn:E2].
  - intros H. destruct (IH (depth + 1) (i + 1) ltac:(lia) H) as (k & -> & Hk & Hb & Hpos).
    exists (S k). split_and!; [lia|done| |].
    + rewrite firstn_cons, balance_cons, E1. lia.
    + intros [|n] Hn; [simpl; unfold balance; simpl; lia|].
      rewrite firstn_cons, balance_cons, E1. specialize (Hpos n ltac:(lia)). lia.
  - destruct (Z.eqb_spec (depth - 1) 0) as [H0|H0].
    + intros [= <-]. exists 0%nat. apply N.eqb_eq in E2 as ->.
      split_and!; [lia|done|unfold balance; simpl; lia|].
      intros n Hn. assert (n = 0)%nat as -> by lia. unfold balance. simpl. lia.
    + intros H. destruct (IH (depth - 1) (i + 1) ltac:(lia) H) as (k & -> & Hk & Hb & Hpos).
      exists (S k). split_and!; [lia|done| |].
      * rewrite firstn_cons, balance_cons, E1, E2. lia.
      * intros [|n] Hn; [simpl; unfold balance; simpl; lia|].
        rewrite firstn_cons, balance_cons, E1, E2. specialize (Hpos n ltac:(lia)). lia.
  - intros H. destruct (IH depth (i + 1) Hd H) as (k & -> & Hk & Hb & Hpos).
    exists (S k). split_and!; [lia|done| |].
    + rewrite firstn_cons, balance_cons, E1, E2. lia.
    + intros [|n] Hn; [simpl; unfold balance; simpl; lia|].
      rewrite firstn_cons, balance_cons, E1, E2. specialize (Hpos n ltac:(lia)). lia.
Qed.

End BracesLemmas.

Section BracesCandidate.

Lemma closing_brace_complete (depth i : Z) (s : str) (k : nat) :
  s !! k = Some 125%N →
  depth + balance (take (S k) s) = 0 →
  (∀ n, (n ≤ k)%nat → 0 < depth + balance (take n s)) →
  closing_brace depth i s = Some (i + Z.of_nat k).
Proof.
  revert depth i k. induction s as [|c s IH]; intros depth i k Hk Hb Hpos; [done|].
  cbn [closing_brace]. rewrite firstn_cons, balance_cons in Hb.
  assert (∀ n, (S n ≤ k)%nat →
            0 < depth + (if (c =? 123)%N then 1 else if (c =? 125)%N then -1 else 0)
                + balance (take n s)) as Hpos'.
  { intros n Hn. specialize (Hpos (S n) Hn).
    rewrite firstn_cons, balance_cons in Hpos. lia. }
  pose proof (Hpos 0%nat ltac:(lia)) as Hd.
  change (balance (take 0 (c :: s))) with 0 in Hd.
  destruct k as [|k].
  - injection Hk as ->. change (balance (take 0 s)) with 0 in Hb.
    change (125 =? 123)%N with false in Hb |- *. change (125 =? 125)%N with true in Hb |- *.
    cbv iota in Hb |- *. rewrite (proj2 (Z.eqb_eq (depth - 1) 0)) by lia.
    f_equal. lia.
  - cbn [lookup list_lookup] in Hk.
    assert (∀ d', d' = depth + (if (c =? 123)%N then 1 else if (c =? 125)%N then -1 else 0) →
              closing_brace d' (i + 1) s = Some (i + Z.of_nat (S k))) as Hrec.
    { intros d' ->. replace (i + Z.of_nat (S k)) with (i + 1 + Z.of_nat k) by lia.
      apply IH; [done|lia|]. intros n Hn. apply Hpos'. lia. }
    specialize (Hpos' 0%nat ltac:(lia)). change (balance (take 0 s)) with 0 in Hpos'.
    destruct (c =? 123)%N; [by apply Hrec|]. destruct (c =? 125)%N; [|apply Hrec; lia].
    rewrite (proj2 (Z.eqb_neq (depth - 1) 0)) by lia. apply Hrec. lia.
Qed.

Lemma last_take_S {A} (l : list A) (k : nat) x :
  l !! k = Some x → last (take (S k) l) = Some x.
Proof.
  intros Hk. rewrite last_lookup.
  assert (k < length l)%nat as Hlt by (by eapply lookup_lt_Some).
  rewrite length_take, Nat.min_l by lia. simpl.
  by rewrite lookup_take_lt by lia.
Qed.

Lemma not_elem_of_prefix (c : N) (s : str) (k : nat) :
  (∀ k', (k' < k)%nat → ¬ [c] `prefix_of` drop k' s) → c ∉ take k s.
Proof.
  intros Hmin [j Hj]%list_elem_of_lookup.
  apply lookup_take_Some in Hj as [Hj Hlt].
  apply (Hmin j Hlt). rewrite (drop_S _ _ _ Hj). by eexists.
Qed.

End BracesCandidate.

(** X21. Strategy 3 parses the shortest balanced text that starts at the
    first opening brace: [from_braces] returns [v] exactly when the text is
    [pre], [candidate] and [post], where [pre] holds no opening brace,
    [candidate] starts with an opening brace, ends with a closing brace and
    has as many opening as closing braces, after every shorter beginning of
    it more braces are open than closed, and the parsers give [v] for
    [candidate]. Braces are counted wherever they stand, inside string
    literals too. *)
Theorem from_braces_candidate (demjson_decode : option (str → option json))
    (text : str) (v : json) :
  from_braces demjson_decode text = Some v ↔
  ∃ pre candidate post : str,
    text = pre ++ candidate ++ post ∧ (123%N ∉ pre) ∧
    head candidate = Some 123%N ∧ last candidate = Some 125%N ∧
    balance candidate = 0 ∧
    (∀ n, (0 < n < length candidate)%nat → 0 < balance (take n candidate)) ∧
    strict_then_tolerant demjson_decode candidate = Some v.
Proof.
  unfold from_braces. change (py "{") with [123%N]. split.
  - destruct (find_spec [123%N] text) as [[-> _]|(p & -> & Hp & Hocc & Hmin)]; [done|].
    rewrite (proj2 (Z.eqb_neq _ _)) by lia.
    unfold slice_from. rewrite clip_in_range by done.
    destruct Hocc as [rest Hrest]. rewrite Hrest. cbn [app closing_brace N.eqb Pos.eqb].
    destruct (closing_brace (0 + 1) (Z.of_nat p + 1) rest) as [j|] eqn:Hj; [|done].
    cbn [mbind option_bind].
    apply closing_brace_spec in Hj as (k & -> & Hk & Hb & Hpos); [|lia].
    assert (k < length rest)%nat as Hlt by (by eapply lookup_lt_Some).
    assert (length text = (p + S (length rest))%nat) as Hlen.
    { rewrite <- (take_drop p text), Hrest, length_app, length_take. simpl. lia. }
    replace (Z.of_nat p + 1 + Z.of_nat k + 1) with (Z.of_nat (p + (k + 2))) by lia.
    rewrite slice_segment by lia.
    replace (p + (k + 2) - p)%nat with (S (S k)) by lia.
    rewrite Hrest. cbn [app]. rewrite firstn_cons. intros Hv.
    exists (take p text), (123%N :: take (S k) rest), (drop (S k) rest).
    split_and!.
    + rewrite <- (take_drop p text) at 1. rewrite Hrest. simpl.
      by rewrite take_drop.
    + by apply not_elem_of_prefix.
    + done.
    + rewrite last_cons, (last_take_S rest k 125%N Hk). done.
    + rewrite balance_cons. simpl. lia.
    + intros [|n] Hn; [lia|]. rewrite firstn_cons, balance_cons. simpl.
      cbn [length] in Hn. rewrite length_take in Hn.
      rewrite take_take. replace (n `min` S k)%nat with n by lia.
      specialize (Hpos n ltac:(lia)). lia.
    + done.
  - intros (pre & candidate & post & -> & Hpre & Hhead & Hlast & Hbal & Hpos & Hv).
    destruct candidate as [|c rest]; [done|]. injection Hhead as ->.
    assert (find [123%N] (pre ++ (123%N :: rest) ++ post) = Z.of_nat (length pre)) as ->.
    { apply (find_from_first [123%N] _ 0 (length pre)).
      - rewrite length_app. lia.
      - rewrite drop_app_length. by eexists.
      - intros k' [_ Hk'] [r Hr]. apply Hpre.
        apply list_elem_of_lookup. exists k'.
        rewrite <- (lookup_app_l pre ((123%N :: rest) ++ post)) by done.
        rewrite <- (Nat.add_0_r k'), <- lookup_drop, Hr. done. }
    rewrite (proj2 (Z.eqb_neq _ _)) by lia.
    unfold slice_from. rewrite clip_in_range by (rewrite length_app; lia).
    rewrite drop_app_length. cbn [app closing_brace N.eqb Pos.eqb].
    destruct rest as [|x rest0] using rev_ind.
    { exfalso. unfold balance in Hbal. simpl in Hbal. lia. }
    clear IHrest0. rewrite app_comm_cons, last_snoc in Hlast. injection Hlast as ->.
    rewrite (closing_brace_complete (0 + 1) (Z.of_nat (length pre) + 1)
               ((rest0 ++ [125%N]) ++ post) (length rest0)).
    + cbn [mbind option_bind].
      replace (Z.of_nat (length pre) + 1 + Z.of_nat (length rest0) + 1)
        with (Z.of_nat (length pre + (length rest0 + 2))) by lia.
      rewrite slice_segment by (repeat (rewrite length_app || cbn [length]); lia).
      rewrite drop_app_length.
      replace (length pre + (length rest0 + 2) - length pre)%nat
        with (length (123%N :: rest0 ++ [125%N]))
        by (repeat (rewrite length_app || cbn [length]); lia).
      change (123%N :: (rest0 ++ [125%N]) ++ post)
        with ((123%N :: rest0 ++ [125%N]) ++ post).
      by rewrite take_app_length.
    + rewrite <- (assoc_L (++)). by apply list_lookup_middle.
    + rewrite <- (assoc_L (++)), (assoc_L (++) rest0 [125%N] post).
      replace (S (length rest0)) with (length (rest0 ++ [125%N]))
        by (rewrite length_app; simpl; lia).
      rewrite take_app_length. rewrite balance_cons in Hbal. simpl in Hbal. lia.
    + intros n Hn. specialize (Hpos (S n)).
      rewrite firstn_cons, balance_cons in Hpos. simpl in Hpos.
      rewrite length_app in Hpos. simpl in Hpos.
      rewrite <- (assoc_L (++)), take_app_le by lia.
      rewrite take_app_le in Hpos by lia. lia.
Qed.

(** A closing brace inside a string literal ends the candidate early: for an
    object whose only value is the string of one closing brace, the candidate
    ends at that brace and is no JSON. *)
Example from_braces_brace_in_string :
  closing_brace 0 2 (py "{" ++ quoted "a" ++ py ": " ++ quoted "}" ++ py "}") = Some 9 ∧
  from_braces None (py "x {" ++ quoted "a" ++ py ": " ++ quoted "}" ++ py "}") = None.
Proof. by vm_compute. Qed.

(** ** Loading the ground truth *)

Import Loader.

Section LoaderLemmas.

Context (int_of_str : str → option Z).

Lemma lstrip_of_prefix_fixed p (t u : str) :
  lstrip_of p t = t → u `prefix_of` t → lstrip_of p u = u.
Proof.
  intros Ht [k ->]. destruct u as [|c u]; [done|]. simpl in *.
  destruct (p c); [|done].
  pose proof (lstrip_of_length p (u ++ k)) as Hlen. rewrite Ht in Hlen.
  simpl in Hlen. lia.
Qed.

Lemma strip_twice (s : str) : strip (strip s) = strip s.
Proof.
  unfold strip, lstrip.
  rewrite (lstrip_of_prefix_fixed isspace (lstrip_of isspace s) (rstrip (lstrip_of isspace s))).
  - apply rstrip_twice.
  - apply lstrip_of_twice.
  - apply rstrip_prefix.
Qed.

(** What a row contributes. *)
Lemma load_row_Some (row : csv_row) (e : gt_entry) :
  load_row int_of_str row = Some (Some e) ↔
  ∃ contract bug_type cell,
    row_get row "contract" [] = Some contract ∧
    row_get row "bug_type" [] = Some bug_type ∧
    row_get row "line" (py "0") = Some cell ∧
    int_of_str cell = Some e.2 ∧
    e.1.1 = strip contract ∧ e.1.2 = strip bug_type ∧
    e.1.1 ≠ [] ∧ e.1.2 ≠ [] ∧ 0 < e.2.
Proof.
  unfold load_row. destruct e as [[c b] l]. cbn [fst snd].
  destruct (row_get row "contract" []) as [contract|]; cbn [mbind option_bind]; last first.
  { split; [done|]. intros (? & ? & ? & Hc & _). discriminate Hc. }
  destruct (row_get row "bug_type" []) as [bug_type|]; cbn [mbind option_bind]; last first.
  { split; [done|]. intros (? & ? & ? & _ & Hb & _). discriminate Hb. }
  split.
  - destruct (bool_decide_reflect (strip contract ≠ [])) as [Hc|]; [|done].
    destruct (bool_decide_reflect (strip bug_type ≠ [])) as [Hb|]; [|done].
    cbn [andb].
    destruct (row_get row "line" (py "0")) as [cell|]; [|done].
    destruct (int_of_str cell) as [n|] eqn:Hn; [|done].
    change (default 0 (Some n)) with n.
    destruct (Z.ltb_spec 0 n) as [Hpos|]; [|done].
    intros [= <- <- <-]. exists contract, bug_type, cell. by split_and!.
  - intros (contract' & bug_type' & cell & [= <-] & [= <-] & -> & Hn & -> & -> & Hc & Hb & Hpos).
    rewrite Hn. change (default 0 (Some l)) with l.
    rewrite !bool_decide_eq_true_2 by done. cbn [andb].
    by rewrite (proj2 (Z.ltb_lt 0 l)) by done.
Qed.

Lemma load_row_None (row : csv_row) :
  load_row int_of_str row = None ↔
  row !! py "contract" = Some None ∨ row !! py "bug_type" = Some None.
Proof.
  unfold load_row, row_get.
  destruct (row !! py "contract") as [[contract|]|]; cbn [mbind option_bind];
    destruct (row !! py "bug_type") as [[bug_type|]|]; cbn [mbind option_bind];
    naive_solver.
Qed.

End LoaderLemmas.

(** X22. When [load_ground_truth] returns, a triple is in the set exactly
    when some row gives it: its contract and bug type are what the row has
    for 'contract' and 'bug_type', without surrounding white space, and are
    not empty, and its line is the integer that the row's text for 'line'
    denotes and is positive. The names in the set carry no surrounding white
    space. *)
Theorem load_ground_truth_entries (int_of_str : str → option Z)
    (rows : list csv_row) (gt : gset gt_entry) (e : gt_entry) :
  load_ground_truth int_of_str rows = Some gt →
  (e ∈ gt ↔
   ∃ row contract bug_type cell,
     row ∈ rows ∧
     row_get row "contract" [] = Some contract ∧
     row_get row "bug_type" [] = Some bug_type ∧
     row_get row "line" (py "0") = Some cell ∧
     int_of_str cell = Some e.2 ∧
     e.1.1 = strip contract ∧ e.1.2 = strip bug_type ∧
     e.1.1 ≠ [] ∧ e.1.2 ≠ [] ∧ 0 < e.2) ∧
  (e ∈ gt → strip e.1.1 = e.1.1 ∧ strip e.1.2 = e.1.2).
Proof.
  unfold load_ground_truth.
  destruct (mapM (load_row int_of_str) rows) as [items|] eqn:Hitems; [|done].
  cbn [mbind option_bind]. intros [= <-].
  apply mapM_Some in Hitems.
  assert (e ∈ (list_to_set (omap id items) : gset gt_entry) ↔
          ∃ row, row ∈ rows ∧ load_row int_of_str row = Some (Some e)) as Hin.
  { rewrite elem_of_list_to_set, list_elem_of_omap. split.
    - intros (o & Ho & Heq). simpl in Heq. subst o.
      apply list_elem_of_lookup in Ho as [i Hi].
      destruct (Forall2_lookup_r _ _ _ _ _ Hitems Hi) as (row & Hrow & Hload).
      exists row. split; [by eapply list_elem_of_lookup_2|done].
    - intros (row & Hrow & Hload). apply list_elem_of_lookup in Hrow as [i Hi].
      destruct (Forall2_lookup_l _ _ _ _ _ Hitems Hi) as (o & Ho & Hload').
      exists o. split; [by eapply list_elem_of_lookup_2|]. simpl. congruence. }
  split.
  - rewrite Hin. setoid_rewrite load_row_Some. naive_solver.
  - rewrite Hin. intros (row & _ & Hload). apply load_row_Some in Hload
      as (contract & bug_type & cell & _ & _ & _ & _ & -> & -> & _).
    by rewrite !strip_twice.
Qed.

Lemma load_ground_truth_entries_witness :
  let row : csv_row :=
    {[ py "contract" := Some (py " C1 "); py "bug_type" := Some (py "TOD");
       py "line" := Some (py "5") ]} in
  ∃ gt, load_ground_truth (λ _, Some 5) [row] = Some gt ∧
        ((py "C1", py "TOD", 5) ∈ gt → strip (py "C1") = py "C1" ∧ strip (py "TOD") = py "TOD").
Proof.
  intros row. eexists. split; [reflexivity|].
  apply (load_ground_truth_entries (λ _, Some 5) [row] _ (py "C1", py "TOD", 5)).
  reflexivity.
Defined.

(** X23. [load_ground_truth] raises exactly when some line of the file is
    too short to reach the column 'contract' or the column 'bug_type' (the
    reader gives [None] for the cell, which has no [strip]). A column that
    the header lacks and a line number that is no integer raise nothing; the
    row is then left out. *)
Theorem load_ground_truth_raises (int_of_str : str → option Z) (rows : list csv_row) :
  load_ground_truth int_of_str rows = None ↔
  ∃ row, row ∈ rows ∧
         (row !! py "contract" = Some None ∨ row !! py "bug_type" = Some None).
Proof.
  unfold load_ground_truth.
  destruct (mapM (load_row int_of_str) rows) as [items|] eqn:Hitems;
    cbn [mbind option_bind].
  - split; [done|]. intros (row & Hrow & Hnone).
    apply (load_row_None int_of_str) in Hnone.
    assert (mapM (load_row int_of_str) rows = None) as Hcontra; [|congruence].
    apply mapM_None, Exists_exists. by exists row.
  - split; [|done]. intros _.
    apply mapM_None, Exists_exists in Hitems as (row & Hrow & Hnone).
    exists row. split; [done|]. by apply (load_row_None int_of_str).
Qed.

(** ** The findings written for a contract *)

Import Enrich.

Section EnrichLemmas.

Context (todecimal : N → option N).

Lemma enrich_finding_Some code bug_type finding e :
  enrich_finding todecimal code bug_type finding = Some (Some e) →
  line_of todecimal finding = Some (f_line_number e) ∧
  0 < f_line_number e ∧
  f_bug_type e = bug_type ∧
  f_sub_type e = map_llm_to_subtypes bug_type ∧
  f_severity e = map_llm_to_severity bug_type ∧
  (f_context_before e, f_context_after e)
  = extract_context_from_code code (f_line_number e) 2 2 ∧
  strip (f_code_snippet e) = f_code_snippet e.
Proof.
  destruct finding as [| | | | |items|fields]; try done. unfold enrich_finding.
  change (coerce_line_number todecimal (Dedup.get fields (py "line_number")))
    with (line_of todecimal (JObject fields)).
  destruct (line_of todecimal (JObject fields)) as [n|] eqn:Hline; [|done].
  pose proof (coerce_line_number_positive todecimal _ _ Hline) as Hpos.
  rewrite (proj2 (Z.leb_gt n 0)) by done.
  destruct (get_default fields (py "code_snippet") (JString [])) as [| | | |snippet| |];
    try done.
  intros [= <-]. cbn [f_line_number f_bug_type f_sub_type f_severity f_context_before
                      f_context_after f_code_snippet].
  split_and!; try done. apply strip_twice.
Qed.

Lemma enrich_finding_skipped code bug_type finding :
  enrich_finding todecimal code bug_type finding = Some None →
  line_of todecimal finding = None.
Proof.
  destruct finding as [| | | | |items|fields]; try done. unfold enrich_finding.
  change (coerce_line_number todecimal (Dedup.get fields (py "line_number")))
    with (line_of todecimal (JObject fields)).
  destruct (line_of todecimal (JObject fields)) as [n|] eqn:Hline; [|done].
  pose proof (coerce_line_number_positive todecimal _ _ Hline) as Hpos.
  rewrite (proj2 (Z.leb_gt n 0)) by done.
  by destruct (get_default fields (py "code_snippet") (JString [])).
Qed.

(** The line numbers written are those of the findings, in their order. *)
Lemma enrich_lines code bug_type findings (items : list (option enriched_finding)) :
  Forall2 (λ f o, enrich_finding todecimal code bug_type f = Some o) findings items →
  f_line_number <$> omap id items = omap (line_of todecimal) findings.
Proof.
  induction 1 as [|f o findings items Hfo _ IH]; [done|].
  unfold omap in *. cbn [list_omap].
  destruct o as [e|]; simpl.
  - apply enrich_finding_Some in Hfo as (-> & _). simpl. by rewrite <- IH.
  - apply enrich_finding_skipped in Hfo as ->. exact IH.
Qed.

Lemma omap_Some_fmap {A B} (f : A → option B) (l : list A) (k : list B) :
  f <$> l = Some <$> k → omap f l = k.
Proof.
  revert k. induction l as [|x l IH]; intros [|y k]; try done.
  rewrite !fmap_cons. intros [= Hx Hl]. unfold omap in *. cbn [list_omap].
  rewrite Hx. simpl. f_equal. by apply IH.
Qed.

End EnrichLemmas.

(** X24. When the loop of [evaluate_contracts] over the findings returns,
    the findings written are those with a valid line number, in their order
    and with that line number, which is positive; each carries the bug type
    of the run, the sub-type and the severity that the two tables give for
    it, a code snippet without surrounding white space, and as context what
    [extract_context_from_code] returns for its line with two lines on each
    side, hence at most two lines before and two after. *)
Theorem enrich_findings (todecimal : N → option N) (code bug_type : str)
    (findings : list json) (enriched_findings : list enriched_finding) :
  enrich todecimal code bug_type findings = Some enriched_findings →
  f_line_number <$> enriched_findings = omap (line_of todecimal) findings ∧
  ∀ e, e ∈ enriched_findings →
    0 < f_line_number e ∧
    f_bug_type e = bug_type ∧
    f_sub_type e = map_llm_to_subtypes bug_type ∧
    f_severity e = map_llm_to_severity bug_type ∧
    strip (f_code_snippet e) = f_code_snippet e ∧
    (f_context_before e, f_context_after e)
    = extract_context_from_code code (f_line_number e) 2 2 ∧
    (length (f_context_before e) ≤ 2)%nat ∧ (length (f_context_after e) ≤ 2)%nat.
Proof.
  unfold enrich.
  destruct (mapM (enrich_finding todecimal code bug_type) findings) as [items|] eqn:Hitems;
    [|done].
  cbn [mbind option_bind]. intros [= <-]. apply mapM_Some in Hitems. split.
  - by apply (enrich_lines todecimal code bug_type).
  - intros e (o & Ho & Heq)%list_elem_of_omap. simpl in Heq. subst o.
    apply list_elem_of_lookup in Ho as [i Hi].
    destruct (Forall2_lookup_r _ _ _ _ _ Hitems Hi) as (f & _ & Hf).
    apply enrich_finding_Some in Hf as (_ & Hpos & Hb & Hs & Hv & Hctx & Hstrip).
    split_and!; try done.
    + pose proof (extract_context_lengths code (f_line_number e) 2 2 ltac:(lia) ltac:(lia))
        as (H1 & _). rewrite <- Hctx in H1. cbn [fst] in H1. unfold list_len in H1. lia.
    + pose proof (extract_context_lengths code (f_line_number e) 2 2 ltac:(lia) ltac:(lia))
        as (_ & H2). rewrite <- Hctx in H2. cbn [snd] in H2. unfold list_len in H2. lia.
Qed.

Lemma enrich_findings_witness :
  let code := py "contract C {" ++ [10%N] ++ py "  uint x;  " ++ [10%N] ++ py "}" in
  let finding :=
    JObject [(py "line_number", JString (py "2")); (py "code_snippet", JString (py " uint x; "))] in
  ∃ enriched_findings,
    enrich (λ _, None) code (py "TOD") [JNull; finding] = Some enriched_findings ∧
    f_line_number <$> enriched_findings = [2].
Proof.
  intros code finding. eexists. split; [reflexivity|].
  apply (enrich_findings (λ _, None) code (py "TOD") [JNull; finding]).
  reflexivity.
Defined.

Section Pipeline.

Context (todecimal : N → option N).

Lemma length_remove_dups_le {A} `{EqDecision A} (l : list A) :
  (length (remove_dups l) ≤ length l)%nat.
Proof.
  apply submseteq_length, NoDup_submseteq; [apply NoDup_remove_dups|].
  intros x. by rewrite elem_of_remove_dups.
Qed.

Lemma length_omap_le {A B} (f : A → option B) (l : list A) :
  (length (omap f l) ≤ length l)%nat.
Proof.
  induction l as [|x l IH]; [done|]. unfold omap in *. cbn [list_omap].
  destruct (f x); simpl; lia.
Qed.

(** The findings that the deduplication returns all have a line number. *)
Lemma deduplicate_line_numbers all_findings final_findings :
  deduplicate todecimal all_findings = Some final_findings →
  omap (line_of todecimal) final_findings
  = first_occurrences (omap (line_of todecimal) all_findings).
Proof.
  intros (d & Hloop & ->)%deduplicate_Some.
  destruct (dedup_loop_spec todecimal all_findings d Hloop) as [Hkeys Hbest].
  apply omap_Some_fmap. rewrite <- Hkeys, <- !list_fmap_compose.
  apply list_fmap_ext. intros i [n f] Hi.
  apply list_elem_of_lookup_2, Hbest in Hi.
  exact (best_of_line todecimal _ _ _ Hi).
Qed.

End Pipeline.

(** X25. From the findings gathered by the passes to the findings written
    for the contract: when neither the deduplication nor the loop over its
    result raises, the line numbers written are the valid line numbers of the
    findings gathered, each once, in the order of their first occurrence; no
    two findings written share a line. *)
Theorem deduplicate_and_enrich_lines (todecimal : N → option N) (code bug_type : str)
    (all_findings : list json) (enriched_findings : list enriched_finding) :
  deduplicate_and_enrich todecimal code bug_type all_findings = Some enriched_findings →
  f_line_number <$> enriched_findings
  = first_occurrences (omap (line_of todecimal) all_findings) ∧
  NoDup (f_line_number <$> enriched_findings) ∧
  (length enriched_findings ≤ length all_findings)%nat.
Proof.
  unfold deduplicate_and_enrich.
  destruct (deduplicate todecimal all_findings) as [final|] eqn:Hfinal; [|done].
  cbn [mbind option_bind]. unfold enrich.
  destruct (mapM (enrich_finding todecimal code bug_type) final) as [items|] eqn:Hitems;
    [|done].
  cbn [mbind option_bind]. intros [= <-]. apply mapM_Some in Hitems.
  assert (f_line_number <$> omap id items
          = first_occurrences (omap (line_of todecimal) all_findings)) as Hlines.
  { rewrite (enrich_lines todecimal code bug_type final items Hitems).
    by apply deduplicate_line_numbers. }
  split_and!; [done| |].
  - rewrite Hlines. apply NoDup_first_occurrences.
  - rewrite <- (length_fmap f_line_number), Hlines.
    unfold first_occurrences. rewrite length_reverse.
    etrans; [apply length_remove_dups_le|].
    rewrite length_reverse. apply length_omap_le.
Qed.

Lemma deduplicate_and_enrich_lines_witness :
  let code := py "contract C {" ++ [10%N] ++ py "  uint x;  " ++ [10%N] ++ py "}" in
  let first := JObject [(py "line_number", JInt 2)] in
  let second :=
    JObject [(py "line_number", JString (py "2")); (py "confidence", JString (py "high"))] in
  ∃ enriched_findings,
    deduplicate_and_enrich (λ _, None) code (py "TOD") [first; second] = Some enriched_findings ∧
    f_line_number <$> enriched_findings = [2].
Proof.
  intros code first second. eexists. split; [reflexivity|].
  apply (deduplicate_and_enrich_lines (λ _, None) code (py "TOD") [first; second]).
  reflexivity.
Defined.

Section EnrichRaises.

Context (todecimal : N → option N).

Lemma enrich_finding_None code bug_type finding :
  enrich_finding todecimal code bug_type finding = None ↔
  ∃ fields, finding = JObject fields ∧
            is_Some (line_of todecimal finding) ∧
            ∀ snippet,
              get_default fields (py "code_snippet") (JString []) ≠ JString snippet.
Proof.
  destruct finding as [| | | | |items|fields];
    try (split; [done|by intros (? & [=] & _)]).
  unfold enrich_finding.
  change (coerce_line_number todecimal (Dedup.get fields (py "line_number")))
    with (line_of todecimal (JObject fields)).
  destruct (line_of todecimal (JObject fields)) as [n|] eqn:Hline.
  - pose proof (coerce_line_number_positive todecimal _ _ Hline) as Hpos.
    rewrite (proj2 (Z.leb_gt n 0)) by done.
    destruct (get_default fields (py "code_snippet") (JString [])) as [| | | |s| |] eqn:E;
      (split; [intros H; try done; exists fields; by rewrite E
              |intros (fields' & [= <-] & _ & Hs); try done; rewrite E in Hs;
               by destruct (Hs s)]).
  - split; [done|]. by intros (? & _ & [? [=]] & _).
Qed.

End EnrichRaises.

(** X26. The loop of [evaluate_contracts] over the findings raises, and the
    contract is left without a result, exactly when some finding with a valid
    line number has a code snippet that is not a string (the number 1, a
    list, [null]); a finding without a code snippet, one that is no
    dictionary and one without a valid line number raise nothing. *)
Theorem enrich_raises (todecimal : N → option N) (code bug_type : str)
    (findings : list json) :
  enrich todecimal code bug_type findings = None ↔
  ∃ fields, JObject fields ∈ findings ∧
            is_Some (line_of todecimal (JObject fields)) ∧
            ∀ snippet,
              get_default fields (py "code_snippet") (JString []) ≠ JString snippet.
Proof.
  unfold enrich.
  destruct (mapM (enrich_finding todecimal code bug_type) findings) as [items|] eqn:Hitems;
    cbn [mbind option_bind].
  - split; [done|]. intros (fields & Hin & Hline & Hs).
    assert (mapM (enrich_finding todecimal code bug_type) findings = None) as Hcontra;
      [|congruence].
    apply mapM_None, Exists_exists. exists (JObject fields). split; [done|].
    apply enrich_finding_None. by exists fields.
  - split; [|done]. intros _.
    apply mapM_None, Exists_exists in Hitems as (f & Hf & Hnone).
    apply enrich_finding_None in Hnone as (fields & -> & Hline & Hs).
    by exists fields.
Qed.

(** ** Merging the bug logs *)

Import Merge.

Section MergeLemmas.

Context (int_of_str : str → option Z).

Lemma numbered_snoc entries contract_name n bug_type approach :
  numbered (entries, Z.of_nat (length entries) + 1) →
  numbered (entries ++ [mk_entry (Z.of_nat (length entries) + 1) contract_name n
                           bug_type approach],
            Z.of_nat (length entries) + 1 + 1).
Proof.
  intros [_ Hids]. split; cbn [fst snd].
  - rewrite length_app. simpl. lia.
  - intros i e Hi. apply lookup_app_Some in Hi as [Hi|[Hge Hi]]; [by apply Hids|].
    apply list_lookup_singleton_Some in Hi as [Hi <-]. simpl. lia.
Qed.

(** The bug type written is the name of the directory, whatever the log
    says. *)
Lemma bug_type_clean_directory (bug_type cleaned : str) :
  (if decide (cleaned ≠ bug_type) then bug_type else cleaned) = bug_type.
Proof. by case_decide as H. Qed.

Lemma merge_row_invariant (Q : bug_entry → Prop) bug_type contract_name st row st' :
  merge_row int_of_str bug_type contract_name st row = Some st' →
  (∀ id cell approach n,
     Loader.row_get row "loc" [] = Some cell → strip cell ≠ [] →
     int_of_str (strip cell) = Some n →
     Q (mk_entry id contract_name n bug_type approach)) →
  numbered st → Forall Q st.1 →
  numbered st' ∧ Forall Q st'.1.
Proof.
  unfold merge_row. intros Hrow HQ Hnum Hall.
  destruct (Loader.row_get row "bug type" []) as [from_csv|]; [|done].
  cbn [mbind option_bind] in Hrow. rewrite bug_type_clean_directory in Hrow.
  destruct (Loader.row_get row "loc" []) as [cell|] eqn:Hcell; [|done].
  cbn [mbind option_bind] in Hrow.
  destruct (Loader.row_get row "approach" _) as [approach|]; [|done].
  cbn [mbind option_bind] in Hrow.
  destruct (strip cell) as [|c line_num] eqn:Hstrip; [by injection Hrow as <-|].
  destruct (int_of_str (c :: line_num)) as [n|] eqn:Hn; [|by injection Hrow as <-].
  injection Hrow as <-. destruct st as [entries bug_id].
  pose proof Hnum as [Hid _]. cbn [fst snd] in *. subst bug_id. split.
  - by apply numbered_snoc.
  - apply Forall_app. split; [done|]. apply Forall_singleton.
    apply (HQ _ cell); [done| |]; by rewrite Hstrip.
Qed.

Lemma merge_rows_invariant (Q : bug_entry → Prop) bug_type contract_name st rows :
  (∀ id row cell approach n,
     row ∈ rows →
     Loader.row_get row "loc" [] = Some cell → strip cell ≠ [] →
     int_of_str (strip cell) = Some n →
     Q (mk_entry id contract_name n bug_type approach)) →
  numbered st → Forall Q st.1 →
  numbered (merge_rows int_of_str bug_type contract_name st rows) ∧
  Forall Q (merge_rows int_of_str bug_type contract_name st rows).1.
Proof.
  revert st. induction rows as [|row rows IH]; intros st HQ Hnum Hall; [done|].
  cbn [merge_rows].
  destruct (merge_row int_of_str bug_type contract_name st row) as [st'|] eqn:Hrow; [|done].
  destruct (merge_row_invariant Q bug_type contract_name st row st' Hrow) as [Hnum' Hall'];
    [|done|done|].
  - intros id cell approach n. apply HQ. left.
  - apply IH; [|done|done]. intros id row' cell approach n Hin. apply HQ. by right.
Qed.

End MergeLemmas.

(** X27. The entries that [merge_bug_logs] writes are numbered 1, 2, 3, ...
    in the order of the file. The bug type of an entry is always the name of
    the directory its log was found in, one of the seven bug types, whatever
    the column 'bug type' of the log says; its contract is named after the
    log file and its line is the integer that the text of the column 'loc'
    denotes, without surrounding white space. *)
Theorem merge_bug_logs_entries (int_of_str : str → option Z)
    (dirs : str → option (list log_file)) :
  let all_entries := merge_bug_logs int_of_str dirs in
  (∀ (i : nat) e, all_entries !! i = Some e → e_bug_id e = Z.of_nat i + 1) ∧
  (∀ e, e ∈ all_entries →
     e_bug_type e ∈ bug_types ∧
     ∃ (csv_files : list log_file) (file : log_file) (rows : list Loader.csv_row)
       (row : Loader.csv_row) (cell : str),
       dirs (e_bug_type e) = Some csv_files ∧ file ∈ csv_files ∧
       file.2 = Some rows ∧ row ∈ rows ∧
       e_contract e = contract_name_of file.1 ∧
       Loader.row_get row "loc" [] = Some cell ∧ strip cell ≠ [] ∧
       int_of_str (strip cell) = Some (e_line e)).
Proof.
  set (Q := λ e : bug_entry,
    e_bug_type e ∈ bug_types ∧
    ∃ (csv_files : list log_file) (file : log_file) (rows : list Loader.csv_row)
      (row : Loader.csv_row) (cell : str),
      dirs (e_bug_type e) = Some csv_files ∧ file ∈ csv_files ∧
      file.2 = Some rows ∧ row ∈ rows ∧
      e_contract e = contract_name_of file.1 ∧
      Loader.row_get row "loc" [] = Some cell ∧ strip cell ≠ [] ∧
      int_of_str (strip cell) = Some (e_line e)).
  (* the files of one directory *)
  assert (∀ bug_type csv_files files st,
            bug_type ∈ bug_types → dirs bug_type = Some csv_files →
            (∀ f, f ∈ files → f ∈ csv_files) →
            numbered st → Forall Q st.1 →
            numbered (foldl (merge_file int_of_str bug_type) st files) ∧
            Forall Q (foldl (merge_file int_of_str bug_type) st files).1) as Hfiles.
  { intros bug_type csv_files files. induction files as [|file files IH];
      intros st Hbt Hdir Hsub Hnum Hall; [done|].
    cbn [foldl]. apply IH; [done|done|intros f Hf; apply Hsub; by right|..].
    all: unfold merge_file; destruct file.2 as [rows|] eqn:Hrows; [|done].
    all: apply (merge_rows_invariant int_of_str Q); try done.
    all: intros id row cell approach n Hrow Hcell Hne Hn; split; [done|].
    all: exists csv_files, file, rows, row, cell; split_and!; try done.
    all: apply Hsub; left. }
  (* the directories *)
  assert (∀ types st,
            (∀ t, t ∈ types → t ∈ bug_types) →
            numbered st → Forall Q st.1 →
            let st' := foldl (λ st bug_type,
                                match dirs bug_type with
                                | Some csv_files =>
                                    foldl (merge_file int_of_str bug_type) st csv_files
                                | None => st
                                end) st types in
            numbered st' ∧ Forall Q st'.1) as Htypes.
  { induction types as [|t types IH]; intros st Hsub Hnum Hall; [done|].
    cbn [foldl]. apply IH; [intros t' Ht'; apply Hsub; by right|..].
    all: destruct (dirs t) as [csv_files|] eqn:Hdir; [|done].
    all: apply (Hfiles t csv_files csv_files); try done.
    all: apply Hsub; left. }
  intros all_entries.
  destruct (Htypes bug_types ([], 1)) as [[_ Hids] Hall]; [done| |done|].
  { split; [done|]. by intros i e ?. }
  split; [exact Hids|]. intros e He.
  by apply (proj1 (Forall_forall Q _) Hall).
Qed.

(** ** The deduplication of the other evaluator *)

Section DeepSeekLemmas.

Import DeepSeek.

Implicit Types (u : list (key * list (str * json))) (seen rest : list json).

Lemma first_keys_snoc (l : list key) k :
  first_keys (l ++ [k]) = if decide (k ∈ l) then first_keys l else first_keys l ++ [k].
Proof.
  unfold first_keys. rewrite reverse_app, reverse_singleton. simpl.
  destruct (decide_rel elem_of k (reverse l)) as [Hin|Hin];
    rewrite elem_of_reverse in Hin.
  - by rewrite decide_True.
  - by rewrite decide_False, reverse_cons.
Qed.

Lemma elem_of_first_keys (l : list key) k : k ∈ first_keys l ↔ k ∈ l.
Proof.
  unfold first_keys. by rewrite elem_of_reverse, elem_of_remove_dups, elem_of_reverse.
Qed.

Lemma NoDup_first_keys (l : list key) : NoDup (first_keys l).
Proof. unfold first_keys. rewrite reverse_Permutation. apply NoDup_remove_dups. Qed.

(** The invariant of the loop: the dictionary holds the keys of the findings
    seen, in the order of their first occurrence, each with the first finding
    of the key. *)
Lemma unique_step_invariant seen u x u' :
  u.*1 = first_keys (omap filed_under seen) →
  (∀ k f, (k, f) ∈ u →
     ∃ l1 l2, seen = l1 ++ JObject f :: l2 ∧ filed_under (JObject f) = Some k ∧
              ∀ g, g ∈ l1 → filed_under g ≠ Some k) →
  unique_step u x = Some u' →
  ¬ offending x ∧
  u'.*1 = first_keys (omap filed_under (seen ++ [x])) ∧
  (∀ k f, (k, f) ∈ u' →
     ∃ l1 l2, seen ++ [x] = l1 ++ JObject f :: l2 ∧ filed_under (JObject f) = Some k ∧
              ∀ g, g ∈ l1 → filed_under g ≠ Some k).
Proof.
  intros Hkeys Hfirst Hstep.
  destruct x as [| | | | |items|fields]; try done. cbn [unique_step] in Hstep.
  destruct (key_of (Dedup.get fields (py "line_number"))) as [line|] eqn:Hkey; [|done].
  cbn [mbind option_bind] in Hstep. injection Hstep as <-.
  assert (filed_under (JObject fields) = line) as Hfiled.
  { unfold filed_under. by rewrite Hkey. }
  split; [unfold offending; by rewrite Hkey|].
  assert (∀ k f, (k, f) ∈ u →
     ∃ l1 l2, seen ++ [JObject fields] = l1 ++ JObject f :: l2 ∧
              filed_under (JObject f) = Some k ∧
              ∀ g, g ∈ l1 → filed_under g ≠ Some k) as Hold.
  { intros k f Hin. destruct (Hfirst k f Hin) as (l1 & l2 & -> & Hk & Hl1).
    exists l1, (l2 ++ [JObject fields]). by rewrite <- app_assoc. }
  rewrite omap_app.
  assert (omap filed_under [JObject fields]
          = match line with Some k => [k] | None => [] end) as ->.
  { unfold omap. cbn [list_omap]. rewrite Hfiled. by destruct line. }
  destruct line as [k|]; [|by rewrite app_nil_r].
  rewrite first_keys_snoc.
  destruct (decide (k ∈ u.*1)) as [Hin|Hin].
  - rewrite decide_True by (by rewrite <- elem_of_first_keys, <- Hkeys). done.
  - rewrite decide_False by (by rewrite <- elem_of_first_keys, <- Hkeys).
    rewrite fmap_app, Hkeys. split; [done|].
    intros k' f [Hf|[= -> ->]%list_elem_of_singleton]%elem_of_app; [by apply Hold|].
    exists seen, []. split_and!; [done|done|].
    intros g Hg Hgk. apply Hin. rewrite Hkeys, elem_of_first_keys.
    apply list_elem_of_omap. by exists g.
Qed.

Lemma unique_loop_invariant seen u rest u' :
  u.*1 = first_keys (omap filed_under seen) →
  (∀ k f, (k, f) ∈ u →
     ∃ l1 l2, seen = l1 ++ JObject f :: l2 ∧ filed_under (JObject f) = Some k ∧
              ∀ g, g ∈ l1 → filed_under g ≠ Some k) →
  unique_loop u rest = Some u' →
  (∀ g, g ∈ rest → ¬ offending g) ∧
  u'.*1 = first_keys (omap filed_under (seen ++ rest)) ∧
  (∀ k f, (k, f) ∈ u' →
     ∃ l1 l2, seen ++ rest = l1 ++ JObject f :: l2 ∧ filed_under (JObject f) = Some k ∧
              ∀ g, g ∈ l1 → filed_under g ≠ Some k).
Proof.
  revert seen u. induction rest as [|x rest IH]; intros seen u Hkeys Hfirst; cbn [unique_loop].
  - intros [= <-]. rewrite app_nil_r. split_and!; [by intros g ?%elem_of_nil|done|done].
  - destruct (unique_step u x) as [u1|] eqn:Hstep; [|done]. cbn [mbind option_bind].
    intros Hloop.
    destruct (unique_step_invariant seen u x u1 Hkeys Hfirst Hstep) as (Hx & Hkeys1 & Hfirst1).
    destruct (IH (seen ++ [x]) u1 Hkeys1 Hfirst1 Hloop) as (Hrest & Hkeys' & Hfirst').
    rewrite <- (assoc_L (++)) in Hkeys', Hfirst'. split_and!; [|done|done].
    intros g [->|Hg]%elem_of_cons; [done|by apply Hrest].
Qed.

Lemma unique_loop_None u rest :
  unique_loop u rest = None → ∃ g, g ∈ rest ∧ offending g.
Proof.
  revert u. induction rest as [|x rest IH]; intros u; [done|]. cbn [unique_loop].
  destruct (unique_step u x) as [u1|] eqn:Hstep; cbn [mbind option_bind].
  - intros (g & Hg & Hbad)%IH. exists g. split; [by right|done].
  - intros _. exists x. split; [left|].
    destruct x as [| | | | |items|fields]; try done. cbn [unique_step] in Hstep.
    unfold offending.
    by destruct (key_of (Dedup.get fields (py "line_number"))).
Qed.

End DeepSeekLemmas.

(** X28. The deduplication of the DeepSeek evaluator keeps, for every value
    of ['line_number'] that is true, the first finding with that value, in
    the order of the first occurrences: no two findings returned have equal
    line numbers, and no finding before a finding returned has its line
    number. Values are compared as Python compares the keys of a
    dictionary, not as line numbers. *)
Theorem deepseek_deduplicate_first (all_findings final_findings : list json) :
  DeepSeek.deduplicate all_findings = Some final_findings →
  DeepSeek.filed_under <$> final_findings
  = Some <$> DeepSeek.first_keys (omap DeepSeek.filed_under all_findings) ∧
  NoDup (DeepSeek.filed_under <$> final_findings) ∧
  ∀ f, f ∈ final_findings →
    ∃ l1 l2, all_findings = l1 ++ f :: l2 ∧
             ∀ g, g ∈ l1 → DeepSeek.filed_under g ≠ DeepSeek.filed_under f.
Proof.
  unfold DeepSeek.deduplicate.
  destruct (DeepSeek.unique_loop [] all_findings) as [u|] eqn:Hloop; [|done].
  intros [= <-].
  destruct (unique_loop_invariant [] [] all_findings u) as (_ & Hkeys & Hfirst);
    [done|by intros k f ?%elem_of_nil|done|].
  rewrite app_nil_l in Hkeys, Hfirst.
  assert (DeepSeek.filed_under <$> ((λ item, JObject item.2) <$> u) = Some <$> u.*1)
    as Hfiled.
  { rewrite <- !list_fmap_compose. apply list_fmap_ext. intros i [k f] Hi.
    apply list_elem_of_lookup_2, Hfirst in Hi as (l1 & l2 & _ & Hk & _). exact Hk. }
  split_and!.
  - by rewrite Hfiled, Hkeys.
  - rewrite Hfiled, Hkeys. apply (NoDup_fmap_2 _), NoDup_first_keys.
  - intros f ([k fields] & -> & Hin)%list_elem_of_fmap. cbn [snd].
    destruct (Hfirst k fields Hin) as (l1 & l2 & Heq & Hk & Hl1).
    exists l1, l2. split; [done|]. by rewrite Hk.
Qed.

Lemma deepseek_deduplicate_first_witness :
  let seven := JObject [(py "line_number", JInt 7)] in
  let seven_float := JObject [(py "line_number", JFloat (Finite 7))] in
  let seven_text := JObject [(py "line_number", JString (py "7"))] in
  DeepSeek.deduplicate [seven; seven_float; seven_text] = Some [seven; seven_text] ∧
  NoDup (DeepSeek.filed_under <$> [seven; seven_text]).
Proof.
  intros seven seven_float seven_text. split; [by vm_compute|].
  apply (deepseek_deduplicate_first [seven; seven_float; seven_text] [seven; seven_text]).
  by vm_compute.
Defined.

(** X29. The deduplication of the DeepSeek evaluator raises exactly when
    some finding is no dictionary (a text, a number, a list or [null] has no
    [get]) or has a non-empty list or dictionary as line number (it cannot be
    hashed). A finding whose line number is missing, [null], 0, [false] or
    empty is skipped. *)
Theorem deepseek_deduplicate_raises (all_findings : list json) :
  DeepSeek.deduplicate all_findings = None ↔
  ∃ g, g ∈ all_findings ∧ DeepSeek.offending g.
Proof.
  unfold DeepSeek.deduplicate.
  destruct (DeepSeek.unique_loop [] all_findings) as [u|] eqn:Hloop.
  - split; [done|]. intros (g & Hg & Hbad).
    destruct (unique_loop_invariant [] [] all_findings u) as (Hok & _);
      [done|by intros k f ?%elem_of_nil|done|].
    by destruct (Hok g Hg).
  - split; [|done]. intros _. by eapply unique_loop_None.
Qed.

(** ** The statistics of the summary files *)

Section StatsLemmas.

Import Stats.

Context (int_of_str : str → option Z).

Implicit Types (stats : gmap str tool_stats) (c : gmap (option str) Z) (e : tool_stats).

Lemma side_with_side k e c : side k (with_side k e c) = c.
Proof. by destruct k. Qed.

Lemma with_side_with_side k e c c' : with_side k (with_side k e c) c' = with_side k e c'.
Proof. by destruct k. Qed.

(** Counting a row replaces the dictionary of the tool and the kind by
    [add_count] of itself. *)
Lemma count_row_counted tool k column stats row n :
  count_cell int_of_str row column = Some (Some n) →
  count_row int_of_str tool k column stats row
  = Some (let e := default (∅, ∅) (stats !! tool) in
          <[tool := with_side k e
                      (add_count (side k e)
                         (Loader.row_get row "BugType" (py "Unknown"), n))]> stats).
Proof.
  intros Hn. unfold count_row. rewrite Hn. cbn [mbind option_bind]. f_equal.
  unfold set_count, get_count, add_count. cbn [fst snd].
  rewrite !lookup_insert_eq. cbn [default from_option id].
  by rewrite insert_insert_eq, with_side_with_side, !side_with_side.
Qed.

Lemma count_rows_spec tool k column stats rows :
  count_rows int_of_str tool k column stats rows
  = match counted int_of_str column rows with
    | [] => stats
    | pairs =>
        let e := default (∅, ∅) (stats !! tool) in
        <[tool := with_side k e (foldl add_count (side k e) pairs)]> stats
    end.
Proof.
  revert stats. induction rows as [|row rows IH]; intros stats; [done|].
  cbn [count_rows counted].
  destruct (count_cell int_of_str row column) as [[n|]|] eqn:Hn.
  - rewrite (count_row_counted tool k column stats row n Hn). cbv zeta. rewrite IH.
    destruct (counted int_of_str column rows) as [|p pairs]; [done|].
    cbv zeta. rewrite lookup_insert_eq. cbn [default from_option id].
    by rewrite insert_insert_eq, with_side_with_side, side_with_side.
  - unfold count_row. rewrite Hn. cbn [mbind option_bind]. apply IH.
  - unfold count_row. by rewrite Hn.
Qed.

(** The total of a dictionary after counting pairs none of which is named
    'Total'. *)
Lemma foldl_add_count_total (c : gmap (option str) Z) (pairs : list (option str * Z)) :
  (∀ p, p ∈ pairs → p.1 ≠ total) →
  default 0 (foldl add_count c pairs !! total) = default 0 (c !! total) + sum pairs.*2 ∧
  (pairs ≠ [] → is_Some (foldl add_count c pairs !! total)).
Proof.
  revert c. induction pairs as [|[key n] pairs IH]; intros c Hkeys.
  - split; [|done]. unfold sum. simpl. lia.
  - cbn [foldl]. destruct (IH (add_count c (key, n))) as [Hsum Hsome].
    { intros p Hp. apply Hkeys. by right. }
    assert (key ≠ total) as Hkey by apply (Hkeys (key, n)), list_elem_of_here.
    assert (add_count c (key, n) !! total = Some (default 0 (c !! total) + n)) as Hadd.
    { unfold add_count. cbv zeta. cbn [fst snd]. rewrite lookup_insert_eq.
      by rewrite lookup_insert_ne by done. }
    rewrite Hadd in Hsum. cbn [default from_option id] in Hsum. split.
    + rewrite Hsum. rewrite fmap_cons, sum_cons. cbn [snd]. lia.
    + intros _. destruct pairs as [|p pairs]; [cbn [foldl]; by rewrite Hadd|].
      by apply Hsome.
Qed.

(** The count of a bug type is that of the last row counted for it. *)
Lemma foldl_add_count_key (c : gmap (option str) Z) (pairs : list (option str * Z)) key :
  key ≠ total →
  foldl add_count c pairs !! key
  = match last (filter (λ p, p.1 = key) pairs) with
    | Some p => Some p.2
    | None => c !! key
    end.
Proof.
  intros Hkey. revert c. induction pairs as [|[key' n] pairs IH] using rev_ind; intros c.
  - done.
  - rewrite foldl_snoc, filter_app, filter_cons, filter_nil. cbn [fst].
    unfold add_count at 1. cbv zeta. cbn [fst snd].
    rewrite lookup_insert_ne by done.
    destruct (decide (key' = key)) as [->|Hne].
    + by rewrite last_snoc, lookup_insert_eq.
    + rewrite app_nil_r, lookup_insert_ne by done. apply IH.
Qed.

(** One loop over the tools changes the dictionary of its kind for the tools
    that have a file with a counted row, and nothing else. *)
Lemma analyze_tools_spec k column (files : str → option (list Loader.csv_row))
    (ts : list str) stats tool :
  NoDup ts →
  foldl (λ stats tool,
           match files tool with
           | Some rows => count_rows int_of_str tool k column stats rows
           | None => stats
           end) stats ts !! tool
  = match (if decide (tool ∈ ts) then files tool else None) with
    | Some rows =>
        match counted int_of_str column rows with
        | [] => stats !! tool
        | pairs =>
            let e := default (∅, ∅) (stats !! tool) in
            Some (with_side k e (foldl add_count (side k e) pairs))
        end
    | None => stats !! tool
    end.
Proof.
  intros Hnd. revert stats. induction ts as [|t ts IH]; intros stats; [done|].
  apply NoDup_cons in Hnd as [Ht Hnd]. cbn [foldl]. rewrite (IH Hnd).
  set (stats1 := match files t with
                 | Some rows => count_rows int_of_str t k column stats rows
                 | None => stats
                 end).
  destruct (decide (tool = t)) as [->|Hne].
  - rewrite (decide_False (P := t ∈ ts)) by done.
    rewrite (decide_True (P := t ∈ t :: ts)) by left.
    unfold stats1. destruct (files t) as [rows|]; [|done].
    rewrite count_rows_spec.
    destruct (counted int_of_str column rows) as [|p pairs]; [done|].
    cbv zeta. by rewrite lookup_insert_eq.
  - assert (stats1 !! tool = stats !! tool) as Hframe.
    { unfold stats1. destruct (files t) as [rows|]; [|done].
      rewrite count_rows_spec.
      destruct (counted int_of_str column rows) as [|p pairs]; [done|].
      cbv zeta. by rewrite lookup_insert_ne. }
    clearbody stats1.
    destruct (decide (tool ∈ ts)) as [Hin|Hin].
    + rewrite (decide_True (P := tool ∈ t :: ts)) by (by right).
      destruct (files tool) as [rows|]; [|done].
      destruct (counted int_of_str column rows) as [|p pairs]; [done|].
      cbv zeta. unfold tool_stats in *. by rewrite Hframe.
    + rewrite (decide_False (P := tool ∈ t :: ts)); [done|].
      by intros [?|?]%elem_of_cons.
Qed.

Lemma tools_NoDup : NoDup tools.
Proof. by compute_done. Qed.

End StatsLemmas.

(** X30. The statistics of a tool: when the summary file of a tool has a
    counted row and no counted row is labelled 'Total', [analyze_csvs] gives
    the tool an entry whose 'Total' is the sum of the counts of the counted
    rows (the rows before the first one with a missing count cell, without
    those whose count is no integer) and whose count for a bug type is that
    of the last counted row of the type. *)
Theorem analyze_csvs_totals (int_of_str : str → option Z)
    (fn_files fp_files : str → option (list Loader.csv_row))
    (k : Stats.kind) (tool : str) (rows : list Loader.csv_row) :
  let files := match k with Stats.FN => fn_files | Stats.FP => fp_files end in
  let column := match k with Stats.FN => "FalseNegatives" | Stats.FP => "FalsePositives" end in
  let pairs := Stats.counted int_of_str column rows in
  tool ∈ Stats.tools → files tool = Some rows → pairs ≠ [] →
  (∀ p, p ∈ pairs → p.1 ≠ Stats.total) →
  ∃ e, Stats.analyze_csvs int_of_str fn_files fp_files !! tool = Some e ∧
       Stats.side k e !! Stats.total = Some (sum pairs.*2) ∧
       ∀ key, key ≠ Stats.total →
         Stats.side k e !! key = snd <$> last (filter (λ p, p.1 = key) pairs).
Proof.
  intros files column pairs Htool Hfile Hpairs Hkeys.
  assert (∀ c : gmap (option str) Z, c = ∅ →
            foldl Stats.add_count c pairs !! Stats.total = Some (sum pairs.*2) ∧
            ∀ key, key ≠ Stats.total →
              foldl Stats.add_count c pairs !! key
              = snd <$> last (filter (λ p, p.1 = key) pairs)) as Hcounts.
  { intros c ->. split.
    - destruct (foldl_add_count_total ∅ pairs Hkeys) as [Hsum Hsome].
      destruct (Hsome Hpairs) as [v Hv]. rewrite Hv in Hsum |- *.
      rewrite lookup_empty in Hsum. cbn [default from_option id] in Hsum.
      f_equal. lia.
    - intros key Hkey. rewrite (foldl_add_count_key ∅ pairs key Hkey), lookup_empty.
      by destruct (last _). }
  unfold Stats.analyze_csvs.
  set (stats1 := Stats.analyze_kind int_of_str Stats.FN "FalseNegatives" fn_files ∅).
  assert (stats1 !! tool
          = match fn_files tool with
            | Some rows =>
                match Stats.counted int_of_str "FalseNegatives" rows with
                | [] => None
                | pairs => Some (foldl Stats.add_count ∅ pairs, ∅)
                end
            | None => None
            end) as Hfirst.
  { unfold stats1, Stats.analyze_kind.
    rewrite (analyze_tools_spec int_of_str) by apply tools_NoDup.
    rewrite (decide_True (P := tool ∈ Stats.tools)) by done. rewrite lookup_empty.
    destruct (fn_files tool) as [rows'|]; [|done].
    by destruct (Stats.counted int_of_str "FalseNegatives" rows'). }
  clearbody stats1. unfold Stats.analyze_kind.
  rewrite (analyze_tools_spec int_of_str) by apply tools_NoDup.
  rewrite (decide_True (P := tool ∈ Stats.tools)) by done.
  unfold Stats.tool_stats in *. cbv zeta. rewrite !Hfirst.
  subst files column. destruct k; rewrite Hfile in *.
  - (* the dictionary of the false negatives, set by the first loop *)
    change (Stats.counted int_of_str "FalseNegatives" rows) with pairs.
    clearbody pairs. destruct pairs as [|p pairs'] eqn:Epairs; [done|].
    rewrite <- Epairs in *. clear Epairs.
    destruct (fp_files tool) as [rows'|];
      [destruct (Stats.counted int_of_str "FalsePositives" rows') as [|p' pairs2]|];
      cbn [default from_option id Stats.side Stats.with_side fst snd];
      eexists; (split; [reflexivity|]); cbn [fst]; by apply Hcounts.
  - (* the dictionary of the false positives, set by the second loop *)
    change (Stats.counted int_of_str "FalsePositives" rows) with pairs.
    clearbody pairs. destruct pairs as [|p pairs'] eqn:Epairs; [done|].
    rewrite <- Epairs in *. clear Epairs.
    destruct (fn_files tool) as [rows'|];
      [destruct (Stats.counted int_of_str "FalseNegatives" rows') as [|p' pairs1]|];
      cbn [default from_option id Stats.side Stats.with_side fst snd];
      eexists; (split; [reflexivity|]); cbn [snd]; by apply Hcounts.
Qed.

Lemma analyze_csvs_totals_witness :
  let row1 : Loader.csv_row :=
    {[ py "BugType" := Some (py "TOD"); py "FalseNegatives" := Some (py "3") ]} in
  let row2 : Loader.csv_row :=
    {[ py "BugType" := Some (py "DAO"); py "FalseNegatives" := Some (py "3") ]} in
  let fn_files := λ tool : str, if decide (tool = py "Oyente") then Some [row1; row2] else None in
  ∃ e, Stats.analyze_csvs (λ _, Some 3) fn_files (λ _, None) !! py "Oyente" = Some e ∧
       Stats.side Stats.FN e !! Stats.total = Some 6.
Proof.
  intros row1 row2 fn_files.
  destruct (analyze_csvs_totals (λ _, Some 3) fn_files (λ _, None) Stats.FN (py "Oyente")
              [row1; row2]) as (e & He & Htotal & _).
  - by compute_done.
  - reflexivity.
  - by vm_compute.
  - intros p Hp. vm_compute in Hp.
    apply elem_of_cons in Hp as [->|Hp]; [done|].
    apply list_elem_of_singleton in Hp as ->. done.
  - exists e. split; [exact He|exact Htotal].
Defined.
